(** * The connection-forwarding engine of network.c

    A shallow embedding of [src/network.c]: the listener lifecycle, the
    three acceptance flows, SOCKS negotiation, the forwarding callbacks,
    the half-close primitive [error_or_eof], teardown and shutdown.

    The C code mutates two module-level smartlists, a flag, and the
    [conn_t] records reachable from them.  Here that store is the record
    [net_state]; every C function becomes a function from a store to a
    [result] store.  Pointers are kept as pointers: a [conn_t *] is a
    [conn_id] into the store, a [struct bufferevent *] or a [void *] is a
    [ptr].  External collaborators (the protocol object, the SOCKS parser,
    the answers of the operating system) are interfaces. *)

From Stdlib Require Import ZArith Lia.
From stdpp Require Import base option list gmap.

Local Open Scope Z_scope.

(** ** Outcomes of a callback *)

(** A C function of network.c either returns, aborts the process
    ([obfs_abort], a failed [obfs_assert]), or steps outside what C defines
    (a NULL, freed or mis-typed pointer is dereferenced).  [Fuel] is the
    outcome of a bounded run of the [do ... while] loop of [socks_read_cb]
    that needed more iterations than it was given. *)
Inductive result (A : Type) : Type :=
| Ok (a : A)
| Abort
| Undef
| Fuel.
Arguments Ok {A} a.
Arguments Abort {A}.
Arguments Undef {A}.
Arguments Fuel {A}.

#[export] Instance result_ret : MRet result := fun A a => Ok a.
#[export] Instance result_bind : MBind result := fun A B k m =>
  match m with
  | Ok a => k a
  | Abort => Abort
  | Undef => Undef
  | Fuel => Fuel
  end.

(** Modelled from the spec: [obfs_assert] and [obfs_abort] come from
    util.h, which is not among the sources; an invariant violation aborts
    the process. *)
Definition obfs_assert (b : bool) : result unit :=
  if b then Ok tt else Abort.

(** ** Data *)

Definition evbuffer := list Byte.byte.

Definition evbuffer_get_length (b : evbuffer) : Z := Z.of_nat (length b).

Inductive side := Input | Output.

Definition conn_id := nat.

(** Pointer values.  [PBev c s] is the address of the bufferevent that
    [conn_t] number [c] owns in its field [s]; [PConn c] is the address of
    the [conn_t] itself. *)
Inductive ptr :=
| PNull
| PConn (c : conn_id)
| PBev (c : conn_id) (s : side).

#[export] Instance side_eq_dec : EqDecision side.
Proof. solve_decision. Defined.
#[export] Instance ptr_eq_dec : EqDecision ptr.
Proof. solve_decision. Defined.

(** The functions of this file that libevent is given as callbacks. *)
Inductive bufferevent_data_cb :=
| CB_upstream_read
| CB_downstream_read
| CB_socks_read
| CB_close_conn_on_flush.

Inductive bufferevent_event_cb :=
| CB_input_event
| CB_output_event
| CB_socks_event.

Inductive evconnlistener_cb :=
| CB_simple_client_listener
| CB_simple_server_listener
| CB_socks_client_listener.

(** libevent's event flags (event2/event.h, event2/bufferevent.h). *)
Definition EV_READ : Z := 0x02.
Definition EV_WRITE : Z := 0x04.
Definition BEV_EVENT_EOF : Z := 0x10.
Definition BEV_EVENT_ERROR : Z := 0x20.
Definition BEV_EVENT_TIMEOUT : Z := 0x40.
Definition BEV_EVENT_CONNECTED : Z := 0x80.
Definition LEV_OPT_CLOSE_ON_FREE : Z := 0x02.
Definition LEV_OPT_CLOSE_ON_EXEC : Z := 0x04.
Definition LEV_OPT_REUSEABLE : Z := 0x08.

(** [x & mask] read as a C condition. *)
Definition flag_set (x mask : Z) : bool := negb (Z.land x mask =? 0).

(** A buffered stream: the two evbuffers, the enabled events, and the
    callbacks with their argument. *)
Record bufferevent := Bufferevent {
  bev_fd : Z;
  bev_input : evbuffer;
  bev_output : evbuffer;
  enabled : Z;
  readcb : option bufferevent_data_cb;
  writecb : option bufferevent_data_cb;
  eventcb : option bufferevent_event_cb;
  cbarg : ptr
}.

(** [bufferevent_socket_new]: a fresh bufferevent has empty buffers, no
    callbacks, and (libevent's default) writing enabled, reading not. *)
Definition bufferevent_socket_new (fd : Z) : bufferevent :=
  {| bev_fd := fd; bev_input := []; bev_output := []; enabled := EV_WRITE;
     readcb := None; writecb := None; eventcb := None; cbarg := PNull |}.

Definition set_enabled (b : bufferevent) (e : Z) : bufferevent :=
  {| bev_fd := bev_fd b; bev_input := bev_input b; bev_output := bev_output b;
     enabled := e;
     readcb := readcb b; writecb := writecb b; eventcb := eventcb b;
     cbarg := cbarg b |}.

Definition set_bev_input (b : bufferevent) (i : evbuffer) : bufferevent :=
  {| bev_fd := bev_fd b; bev_input := i; bev_output := bev_output b;
     enabled := enabled b;
     readcb := readcb b; writecb := writecb b; eventcb := eventcb b;
     cbarg := cbarg b |}.

Definition set_bev_output (b : bufferevent) (o : evbuffer) : bufferevent :=
  {| bev_fd := bev_fd b; bev_input := bev_input b; bev_output := o;
     enabled := enabled b;
     readcb := readcb b; writecb := writecb b; eventcb := eventcb b;
     cbarg := cbarg b |}.

Definition set_callbacks (b : bufferevent)
    (r w : option bufferevent_data_cb) (e : option bufferevent_event_cb)
    (arg : ptr) : bufferevent :=
  {| bev_fd := bev_fd b; bev_input := bev_input b; bev_output := bev_output b;
     enabled := enabled b;
     readcb := r; writecb := w; eventcb := e; cbarg := arg |}.

Definition read_enabled (b : bufferevent) : bool := flag_set (enabled b) EV_READ.
Definition write_enabled (b : bufferevent) : bool := flag_set (enabled b) EV_WRITE.

Inductive listen_mode :=
| LSN_SIMPLE_CLIENT
| LSN_SIMPLE_SERVER
| LSN_SOCKS_CLIENT.

#[export] Instance listen_mode_eq_dec : EqDecision listen_mode.
Proof. solve_decision. Defined.

Record evutil_addrinfo := Addrinfo {
  ai_addr : list Byte.byte;
  ai_addrlen : Z
}.

(** Modelled from the spec: [protocol_params_t] is declared in protocol.h,
    which is not among the sources.  It holds the mode, the listen address
    and, except for SOCKS listeners, the target address.  [params_id]
    stands for the address of the object, which is what [proto_params_free]
    is given. *)
Record protocol_params_t := ProtocolParams {
  params_id : nat;
  mode : listen_mode;
  listen_addr : evutil_addrinfo;
  target_addr : option evutil_addrinfo
}.

(** The acceptor [evconnlistener_new_bind] returns: its callback, flags
    and bound address. *)
Record evconnlistener := Evconnlistener {
  lev_cb : evconnlistener_cb;
  lev_flags : Z;
  lev_addr : list Byte.byte
}.

Record listener_t := Listener {
  listener : option evconnlistener;
  proto_params : option protocol_params_t
}.

Inductive socks_ret :=
| SOCKS_GOOD
| SOCKS_INCOMPLETE
| SOCKS_CMD_NOT_CONNECT
| SOCKS_BROKEN.

(** Modelled from the spec: socks.h is not among the sources.  The status
    enum is "Init, HaveAddr, SentReply, ..."; the code of network.c tests
    only for [ST_HAVE_ADDR] and [ST_SENT_REPLY]. *)
Inductive socks_status_t :=
| ST_INIT
| ST_OTHER
| ST_HAVE_ADDR
| ST_SENT_REPLY.

#[export] Instance socks_status_eq_dec : EqDecision socks_status_t.
Proof. solve_decision. Defined.

(** Modelled from the spec: the reply code of "command not supported" is
    the byte 0x07. *)
Definition SOCKS5_FAILED_UNSUPPORTED : Z := 7.

(** Modelled from the spec: protocol.h is not among the sources; [recv]
    answers Ok, Bad or SendPending. *)
Inductive recv_ret :=
| RECV_OK
| RECV_BAD
| RECV_SEND_PENDING.

(** ** External collaborators *)

(** The protocol capability set, with the signatures network.c calls it
    by.  Every operation is handed the evbuffers it may read and write and
    returns them as it left them, together with the protocol object. *)
Class Protocol := {
  protocol_t : Type;
  proto_create : protocol_params_t -> option protocol_t;
  proto_handshake : protocol_t -> evbuffer -> Z * protocol_t * evbuffer;
  proto_send : protocol_t -> evbuffer -> evbuffer ->
               Z * protocol_t * evbuffer * evbuffer;
  proto_recv : protocol_t -> evbuffer -> evbuffer ->
               recv_ret * protocol_t * evbuffer * evbuffer
}.

(** The SOCKS capability set, with the signatures network.c calls it by.
    [socks_state_get_address] returns its status and, through its three
    out-parameters, the address family, the address and the port. *)
Class Socks := {
  socks_state_t : Type;
  socks_state_new : socks_state_t;
  socks_state_get_status : socks_state_t -> socks_status_t;
  handle_socks : evbuffer -> evbuffer -> socks_state_t ->
                 socks_ret * evbuffer * evbuffer * socks_state_t;
  socks_state_get_address : socks_state_t -> Z * (Z * list Byte.byte * Z);
  socks_state_set_address : socks_state_t -> list Byte.byte -> socks_state_t;
  socks_send_reply : socks_state_t -> evbuffer -> Z -> socks_state_t * evbuffer;
  socks5_send_reply : evbuffer -> socks_state_t -> Z -> socks_state_t * evbuffer
}.

(** What the operating system and libevent answer during one callback:
    whether the bufferevents can be allocated, the return value of the
    connect call, the pending socket error of the bufferevent's socket
    ([evutil_socket_geterror]), and the address of the peer as the kernel
    holds it, [None] when [getpeername] fails.  With them, what the
    platform fixes for [socks_event_cb]: the size of a pointer, and the
    bytes its uninitialised local [struct sockaddr_storage ss] holds on
    entry. *)
Record os_env := OsEnv {
  new_input_ok : bool;
  new_output_ok : bool;
  connect_r : Z;
  socket_error : Z;
  peername : option (list Byte.byte);
  sizeof_pointer : nat;
  ss_uninit : list Byte.byte
}.

(** [getpeername(fd, sa, &slen)] with [sa] pointing to [ss]: at most
    [slen] bytes of the address are written, the address is cut off
    behind them, and the bytes of [ss] behind what was written stay as
    they were.  The result is [ss] as [sa] is then read. *)
Definition getpeername (env : os_env) (slen : nat) : option (list Byte.byte) :=
  match peername env with
  | Some addr =>
      Some (take slen addr ++ drop (length (take slen addr)) (ss_uninit env))
  | None => None
  end.

(** Calls that leave network.c, in the order they are made. *)
Inductive call :=
| CallFinishShutdown
| CallProtoHandshake (c : conn_id) (s : side)
| CallConnect (c : conn_id) (addr : list Byte.byte)
| CallConnectHostname (c : conn_id) (af : Z) (addr : list Byte.byte) (port : Z)
| CallParamsFree (p : nat)
| CallListenerFree (addr : list Byte.byte)
| CallConnFree (c : conn_id)
| CallCloseSocket (fd : Z).

Definition is_finish_shutdown (k : call) : bool :=
  match k with CallFinishShutdown => true | _ => false end.

Section Network.

Context `{P : Protocol} `{K : Socks}.

(** ** The store *)

(** Modelled from the spec: network.h, which declares [conn_t], is not
    among the sources.  The fields are the ones network.c reads and writes;
    [conn_mode] is the field [mode]. *)
Record conn_t := Conn {
  conn_mode : listen_mode;
  proto : option protocol_t;
  socks_state : option socks_state_t;
  input : option bufferevent;
  output : option bufferevent;
  is_open : bool;
  flushing : bool
}.

(** [xzalloc(sizeof(conn_t))] followed by the assignment of [mode]. *)
Definition conn_zero (m : listen_mode) : conn_t :=
  {| conn_mode := m; proto := None; socks_state := None;
     input := None; output := None; is_open := false; flushing := false |}.

Definition set_proto (cn : conn_t) (p : option protocol_t) : conn_t :=
  {| conn_mode := conn_mode cn; proto := p; socks_state := socks_state cn;
     input := input cn; output := output cn;
     is_open := is_open cn; flushing := flushing cn |}.

Definition set_socks_state (cn : conn_t) (s : option socks_state_t) : conn_t :=
  {| conn_mode := conn_mode cn; proto := proto cn; socks_state := s;
     input := input cn; output := output cn;
     is_open := is_open cn; flushing := flushing cn |}.

Definition set_input (cn : conn_t) (b : option bufferevent) : conn_t :=
  {| conn_mode := conn_mode cn; proto := proto cn; socks_state := socks_state cn;
     input := b; output := output cn;
     is_open := is_open cn; flushing := flushing cn |}.

Definition set_output (cn : conn_t) (b : option bufferevent) : conn_t :=
  {| conn_mode := conn_mode cn; proto := proto cn; socks_state := socks_state cn;
     input := input cn; output := b;
     is_open := is_open cn; flushing := flushing cn |}.

Definition set_is_open (cn : conn_t) (v : bool) : conn_t :=
  {| conn_mode := conn_mode cn; proto := proto cn; socks_state := socks_state cn;
     input := input cn; output := output cn;
     is_open := v; flushing := flushing cn |}.

Definition set_flushing (cn : conn_t) (v : bool) : conn_t :=
  {| conn_mode := conn_mode cn; proto := proto cn; socks_state := socks_state cn;
     input := input cn; output := output cn;
     is_open := is_open cn; flushing := v |}.

Definition get_side (cn : conn_t) (s : side) : option bufferevent :=
  match s with Input => input cn | Output => output cn end.

Definition set_side (cn : conn_t) (s : side) (b : option bufferevent) : conn_t :=
  match s with Input => set_input cn b | Output => set_output cn b end.

(** The module-level variables of network.c, the [conn_t] records that
    are allocated, and the calls made so far.  A smartlist pointer is an
    [option]: [None] is NULL. *)
Record net_state := NetState {
  listeners : option (list listener_t);
  connections : option (list conn_id);
  shutting_down : bool;
  conns : gmap conn_id conn_t;
  calls : list call
}.

Definition initial_state : net_state :=
  {| listeners := None; connections := None; shutting_down := false;
     conns := ∅; calls := [] |}.

Definition set_listeners (st : net_state) (l : option (list listener_t)) :=
  {| listeners := l; connections := connections st;
     shutting_down := shutting_down st; conns := conns st; calls := calls st |}.

Definition set_connections (st : net_state) (l : option (list conn_id)) :=
  {| listeners := listeners st; connections := l;
     shutting_down := shutting_down st; conns := conns st; calls := calls st |}.

Definition set_shutting_down (st : net_state) (v : bool) :=
  {| listeners := listeners st; connections := connections st;
     shutting_down := v; conns := conns st; calls := calls st |}.

Definition set_conns (st : net_state) (h : gmap conn_id conn_t) :=
  {| listeners := listeners st; connections := connections st;
     shutting_down := shutting_down st; conns := h; calls := calls st |}.

Definition log (st : net_state) (k : call) :=
  {| listeners := listeners st; connections := connections st;
     shutting_down := shutting_down st; conns := conns st;
     calls := calls st ++ [k] |}.

(** How often [finish_shutdown] has been called. *)
Definition finish_shutdown_calls (st : net_state) : nat :=
  length (filter (fun k => is_finish_shutdown k = true) (calls st)).

(** [finish_shutdown] belongs to the hosting program (main.h): here it is
    a call that is logged. *)
Definition finish_shutdown (st : net_state) : net_state := log st CallFinishShutdown.

(** [conn->...]: reading through a [conn_t *]. *)
Definition load_conn (st : net_state) (c : conn_id) : result conn_t :=
  match conns st !! c with
  | Some cn => Ok cn
  | None => Undef
  end.

Definition store_conn (st : net_state) (c : conn_id) (cn : conn_t) : net_state :=
  set_conns st (<[c := cn]> (conns st)).

(** [conn_t *conn = arg;] *)
Definition as_conn (arg : ptr) : result conn_id :=
  match arg with
  | PConn c => Ok c
  | _ => Undef
  end.

(** The values of the fields [conn->input] and [conn->output]. *)
Definition field_ptr (c : conn_id) (cn : conn_t) (s : side) : ptr :=
  match get_side cn s with
  | Some _ => PBev c s
  | None => PNull
  end.

Definition ptr_eqb (p q : ptr) : bool := bool_decide (p = q).

(** Reading and writing through a [struct bufferevent *]. *)
Definition load_bev (st : net_state) (bev : ptr) : result bufferevent :=
  match bev with
  | PBev c s =>
      cn ← load_conn st c;
      match get_side cn s with
      | Some b => Ok b
      | None => Undef
      end
  | _ => Undef
  end.

Definition update_bev (st : net_state) (bev : ptr)
    (f : bufferevent -> bufferevent) : result net_state :=
  match bev with
  | PBev c s =>
      cn ← load_conn st c;
      match get_side cn s with
      | Some b => Ok (store_conn st c (set_side cn s (Some (f b))))
      | None => Undef
      end
  | _ => Undef
  end.

Definition bufferevent_enable (st : net_state) (bev : ptr) (ev : Z) :=
  update_bev st bev (fun b => set_enabled b (Z.lor (enabled b) ev)).

Definition bufferevent_disable (st : net_state) (bev : ptr) (ev : Z) :=
  update_bev st bev (fun b => set_enabled b (Z.land (enabled b) (Z.lnot ev))).

Definition bufferevent_setcb (st : net_state) (bev : ptr)
    (r w : option bufferevent_data_cb) (e : option bufferevent_event_cb)
    (arg : ptr) :=
  update_bev st bev (fun b => set_callbacks b r w e arg).

(** [bufferevent_get_output(bev)] and [bufferevent_get_input(bev)]. *)
Definition bufferevent_get_output (st : net_state) (bev : ptr) : result evbuffer :=
  b ← load_bev st bev; Ok (bev_output b).

Definition bufferevent_get_input (st : net_state) (bev : ptr) : result evbuffer :=
  b ← load_bev st bev; Ok (bev_input b).

(** ** Teardown and shutdown *)

(** [conn_free]: the protocol object, the SOCKS state and both
    bufferevents go with the record. *)
Definition conn_free (st : net_state) (conn : conn_id) : result net_state :=
  _ ← load_conn st conn;
  Ok (log (set_conns st (delete conn (conns st))) (CallConnFree conn)).

(** Modelled from the spec: the smartlist of container.h is not among the
    sources.  [smartlist_remove] removes the element from the list, every
    occurrence of it; [smartlist_len] is the number of elements. *)
Definition smartlist_remove (sl : list conn_id) (conn : conn_id) : list conn_id :=
  filter (fun x => x ≠ conn) sl.

Definition smartlist_len (sl : list conn_id) : Z := Z.of_nat (length sl).

Definition close_conn (st : net_state) (conn : conn_id) : result net_state :=
  match connections st with
  | None => Abort
  | Some sl =>
      let sl := smartlist_remove sl conn in
      st ← conn_free (set_connections st (Some sl)) conn;
      let st := if smartlist_len sl =? 0 then set_connections st None else st in
      Ok (match connections st with
          | None => if shutting_down st then finish_shutdown st else st
          | Some _ => st
          end)
  end.

Fixpoint free_each (st : net_state) (sl : list conn_id) : result net_state :=
  match sl with
  | [] => Ok st
  | conn :: sl => st ← conn_free st conn; free_each st sl
  end.

Definition close_all_connections (st : net_state) : result net_state :=
  match connections st with
  | None => Ok st
  | Some sl => st ← free_each st sl; Ok (set_connections st None)
  end.

Definition start_shutdown (st : net_state) (barbaric : Z) : result net_state :=
  let st := if negb (shutting_down st) then set_shutting_down st true else st in
  st ← (if negb (barbaric =? 0) then close_all_connections st else Ok st);
  let st := match connections st with
            | Some sl => if smartlist_len sl =? 0 then set_connections st None else st
            | None => st
            end in
  Ok (match connections st with
      | None => finish_shutdown st
      | Some _ => st
      end).

(** [close_conn_on_flush], the write-complete callback of a draining
    stream. *)
Definition close_conn_on_flush (st : net_state) (bev : ptr) (arg : ptr)
    : result net_state :=
  conn ← as_conn arg;
  out ← bufferevent_get_output st bev;
  if evbuffer_get_length out =? 0 then close_conn st conn else Ok st.

(** ** Listeners *)

Definition listener_callback (m : listen_mode) : evconnlistener_cb :=
  match m with
  | LSN_SIMPLE_CLIENT => CB_simple_client_listener
  | LSN_SIMPLE_SERVER => CB_simple_server_listener
  | LSN_SOCKS_CLIENT => CB_socks_client_listener
  end.

(** [evconnlistener_new_bind]: NULL when the bind fails. *)
Definition evconnlistener_new_bind (bind_ok : bool) (cb : evconnlistener_cb)
    (flags : Z) (addr : list Byte.byte) : option evconnlistener :=
  if bind_ok then Some {| lev_cb := cb; lev_flags := flags; lev_addr := addr |}
  else None.

Definition listener_new (st : net_state) (bind_ok : bool)
    (params : protocol_params_t) : net_state * option listener_t :=
  let flags :=
    Z.lor (Z.lor LEV_OPT_CLOSE_ON_FREE LEV_OPT_CLOSE_ON_EXEC) LEV_OPT_REUSEABLE in
  let callback := listener_callback (mode params) in
  let lsn :=
    {| proto_params := Some params;
       listener := evconnlistener_new_bind bind_ok callback flags
                     (ai_addr (listen_addr params)) |} in
  match listener lsn with
  | None => (log st (CallParamsFree (params_id params)), None)
  | Some _ =>
      let sl := match listeners st with Some sl => sl | None => [] end in
      (set_listeners st (Some (sl ++ [lsn])), Some lsn)
  end.

Definition listener_free (st : net_state) (lsn : listener_t) : net_state :=
  let st := match listener lsn with
            | Some l => log st (CallListenerFree (lev_addr l))
            | None => st
            end in
  match proto_params lsn with
  | Some p => log st (CallParamsFree (params_id p))
  | None => st
  end.

Definition free_all_listeners (st : net_state) : net_state :=
  match listeners st with
  | None => st
  | Some sl => set_listeners (foldl listener_free st sl) None
  end.

(** ** Acceptance flows *)

(** [xzalloc] returns an address that is not in use. *)
Definition xzalloc_conn (st : net_state) : conn_id := fresh (dom (conns st)).

(** [proto_handshake(conn->proto, bufferevent_get_output(bev))]: the
    protocol object and the evbuffer are left as the protocol leaves them. *)
Definition handshake_into (st : net_state) (conn : conn_id) (s : side)
    : result (Z * net_state) :=
  cn ← load_conn st conn;
  match proto cn, get_side cn s with
  | Some p, Some b =>
      let '(r, p', out) := proto_handshake p (bev_output b) in
      let cn := set_side (set_proto cn (Some p')) s (Some (set_bev_output b out)) in
      Ok (r, log (store_conn st conn cn) (CallProtoHandshake conn s))
  | _, _ => Undef
  end.

(** The [err:] label shared by the three listener callbacks. *)
Definition listener_err (st : net_state) (conn : conn_id) (fd : Z)
    : result net_state :=
  st ← conn_free st conn;
  Ok (if 0 <=? fd then log st (CallCloseSocket fd) else st).

(** [smartlist_add(connections, conn)], creating the list on first use. *)
Definition register_conn (st : net_state) (conn : conn_id) : net_state :=
  let sl := match connections st with Some sl => sl | None => [] end in
  set_connections st (Some (sl ++ [conn])).

(** The common tail of the two simple flows, from the handshake on:
    [hs] is the side whose write buffer receives the handshake. *)
Definition simple_connect (st : net_state) (env : os_env) (lsn : listener_t)
    (conn : conn_id) (hs : side) : result net_state :=
  '(r, st) ← handshake_into st conn hs;
  if r <? 0 then listener_err st conn (-1) else
  params ← (match proto_params lsn with Some p => Ok p | None => Undef end);
  target ← (match target_addr params with Some a => Ok a | None => Undef end);
  let st := log st (CallConnect conn (ai_addr target)) in
  if connect_r env <? 0 then listener_err st conn (-1) else
  st ← bufferevent_enable st (PBev conn Output) (Z.lor EV_READ EV_WRITE);
  Ok (register_conn st conn).

Definition simple_client_listener_cb (st : net_state) (env : os_env)
    (fd : Z) (lsn : listener_t) : result net_state :=
  let conn := xzalloc_conn st in
  params ← (match proto_params lsn with Some p => Ok p | None => Undef end);
  let cn := conn_zero (mode params) in
  _ ← obfs_assert (bool_decide (conn_mode cn = LSN_SIMPLE_CLIENT));
  let cn := set_proto cn (proto_create params) in
  match proto cn with
  | None => listener_err (store_conn st conn cn) conn fd
  | Some _ =>
      if negb (new_input_ok env) then listener_err (store_conn st conn cn) conn fd
      else
        let cn := set_input cn (Some (bufferevent_socket_new fd)) in
        let fd := -1 in
        if negb (new_output_ok env) then listener_err (store_conn st conn cn) conn fd
        else
          let cn := set_output cn (Some (bufferevent_socket_new (-1))) in
          let st := store_conn st conn cn in
          st ← bufferevent_setcb st (PBev conn Input)
                 (Some CB_upstream_read) None (Some CB_input_event) (PConn conn);
          st ← bufferevent_setcb st (PBev conn Output)
                 (Some CB_downstream_read) None (Some CB_output_event) (PConn conn);
          simple_connect st env lsn conn Output
  end.

Definition socks_client_listener_cb (st : net_state) (env : os_env)
    (fd : Z) (lsn : listener_t) : result net_state :=
  let conn := xzalloc_conn st in
  params ← (match proto_params lsn with Some p => Ok p | None => Undef end);
  let cn := conn_zero (mode params) in
  _ ← obfs_assert (bool_decide (conn_mode cn = LSN_SOCKS_CLIENT));
  let cn := set_proto cn (proto_create params) in
  match proto cn with
  | None => listener_err (store_conn st conn cn) conn fd
  | Some _ =>
      let cn := set_socks_state cn (Some socks_state_new) in
      if negb (new_input_ok env) then listener_err (store_conn st conn cn) conn fd
      else
        let cn := set_input cn (Some (bufferevent_socket_new fd)) in
        let st := store_conn st conn cn in
        st ← bufferevent_setcb st (PBev conn Input)
               (Some CB_socks_read) None (Some CB_input_event) (PConn conn);
        st ← bufferevent_enable st (PBev conn Input) (Z.lor EV_READ EV_WRITE);
        Ok (register_conn st conn)
  end.

Definition simple_server_listener_cb (st : net_state) (env : os_env)
    (fd : Z) (lsn : listener_t) : result net_state :=
  let conn := xzalloc_conn st in
  params ← (match proto_params lsn with Some p => Ok p | None => Undef end);
  let cn := conn_zero (mode params) in
  _ ← obfs_assert (bool_decide (conn_mode cn = LSN_SIMPLE_SERVER));
  let cn := set_proto cn (proto_create params) in
  match proto cn with
  | None => listener_err (store_conn st conn cn) conn fd
  | Some _ =>
      if negb (new_input_ok env) then listener_err (store_conn st conn cn) conn fd
      else
        let cn := set_input cn (Some (bufferevent_socket_new fd)) in
        let fd := -1 in
        let st := store_conn st conn cn in
        st ← bufferevent_setcb st (PBev conn Input)
               (Some CB_downstream_read) None (Some CB_input_event) (PConn conn);
        if negb (new_output_ok env) then listener_err st conn fd
        else
          cn ← load_conn st conn;
          let st := store_conn st conn
                      (set_output cn (Some (bufferevent_socket_new (-1)))) in
          st ← bufferevent_setcb st (PBev conn Output)
                 (Some CB_upstream_read) None (Some CB_output_event) (PConn conn);
          simple_connect st env lsn conn Input
  end.

(** ** Forwarding *)

(** [proto_send(conn->proto, bufferevent_get_input(src),
    bufferevent_get_output(dst))]. *)
Definition send_through (st : net_state) (conn : conn_id) (src dst : ptr)
    : result (Z * net_state) :=
  cn ← load_conn st conn;
  p ← (match proto cn with Some p => Ok p | None => Undef end);
  inb ← bufferevent_get_input st src;
  outb ← bufferevent_get_output st dst;
  let '(r, p', inb', outb') := proto_send p inb outb in
  let st := store_conn st conn (set_proto cn (Some p')) in
  st ← update_bev st src (fun b => set_bev_input b inb');
  st ← update_bev st dst (fun b => set_bev_output b outb');
  Ok (r, st).

(** [proto_recv(conn->proto, bufferevent_get_input(src),
    bufferevent_get_output(dst))]. *)
Definition recv_through (st : net_state) (conn : conn_id) (src dst : ptr)
    : result (recv_ret * net_state) :=
  cn ← load_conn st conn;
  p ← (match proto cn with Some p => Ok p | None => Undef end);
  inb ← bufferevent_get_input st src;
  outb ← bufferevent_get_output st dst;
  let '(r, p', inb', outb') := proto_recv p inb outb in
  let st := store_conn st conn (set_proto cn (Some p')) in
  st ← update_bev st src (fun b => set_bev_input b inb');
  st ← update_bev st dst (fun b => set_bev_output b outb');
  Ok (r, st).

(** [other = (bev == conn->input) ? conn->output : conn->input]. *)
Definition other_side (st : net_state) (conn : conn_id) (bev : ptr) : result ptr :=
  cn ← load_conn st conn;
  Ok (if ptr_eqb bev (field_ptr conn cn Input)
      then field_ptr conn cn Output
      else field_ptr conn cn Input).

Definition upstream_read_cb (st : net_state) (bev : ptr) (arg : ptr)
    : result net_state :=
  conn ← as_conn arg;
  other ← other_side st conn bev;
  '(r, st) ← send_through st conn bev other;
  if r <? 0 then close_conn st conn else Ok st.

Definition downstream_read_cb (st : net_state) (bev : ptr) (arg : ptr)
    : result net_state :=
  conn ← as_conn arg;
  other ← other_side st conn bev;
  '(r, st) ← recv_through st conn bev other;
  match r with
  | RECV_BAD => close_conn st conn
  | RECV_SEND_PENDING =>
      cn ← load_conn st conn;
      '(_, st) ← send_through st conn (field_ptr conn cn Input)
                   (field_ptr conn cn Output);
      Ok st
  | RECV_OK => Ok st
  end.

(** ** Half-close *)

Definition error_or_eof (st : net_state) (conn : conn_id)
    (bev_err bev_flush : ptr) : result net_state :=
  cn ← load_conn st conn;
  if flushing cn || negb (is_open cn) then close_conn st conn else
  out ← bufferevent_get_output st bev_flush;
  if 0 =? evbuffer_get_length out then close_conn st conn else
  let st := store_conn st conn (set_flushing cn true) in
  st ← bufferevent_disable st bev_err (Z.lor EV_READ EV_WRITE);
  st ← bufferevent_disable st bev_flush EV_READ;
  st ← bufferevent_setcb st bev_flush
         None (Some CB_close_conn_on_flush) (Some CB_output_event) (PConn conn);
  bufferevent_enable st bev_flush EV_WRITE.

Definition error_events : Z :=
  Z.lor (Z.lor BEV_EVENT_EOF BEV_EVENT_ERROR) BEV_EVENT_TIMEOUT.

Definition input_event_cb (st : net_state) (bev : ptr) (what : Z) (arg : ptr)
    : result net_state :=
  conn ← as_conn arg;
  cn ← load_conn st conn;
  _ ← obfs_assert (ptr_eqb bev (field_ptr conn cn Input));
  _ ← obfs_assert (flag_set what error_events);
  _ ← obfs_assert (negb (flag_set what BEV_EVENT_CONNECTED));
  error_or_eof st conn bev (field_ptr conn cn Output).

Definition output_event_cb (st : net_state) (bev : ptr) (what : Z) (arg : ptr)
    : result net_state :=
  conn ← as_conn arg;
  cn ← load_conn st conn;
  _ ← obfs_assert (ptr_eqb bev (field_ptr conn cn Output));
  if flushing cn || flag_set what error_events then
    error_or_eof st conn bev (field_ptr conn cn Input)
  else if flag_set what BEV_EVENT_CONNECTED then
    let st := store_conn st conn (set_is_open cn true) in
    bufferevent_enable st (field_ptr conn cn Input) (Z.lor EV_READ EV_WRITE)
  else Abort.

(** ** SOCKS negotiation *)

(** [conn->socks_state], which the SOCKS functions dereference. *)
Definition load_socks (st : net_state) (conn : conn_id) : result socks_state_t :=
  cn ← load_conn st conn;
  match socks_state cn with
  | Some ss => Ok ss
  | None => Undef
  end.

Definition store_socks (st : net_state) (conn : conn_id)
    (ss : option socks_state_t) : result net_state :=
  cn ← load_conn st conn;
  Ok (store_conn st conn (set_socks_state cn ss)).

(** The attach-outbound substate of [socks_read_cb]: the body of the
    [status == ST_HAVE_ADDR] branch. *)
Definition socks_attach_outbound (st : net_state) (env : os_env)
    (conn : conn_id) : result net_state :=
  ss ← load_socks st conn;
  let '(r, (af, addr, port)) := socks_state_get_address ss in
  _ ← obfs_assert (r =? 0);
  cn ← load_conn st conn;
  let st := store_conn st conn
              (set_output cn (if new_output_ok env
                              then Some (bufferevent_socket_new (-1))
                              else None)) in
  cn ← load_conn st conn;
  st ← bufferevent_setcb st (field_ptr conn cn Output)
         (Some CB_downstream_read) None (Some CB_socks_event) (PConn conn);
  '(h, st) ← handshake_into st conn Output;
  if h <? 0 then close_conn st conn else
  let st := log st (CallConnectHostname conn af addr port) in
  let r := connect_r env in
  st ← bufferevent_enable st (PBev conn Output) (Z.lor EV_READ EV_WRITE);
  if r <? 0 then close_conn st conn else
  cn ← load_conn st conn;
  bufferevent_disable st (field_ptr conn cn Input) (Z.lor EV_READ EV_WRITE).

(** [handle_socks(bufferevent_get_input(bev), bufferevent_get_output(bev),
    conn->socks_state)]. *)
Definition handle_socks_on (st : net_state) (conn : conn_id) (bev : ptr)
    : result (socks_ret * net_state) :=
  inb ← bufferevent_get_input st bev;
  outb ← bufferevent_get_output st bev;
  ss ← load_socks st conn;
  let '(r, inb', outb', ss') := handle_socks inb outb ss in
  st ← update_bev st bev (fun b => set_bev_output (set_bev_input b inb') outb');
  st ← store_socks st conn (Some ss');
  Ok (r, st).

(** The [do ... while (socks_ret == SOCKS_GOOD)] loop.  [inl st] is a
    [return] from inside the loop, [inr (r, st)] is the loop left with
    [socks_ret = r]. *)
Fixpoint socks_read_loop (fuel : nat) (st : net_state) (env : os_env)
    (conn : conn_id) (bev : ptr) : result (net_state + socks_ret * net_state) :=
  match fuel with
  | O => Fuel
  | S fuel =>
      ss ← load_socks st conn;
      match socks_state_get_status ss with
      | ST_SENT_REPLY => Abort
      | ST_HAVE_ADDR => st ← socks_attach_outbound st env conn; Ok (inl st)
      | _ =>
          '(r, st) ← handle_socks_on st conn bev;
          match r with
          | SOCKS_GOOD => socks_read_loop fuel st env conn bev
          | _ => Ok (inr (r, st))
          end
      end
  end.

(** [socks5_send_reply(bufferevent_get_output(bev), conn->socks_state,
    code)]. *)
Definition socks5_send_reply_on (st : net_state) (conn : conn_id) (bev : ptr)
    (code : Z) : result net_state :=
  outb ← bufferevent_get_output st bev;
  ss ← load_socks st conn;
  let '(ss', outb') := socks5_send_reply outb ss code in
  st ← update_bev st bev (fun b => set_bev_output b outb');
  store_socks st conn (Some ss').

(** [socks_send_reply(conn->socks_state, bufferevent_get_output(bev),
    error)]. *)
Definition socks_send_reply_on (st : net_state) (conn : conn_id) (bev : ptr)
    (error : Z) : result net_state :=
  ss ← load_socks st conn;
  outb ← bufferevent_get_output st bev;
  let '(ss', outb') := socks_send_reply ss outb error in
  st ← update_bev st bev (fun b => set_bev_output b outb');
  store_socks st conn (Some ss').

Definition socks_read_cb (fuel : nat) (st : net_state) (env : os_env)
    (bev : ptr) (arg : ptr) : result net_state :=
  conn ← as_conn arg;
  cn ← load_conn st conn;
  _ ← obfs_assert (ptr_eqb bev (field_ptr conn cn Input));
  x ← socks_read_loop fuel st env conn bev;
  match x with
  | inl st => Ok st
  | inr (SOCKS_INCOMPLETE, st) => Ok st
  | inr (SOCKS_BROKEN, st) => close_conn st conn
  | inr (SOCKS_CMD_NOT_CONNECT, st) =>
      st ← bufferevent_enable st bev EV_WRITE;
      st ← bufferevent_disable st bev EV_READ;
      st ← socks5_send_reply_on st conn bev SOCKS5_FAILED_UNSUPPORTED;
      bufferevent_setcb st bev
        None (Some CB_close_conn_on_flush) (Some CB_output_event) (PConn conn)
  | inr (SOCKS_GOOD, st) => Ok st
  end.

(** [socks_event_cb].  On [BEV_EVENT_CONNECTED] the peer address is asked
    for with [slen = sizeof(&ss)], the size of a pointer. *)
Definition socks_event_cb (st : net_state) (env : os_env)
    (bev : ptr) (what : Z) (arg : ptr) : result net_state :=
  conn ← as_conn arg;
  cn ← load_conn st conn;
  _ ← obfs_assert (ptr_eqb bev (field_ptr conn cn Output));
  have_addr ← (if flag_set what BEV_EVENT_ERROR
               then ss ← load_socks st conn;
                    Ok (bool_decide (socks_state_get_status ss = ST_HAVE_ADDR))
               else Ok false);
  if have_addr : bool then
    st ← bufferevent_enable st (field_ptr conn cn Input) EV_WRITE;
    st ← bufferevent_disable st (field_ptr conn cn Input) EV_READ;
    _ ← load_bev st bev;
    st ← socks_send_reply_on st conn (field_ptr conn cn Input) (socket_error env);
    bufferevent_setcb st (field_ptr conn cn Input)
      None (Some CB_close_conn_on_flush) (Some CB_output_event) (PConn conn)
  else
    st ← (if flag_set what BEV_EVENT_CONNECTED then
            _ ← obfs_assert (bool_decide (is_Some (socks_state cn)));
            ss ← load_socks st conn;
            _ ← load_bev st bev;
            st ← store_socks st conn
                   (Some (match getpeername env (sizeof_pointer env) with
                          | Some sa => socks_state_set_address ss sa
                          | None => ss
                          end));
            st ← socks_send_reply_on st conn (field_ptr conn cn Input) 0;
            st ← store_socks st conn None;
            st ← bufferevent_setcb st (field_ptr conn cn Input)
                   (Some CB_upstream_read) None (Some CB_input_event) (PConn conn);
            st ← bufferevent_setcb st (field_ptr conn cn Output)
                   (Some CB_downstream_read) None (Some CB_output_event) (PConn conn);
            inb ← bufferevent_get_input st (field_ptr conn cn Input);
            if negb (evbuffer_get_length inb =? 0)
            then downstream_read_cb st bev (field_ptr conn cn Input)
            else Ok st
          else Ok st);
    output_event_cb st bev what arg.

(** ** The reactor *)

Definition run_data_cb (fuel : nat) (cb : bufferevent_data_cb)
    (st : net_state) (env : os_env) (bev arg : ptr) : result net_state :=
  match cb with
  | CB_upstream_read => upstream_read_cb st bev arg
  | CB_downstream_read => downstream_read_cb st bev arg
  | CB_socks_read => socks_read_cb fuel st env bev arg
  | CB_close_conn_on_flush => close_conn_on_flush st bev arg
  end.

Definition run_event_cb (cb : bufferevent_event_cb)
    (st : net_state) (env : os_env) (bev : ptr) (what : Z) (arg : ptr)
    : result net_state :=
  match cb with
  | CB_input_event => input_event_cb st bev what arg
  | CB_output_event => output_event_cb st bev what arg
  | CB_socks_event => socks_event_cb st env bev what arg
  end.

Definition run_listener_cb (cb : evconnlistener_cb)
    (st : net_state) (env : os_env) (fd : Z) (lsn : listener_t)
    : result net_state :=
  match cb with
  | CB_simple_client_listener => simple_client_listener_cb st env fd lsn
  | CB_simple_server_listener => simple_server_listener_cb st env fd lsn
  | CB_socks_client_listener => socks_client_listener_cb st env fd lsn
  end.

(** What libevent can hand to network.c: an accepted socket, bytes read
    from a socket, bytes written to one, or an event on one. *)
Inductive reactor_event :=
| Accepted (lsn : listener_t) (fd : Z)
| Readable (bev : ptr) (data : list Byte.byte)
| Written (bev : ptr) (n : nat)
| Happened (bev : ptr) (what : Z).

(** One turn of the event loop.  Bytes are taken from a socket only while
    [EV_READ] is enabled on its bufferevent, and written only while
    [EV_WRITE] is; the write callback runs when the output buffer has
    drained. *)
Definition dispatch (fuel : nat) (st : net_state) (env : os_env)
    (e : reactor_event) : result net_state :=
  match e with
  | Accepted lsn fd =>
      match listener lsn with
      | Some l => run_listener_cb (lev_cb l) st env fd lsn
      | None => Ok st
      end
  | Readable bev data =>
      b ← load_bev st bev;
      if read_enabled b then
        st ← update_bev st bev (fun b => set_bev_input b (bev_input b ++ data));
        match readcb b with
        | Some cb => run_data_cb fuel cb st env bev (cbarg b)
        | None => Ok st
        end
      else Ok st
  | Written bev n =>
      b ← load_bev st bev;
      if write_enabled b then
        st ← update_bev st bev (fun b => set_bev_output b (drop n (bev_output b)));
        match writecb b with
        | Some cb =>
            if evbuffer_get_length (drop n (bev_output b)) =? 0
            then run_data_cb fuel cb st env bev (cbarg b)
            else Ok st
        | None => Ok st
        end
      else Ok st
  | Happened bev what =>
      b ← load_bev st bev;
      match eventcb b with
      | Some cb => run_event_cb cb st env bev what (cbarg b)
      | None => Ok st
      end
  end.

Fixpoint run (fuel : nat) (st : net_state) (es : list (os_env * reactor_event))
    : result net_state :=
  match es with
  | [] => Ok st
  | (env, e) :: es => st ← dispatch fuel st env e; run fuel st es
  end.

(** ** Vocabulary for the statements below *)

(** What a [conn_t] holds besides its two bufferevents. *)
Definition conn_core (cn : conn_t) :=
  (conn_mode cn, proto cn, socks_state cn, is_open cn, flushing cn).

(** The module-level variables and the call log are the same in two
    stores. *)
Definition same_globals (st st' : net_state) : Prop :=
  listeners st' = listeners st /\ connections st' = connections st /\
  shutting_down st' = shutting_down st /\ calls st' = calls st.







(** The store a finished run leaves, for the concrete runs below. *)
Definition from_ok (r : result net_state) : net_state :=
  match r with
  | Ok st => st
  | _ => initial_state
  end.


(** Every connect call in a log of calls comes directly after a handshake
    of the same connection.  [prev] is the call before the first of [l]. *)
Fixpoint connects_follow_handshake (prev : option call) (l : list call) : bool :=
  match l with
  | [] => true
  | k :: l =>
      match k with
      | CallConnect c _ | CallConnectHostname c _ _ _ =>
          match prev with
          | Some (CallProtoHandshake c' _) => Nat.eqb c c'
          | _ => false
          end
      | _ => true
      end && connects_follow_handshake (Some k) l
  end.

(** What an acceptance flow leaves behind between [st] and [st']: every
    connect call it made directly follows a handshake; if the connection
    [conn] is still there afterwards it is as [queued] says; and no other
    connection was touched. *)
Definition flow_outcome (st st' : net_state) (conn : conn_id)
    (queued : conn_t -> Prop) : Prop :=
  (exists new,
     calls st' = calls st ++ new /\
     connects_follow_handshake None new = true) /\
  (forall cn, conns st' !! conn = Some cn -> queued cn) /\
  (forall c, c <> conn -> conns st' !! c = conns st !! c).

(** Whether reading is enabled on the input stream of a connection. *)
Definition input_read (cn : conn_t) : bool :=
  match input cn with
  | Some b => read_enabled b
  | None => false
  end.

(** No connection that is not open yet reads from its accepted socket.
    With [socks_too] clear the SOCKS connections are left out. *)
Definition closed_input_quiet (socks_too : bool) (st : net_state) : Prop :=
  forall c cn,
    conns st !! c = Some cn ->
    (socks_too = false -> conn_mode cn <> LSN_SOCKS_CLIENT) ->
    is_open cn = false -> input_read cn = false.

(** How one callback may change the connections.  Every connection of
    [st'] was there in [st], in the same mode; either [is_open] is as it
    was and reading on the input stream was not switched on, or the
    connection is [opened]: it is open now and reads its input. *)
Definition evolves (opened : option conn_id) (st st' : net_state) : Prop :=
  forall c cn',
    conns st' !! c = Some cn' ->
    exists cn,
      conns st !! c = Some cn /\ conn_mode cn' = conn_mode cn /\
      ((is_open cn' = is_open cn /\
        (input_read cn' = true -> input_read cn = true)) \/
       (opened = Some c /\ is_open cn' = true /\ input_read cn' = true)).

(** The connection an event on [bev] can open: the owner of an outbound
    stream that reports [BEV_EVENT_CONNECTED]. *)
Definition opened_by (bev : ptr) (what : Z) : option conn_id :=
  match bev with
  | PBev c Output => if flag_set what BEV_EVENT_CONNECTED then Some c else None
  | _ => None
  end.

Definition opened_in (e : reactor_event) : option conn_id :=
  match e with
  | Happened bev what => opened_by bev what
  | _ => None
  end.

(** The store in which the negotiation loop of [socks_read_cb] ends. *)
Definition loop_state (x : net_state + socks_ret * net_state) : net_state :=
  match x with
  | inl st => st
  | inr (_, st) => st
  end.

(** ** Vocabulary for the store as a whole *)

(** The calls [listener_free] makes for one listener. *)
Definition listener_frees (lsn : listener_t) : list call :=
  match listener lsn with
  | Some l => [CallListenerFree (lev_addr l)]
  | None => []
  end ++
  match proto_params lsn with
  | Some p => [CallParamsFree (params_id p)]
  | None => []
  end.

(** The parameter objects the registered listeners hold. *)
Definition owned_params (st : net_state) : list nat :=
  flat_map (fun lsn => match proto_params lsn with
                       | Some p => [params_id p]
                       | None => []
                       end)
           (default [] (listeners st)).

Definition is_params_free (p : nat) (k : call) : bool :=
  match k with
  | CallParamsFree q => Nat.eqb p q
  | _ => false
  end.

(** How often [proto_params_free] has been called on the object [p]. *)
Definition params_frees (p : nat) (st : net_state) : nat :=
  length (filter (fun k => is_params_free p k = true) (calls st)).

(** A sequence of [listener_new] calls, each with the outcome of its bind. *)
Definition listeners_run (st : net_state) (ps : list (bool * protocol_params_t))
    : net_state :=
  foldl (fun st bp => (listener_new st bp.1 bp.2).1) st ps.

Definition handed_over (p : nat) (ps : list (bool * protocol_params_t)) : nat :=
  length (filter (fun bp => params_id bp.2 = p) ps).

Definition registry (st : net_state) : list conn_id := default [] (connections st).

(** The registry and the allocated connections agree: every allocated
    [conn_t] is registered exactly once, nothing else is, and a registry
    without elements is NULL. *)
Definition registry_ok (st : net_state) : Prop :=
  connections st <> Some [] /\
  NoDup (registry st) /\
  forall c, c ∈ registry st <-> is_Some (conns st !! c).

(** What a callback may do to one connection: the mode is fixed, a SOCKS
    state that is gone stays gone, [is_open] and [flushing] are never
    cleared, [flushing] is only set on an open connection, a stream is
    never dropped, and a connection is only opened with its outbound
    stream in place. *)
Definition conn_ages (cn cn' : conn_t) : Prop :=
  conn_mode cn' = conn_mode cn /\
  (is_Some (socks_state cn') -> is_Some (socks_state cn)) /\
  (is_open cn = true -> is_open cn' = true) /\
  (flushing cn = true -> flushing cn' = true) /\
  (flushing cn' = true -> flushing cn = true \/ is_open cn' = true) /\
  (is_Some (input cn) -> is_Some (input cn')) /\
  (is_Some (output cn) -> is_Some (output cn')) /\
  (is_open cn' = true -> is_open cn = true \/ is_Some (output cn')).

(** What a callback that accepts nothing may do to the store. *)
Definition ages (st st' : net_state) : Prop :=
  (forall c cn', conns st' !! c = Some cn' ->
     exists cn, conns st !! c = Some cn /\ conn_ages cn cn') /\
  (registry_ok st -> registry_ok st').

(** A connection as the callbacks expect to find it. *)
Definition conn_ok (cn : conn_t) : Prop :=
  (is_Some (socks_state cn) -> conn_mode cn = LSN_SOCKS_CLIENT) /\
  (flushing cn = true -> is_open cn = true) /\
  is_Some (input cn) /\
  (conn_mode cn <> LSN_SOCKS_CLIENT -> is_Some (output cn)) /\
  (is_open cn = true -> is_Some (output cn)).

Definition store_ok (st : net_state) : Prop :=
  registry_ok st /\ forall c cn, conns st !! c = Some cn -> conn_ok cn.

Definition is_teardown (k : call) : bool :=
  match k with
  | CallConnFree _ | CallCloseSocket _ => true
  | _ => false
  end.

(** An accept that set a connection up: [conn] is new in the store and
    last in the registry, its input stream owns the accepted socket, it
    has a SOCKS state exactly in SOCKS mode and an outbound stream exactly
    in the other modes, and nothing was freed or closed. *)
Definition accepted (st st' : net_state) (conn : conn_id) (fd : Z) : Prop :=
  connections st' = Some (registry st ++ [conn]) /\
  exists cn bi new,
    conns st' = <[conn := cn]> (conns st) /\
    input cn = Some bi /\ bev_fd bi = fd /\
    is_open cn = false /\ flushing cn = false /\
    (is_Some (socks_state cn) <-> conn_mode cn = LSN_SOCKS_CLIENT) /\
    (is_Some (output cn) <-> conn_mode cn <> LSN_SOCKS_CLIENT) /\
    calls st' = calls st ++ new /\
    Forall (fun k => is_teardown k = false) new.

(** An accept that gave up: registry and connections are as they were, the
    record was freed, and the accepted socket was closed by hand exactly
    when it is a socket and no bufferevent had taken it over. *)
Definition turned_away (st st' : net_state) (conn : conn_id) (fd : Z)
    (fd_owned : Prop) : Prop :=
  connections st' = connections st /\ conns st' = conns st /\
  exists new,
    calls st' = calls st ++ new /\
    CallConnFree conn ∈ new /\
    (CallCloseSocket fd ∈ new <-> 0 <= fd /\ ~ fd_owned).

(** The accepted socket is in the hands of a bufferevent: the protocol
    object and the input bufferevent were both created. *)
Definition takes_socket (lsn : listener_t) (env : os_env) : Prop :=
  exists params p0,
    proto_params lsn = Some params /\ proto_create params = Some p0 /\
    new_input_ok env = true.

(** The ways into network.c: a turn of the event loop, and the three
    functions the hosting program calls. *)
Inductive turn :=
| Reactor (env : os_env) (e : reactor_event)
| Shutdown (barbaric : Z)
| Listen (bind_ok : bool) (params : protocol_params_t)
| StopListening.

Definition take_turn (fuel : nat) (st : net_state) (t : turn) : result net_state :=
  match t with
  | Reactor env e => dispatch fuel st env e
  | Shutdown barbaric => start_shutdown st barbaric
  | Listen bind_ok params => Ok (listener_new st bind_ok params).1
  | StopListening => Ok (free_all_listeners st)
  end.

Fixpoint turns (fuel : nat) (st : net_state) (ts : list turn) : result net_state :=
  match ts with
  | [] => Ok st
  | t :: ts => st ← take_turn fuel st t; turns fuel st ts
  end.

(** The callbacks of a bufferevent, as [bufferevent_setcb] sets them. *)
Definition callbacks (b : bufferevent) :=
  (readcb b, writecb b, eventcb b, cbarg b).

(** The SOCKS state the reply is made from.  When [getpeername]
    succeeds, [socks_state_set_address] is given [ss] as the call left
    it: [slen] is [sizeof(&ss)], the size of a pointer, so only that many
    bytes of the peer address are there, and what follows them is what
    the local held before. *)
Definition socks_with_peer (env : os_env) (ss : socks_state_t) : socks_state_t :=
  match getpeername env (sizeof_pointer env) with
  | Some sa => socks_state_set_address ss sa
  | None => ss
  end.

Definition opposite (s : side) : side :=
  match s with Input => Output | Output => Input end.

(** [registry_ok] as a check that runs on a concrete store. *)
Definition registry_okb (st : net_state) : bool :=
  bool_decide (connections st <> Some []) &&
  bool_decide (NoDup (registry st)) &&
  bool_decide (dom (conns st) = list_to_set (registry st)).


End Network.

(** ** Sample collaborators

    A protocol and a SOCKS parser small enough to run, for the concrete
    runs below. *)

(** A protocol whose handshake queues [hs], whose [send] and [recv] move
    all pending input across and answer [send_r] and [recv_r]. *)
Definition script_protocol (hs : list Byte.byte) (send_r : Z) (recv_r : recv_ret)
    : Protocol :=
  {| protocol_t := unit;
     proto_create := fun _ => Some tt;
     proto_handshake := fun p out => (0, p, out ++ hs);
     proto_send := fun p i o => (send_r, p, [], o ++ i);
     proto_recv := fun p i o => (recv_r, p, [], o ++ i) |}.

(** A one-byte SOCKS parser: byte 1 is CONNECT, byte 2 is BIND, anything
    else is malformed.  A reply is one byte, 0 for success. *)
Definition toy_handle_socks (i o : evbuffer) (s : socks_status_t)
    : socks_ret * evbuffer * evbuffer * socks_status_t :=
  match i with
  | [] => (SOCKS_INCOMPLETE, i, o, s)
  | Byte.x01 :: rest => (SOCKS_GOOD, rest, o, ST_HAVE_ADDR)
  | Byte.x02 :: rest => (SOCKS_CMD_NOT_CONNECT, rest, o, s)
  | _ :: rest => (SOCKS_BROKEN, rest, o, s)
  end.

Definition toy_socks : Socks :=
  {| socks_state_t := socks_status_t;
     socks_state_new := ST_INIT;
     socks_state_get_status := fun s => s;
     handle_socks := toy_handle_socks;
     socks_state_get_address := fun _ => (0, (2, [Byte.x7f], 80));
     socks_state_set_address := fun s _ => s;
     socks_send_reply := fun s o e =>
       (ST_SENT_REPLY, o ++ [if e =? 0 then Byte.x00 else Byte.x01]);
     socks5_send_reply := fun o s code =>
       (s, o ++ [if code =? 7 then Byte.x07 else Byte.x01]) |}.

Definition sample_addr : evutil_addrinfo :=
  {| ai_addr := [Byte.x7f; Byte.x00; Byte.x00; Byte.x01]; ai_addrlen := 4 |}.

Definition sample_params (m : listen_mode) : protocol_params_t :=
  {| params_id := 0%nat; mode := m; listen_addr := sample_addr;
     target_addr := match m with
                    | LSN_SOCKS_CLIENT => None
                    | _ => Some sample_addr
                    end |}.

Definition sample_listener (m : listen_mode) : listener_t :=
  {| listener := Some {| lev_cb := listener_callback m; lev_flags := 14;
                         lev_addr := ai_addr sample_addr |};
     proto_params := Some (sample_params m) |}.

(** The operating system on a good day: every allocation and connect
    succeeds. *)
Definition fair_weather : os_env :=
  {| new_input_ok := true; new_output_ok := true; connect_r := 0;
     socket_error := 111; peername := Some (ai_addr sample_addr);
     sizeof_pointer := 8; ss_uninit := repeat Byte.xaa 128 |}.

Definition sample_protocol : Protocol := script_protocol [Byte.x16] 0 RECV_OK.

(** A simple-client connection, accepted and connected: the handshake byte
    is still pending in the output evbuffer of the outbound side. *)
Definition sample_client_open : @net_state sample_protocol toy_socks :=
  from_ok (run 1 initial_state
    [(fair_weather, Accepted (sample_listener LSN_SIMPLE_CLIENT) 5);
     (fair_weather, Happened (PBev 0%nat Output) BEV_EVENT_CONNECTED)]).

Arguments finish_shutdown_calls : simpl never.

(** The first connection of a store and its bufferevents. *)
Definition sample_conn `{P : Protocol} `{K : Socks} (st : net_state) : conn_t :=
  default (conn_zero LSN_SIMPLE_CLIENT) (conns st !! 0%nat).

Definition sample_bev `{P : Protocol} `{K : Socks} (st : net_state) (s : side)
    : bufferevent :=
  default (bufferevent_socket_new 0) (get_side (sample_conn st) s).

(** The same connection after the target sent two bytes: the protocol has
    queued them for the client, in the output evbuffer of the input side. *)
Definition sample_client_busy : @net_state sample_protocol toy_socks :=
  from_ok (run 1 sample_client_open
    [(fair_weather, Readable (PBev 0%nat Output) [Byte.x68; Byte.x69])]).

(** A SOCKS connection whose client has sent CONNECT: the outbound
    bufferevent is attached and connecting. *)
Definition sample_socks_connecting : @net_state sample_protocol toy_socks :=
  from_ok (run 2 initial_state
    [(fair_weather, Accepted (sample_listener LSN_SOCKS_CLIENT) 5);
     (fair_weather, Readable (PBev 0%nat Input) [Byte.x01])]).



(** A protocol whose [recv] asks for a send and whose [send] fails, and a
    simple-client connection under it with one byte arrived from the
    target. *)
Definition pending_protocol : Protocol :=
  script_protocol [Byte.x16] (-1) RECV_SEND_PENDING.

Definition sample_pending : @net_state pending_protocol toy_socks :=
  from_ok (
    st ← run 1 initial_state
           [(fair_weather, Accepted (sample_listener LSN_SIMPLE_CLIENT) 5);
            (fair_weather, Happened (PBev 0%nat Output) BEV_EVENT_CONNECTED)];
    update_bev st (PBev 0%nat Output) (fun b => set_bev_input b [Byte.x68])).

Definition sample_pending_received : @net_state pending_protocol toy_socks :=
  match recv_through sample_pending 0%nat (PBev 0%nat Output) (PBev 0%nat Input) with
  | Ok (_, st) => st
  | _ => initial_state
  end.

Definition sample_pending_sent : @net_state pending_protocol toy_socks :=
  match send_through sample_pending_received 0%nat
          (PBev 0%nat Input) (PBev 0%nat Output) with
  | Ok (_, st) => st
  | _ => initial_state
  end.

(** A simple-server connection, just accepted. *)
Definition sample_server_accepted : @net_state sample_protocol toy_socks :=
  from_ok (simple_server_listener_cb initial_state fair_weather 5
             (sample_listener LSN_SIMPLE_SERVER)).

(** A SOCKS connection whose client has sent CONNECT with one byte
    pipelined behind it: the byte waits in the input evbuffer while the
    outbound stream connects. *)
Definition sample_socks_pipelined : @net_state sample_protocol toy_socks :=
  from_ok (run 2 initial_state
    [(fair_weather, Accepted (sample_listener LSN_SOCKS_CLIENT) 5);
     (fair_weather, Readable (PBev 0%nat Input) [Byte.x01; Byte.x47])]).

(** Connections just accepted, before anything else happened. *)
Definition sample_client_accepted : @net_state sample_protocol toy_socks :=
  from_ok (run 1 initial_state
    [(fair_weather, Accepted (sample_listener LSN_SIMPLE_CLIENT) 5)]).

Definition sample_socks_accepted : @net_state sample_protocol toy_socks :=
  from_ok (run 1 initial_state
    [(fair_weather, Accepted (sample_listener LSN_SOCKS_CLIENT) 5)]).

(** A client is accepted and connected, a second one is accepted, and a
    graceful shutdown is asked for. *)
Definition sample_turns : list turn :=
  [Listen true (sample_params LSN_SIMPLE_CLIENT);
   Reactor fair_weather (Accepted (sample_listener LSN_SIMPLE_CLIENT) 5);
   Reactor fair_weather (Happened (PBev 0%nat Output) BEV_EVENT_CONNECTED);
   Reactor fair_weather (Accepted (sample_listener LSN_SOCKS_CLIENT) 6);
   Shutdown 0;
   StopListening].

Definition sample_two_conns : @net_state sample_protocol toy_socks :=
  from_ok (turns 1 initial_state sample_turns).

(** The operating system refusing the outbound bufferevent. *)
Definition no_outbound : os_env :=
  {| new_input_ok := true; new_output_ok := false; connect_r := 0;
     socket_error := 111; peername := None;
     sizeof_pointer := 8; ss_uninit := repeat Byte.xaa 128 |}.

Definition sample_turned_away : @net_state sample_protocol toy_socks :=
  from_ok (run_listener_cb CB_simple_client_listener sample_client_open no_outbound 9
             (sample_listener LSN_SIMPLE_CLIENT)).

(** ** Flags *)

Lemma flag_set_pow2 (x k : Z) : 0 <= k -> flag_set x (2 ^ k) = Z.testbit x k.
Proof.
  intros Hk. unfold flag_set.
  destruct (Z.testbit x k) eqn:Hb.
  - apply negb_true_iff, Z.eqb_neq. intros H0.
    assert (Z.testbit (Z.land x (2 ^ k)) k = true) as Hx.
    { rewrite Z.land_spec, Hb, Z.pow2_bits_true; auto. }
    rewrite H0, Z.bits_0 in Hx. discriminate.
  - apply negb_false_iff, Z.eqb_eq. apply Z.bits_inj'. intros n Hn.
    rewrite Z.land_spec, Z.bits_0.
    destruct (Z.eq_dec n k) as [->|Hne].
    + rewrite Hb. reflexivity.
    + rewrite Z.pow2_bits_false by lia. apply andb_false_r.
Qed.

Lemma read_flag (x : Z) : flag_set x EV_READ = Z.testbit x 1.
Proof. apply (flag_set_pow2 x 1). lia. Qed.

Lemma write_flag (x : Z) : flag_set x EV_WRITE = Z.testbit x 2.
Proof. apply (flag_set_pow2 x 2). lia. Qed.

Ltac flags :=
  unfold read_enabled, write_enabled; cbn [enabled set_enabled set_callbacks
    set_bev_input set_bev_output];
  rewrite ?read_flag, ?write_flag;
  repeat first [ rewrite Z.lor_spec | rewrite Z.land_spec
               | rewrite Z.lnot_spec by lia ];
  cbn [EV_READ EV_WRITE Z.lor Pos.lor Z.testbit Pos.testbit Z.lnot
       Z.pred_double Z.succ_double Z.pred Z.add Z.opp Pos.pred_double];
  rewrite ?andb_false_r, ?andb_true_r, ?orb_false_r, ?orb_true_r;
  try reflexivity.

Lemma disable_both_read (e : Z) :
  flag_set (Z.land e (Z.lnot (Z.lor EV_READ EV_WRITE))) EV_READ = false.
Proof. flags. Qed.

Lemma disable_both_write (e : Z) :
  flag_set (Z.land e (Z.lnot (Z.lor EV_READ EV_WRITE))) EV_WRITE = false.
Proof. flags. Qed.

Lemma disable_read_read (e : Z) :
  flag_set (Z.land e (Z.lnot EV_READ)) EV_READ = false.
Proof. flags. Qed.

Lemma disable_read_write (e : Z) :
  flag_set (Z.land e (Z.lnot EV_READ)) EV_WRITE = flag_set e EV_WRITE.
Proof. flags. Qed.

Lemma enable_write_write (e : Z) : flag_set (Z.lor e EV_WRITE) EV_WRITE = true.
Proof. flags. Qed.

Lemma enable_write_read (e : Z) :
  flag_set (Z.lor e EV_WRITE) EV_READ = flag_set e EV_READ.
Proof. flags. Qed.

Lemma enable_both_read (e : Z) :
  flag_set (Z.lor e (Z.lor EV_READ EV_WRITE)) EV_READ = true.
Proof. flags. Qed.

Lemma enable_both_write (e : Z) :
  flag_set (Z.lor e (Z.lor EV_READ EV_WRITE)) EV_WRITE = true.
Proof. flags. Qed.

(** ** Reading and writing through pointers *)

(** One step of a callback: the bind of a returned value, and the
    boolean connectives of a C condition. *)
Ltac rstep := cbn [mbind result_bind orb negb andb].

Section Facts.

Context `{P : Protocol} `{K : Socks}.

Lemma same_globals_refl (st : net_state) : same_globals st st.
Proof. by repeat split. Qed.

Lemma same_globals_trans (st1 st2 st3 : net_state) :
  same_globals st1 st2 -> same_globals st2 st3 -> same_globals st1 st3.
Proof.
  intros (? & ? & ? & ?) (? & ? & ? & ?). repeat split; congruence.
Qed.

Lemma load_conn_Ok (st : net_state) (c : conn_id) (cn : conn_t) :
  load_conn st c = Ok cn <-> conns st !! c = Some cn.
Proof.
  unfold load_conn. destruct (conns st !! c); split; intros H; congruence.
Qed.

Lemma load_bev_inv (st : net_state) (p : ptr) (b : bufferevent) :
  load_bev st p = Ok b ->
  exists c s cn, p = PBev c s /\ conns st !! c = Some cn /\ get_side cn s = Some b.
Proof.
  destruct p as [| |c s]; cbn; try discriminate.
  unfold load_conn. destruct (conns st !! c) as [cn|] eqn:E; cbn; try discriminate.
  destruct (get_side cn s) eqn:E2; intros [= <-]. eauto 6.
Qed.

Lemma load_bev_PBev (st : net_state) (c : conn_id) (s : side) (cn : conn_t) :
  conns st !! c = Some cn ->
  load_bev st (PBev c s) = match get_side cn s with Some b => Ok b | None => Undef end.
Proof. intros E. cbn. unfold load_conn. rewrite E. reflexivity. Qed.

Lemma get_set_side (cn : conn_t) (s s' : side) (b : option bufferevent) :
  get_side (set_side cn s b) s' = if decide (s = s') then b else get_side cn s'.
Proof. destruct s, s'; reflexivity. Qed.

Lemma core_set_side (cn : conn_t) (s : side) (b : option bufferevent) :
  conn_core (set_side cn s b) = conn_core cn.
Proof. destruct s; reflexivity. Qed.

(** Writing through a valid bufferevent pointer changes that bufferevent
    and nothing else. *)
Lemma update_bev_spec (st : net_state) (p : ptr) (f : bufferevent -> bufferevent)
    (b : bufferevent) :
  load_bev st p = Ok b ->
  exists st', update_bev st p f = Ok st' /\
    load_bev st' p = Ok (f b) /\
    (forall q, q <> p -> load_bev st' q = load_bev st q) /\
    (forall c, conn_core <$> conns st' !! c = conn_core <$> conns st !! c) /\
    same_globals st st'.
Proof.
  intros (c & s & cn & -> & Hc & Hs)%load_bev_inv.
  eexists. split.
  { cbn. unfold load_conn. rewrite Hc. cbn. rewrite Hs. reflexivity. }
  split; [|split; [|split]].
  - erewrite load_bev_PBev by apply lookup_insert_eq.
    rewrite get_set_side. by rewrite decide_True.
  - intros [| |c' s'] Hq; try reflexivity.
    cbn. unfold load_conn. cbn.
    destruct (decide (c = c')) as [<-|Hne].
    + rewrite lookup_insert_eq, Hc. cbn. rewrite get_set_side.
      rewrite decide_False; [done | congruence].
    + by rewrite lookup_insert_ne.
  - intros c'. cbn. destruct (decide (c = c')) as [<-|Hne].
    + rewrite lookup_insert_eq, Hc. cbn. by rewrite core_set_side.
    + by rewrite lookup_insert_ne.
  - by repeat split.
Qed.

Lemma update_bev_Ok_inv (st st' : net_state) (p : ptr)
    (f : bufferevent -> bufferevent) :
  update_bev st p f = Ok st' -> exists b, load_bev st p = Ok b.
Proof.
  destruct p as [| |c s]; cbn; try discriminate.
  destruct (load_conn st c) as [cn| | |]; cbn; try discriminate.
  destruct (get_side cn s); [eauto | discriminate].
Qed.

(** Writing a [conn_t] back with only its flags changed leaves every
    bufferevent as it was. *)
Lemma load_bev_store_flags (st : net_state) (c : conn_id) (cn cn' : conn_t)
    (q : ptr) :
  conns st !! c = Some cn ->
  input cn' = input cn -> output cn' = output cn ->
  load_bev (store_conn st c cn') q = load_bev st q.
Proof.
  intros Hc Hi Ho. destruct q as [| |c' s']; try reflexivity.
  cbn. unfold load_conn. cbn.
  destruct (decide (c = c')) as [<-|Hne].
  - rewrite lookup_insert_eq, Hc. cbn. destruct s'; cbn; by rewrite ?Hi, ?Ho.
  - by rewrite lookup_insert_ne.
Qed.

Lemma evbuffer_length_0 (b : evbuffer) : (evbuffer_get_length b =? 0) = bool_decide (b = []).
Proof.
  unfold evbuffer_get_length. destruct b; [done|].
  rewrite bool_decide_eq_false_2 by done. apply Z.eqb_neq. cbn [length]. lia.
Qed.


(** ** The half-close primitive *)

(** Entering the flushing state: what [error_or_eof] leaves behind when
    it does not close. *)
Lemma error_or_eof_enters_flushing (st : net_state) (conn : conn_id)
    (cn : conn_t) (bev_err bev_flush : ptr) (be bf : bufferevent) :
  conns st !! conn = Some cn ->
  flushing cn = false -> is_open cn = true ->
  load_bev st bev_err = Ok be -> load_bev st bev_flush = Ok bf ->
  bev_output bf <> [] -> bev_err <> bev_flush ->
  exists st' cn' be' bf',
    error_or_eof st conn bev_err bev_flush = Ok st' /\
    conns st' !! conn = Some cn' /\ flushing cn' = true /\
    load_bev st' bev_err = Ok be' /\
    read_enabled be' = false /\ write_enabled be' = false /\
    load_bev st' bev_flush = Ok bf' /\
    read_enabled bf' = false /\ write_enabled bf' = true /\
    writecb bf' = Some CB_close_conn_on_flush /\ cbarg bf' = PConn conn /\
    eventcb bf' = Some CB_output_event /\
    bev_output bf' = bev_output bf /\
    same_globals st st'.
Proof.
  intros Hc Hfl Hop Hbe Hbf Hne Hdist.
  set (st0 := store_conn st conn (set_flushing cn true)).
  assert (forall q, load_bev st0 q = load_bev st q) as H0.
  { intros q. by apply load_bev_store_flags with cn. }
  assert (conn_core <$> conns st0 !! conn = Some (conn_core (set_flushing cn true)))
    as Hcore0.
  { subst st0. cbn. by rewrite lookup_insert_eq. }
  assert (same_globals st st0) as Hg0 by by repeat split.
  destruct (update_bev_spec st0 bev_err
              (fun b => set_enabled b (Z.land (enabled b) (Z.lnot (Z.lor EV_READ EV_WRITE))))
              be) as (st1 & Hup1 & He1 & Ho1 & Hcore1 & Hg1); [by rewrite H0|].
  destruct (update_bev_spec st1 bev_flush
              (fun b => set_enabled b (Z.land (enabled b) (Z.lnot EV_READ)))
              bf) as (st2 & Hup2 & Hf2 & Ho2 & Hcore2 & Hg2).
  { rewrite Ho1 by done. by rewrite H0. }
  destruct (update_bev_spec st2 bev_flush
              (fun b => set_callbacks b None (Some CB_close_conn_on_flush)
                          (Some CB_output_event) (PConn conn))
              _ Hf2) as (st3 & Hup3 & Hf3 & Ho3 & Hcore3 & Hg3).
  destruct (update_bev_spec st3 bev_flush
              (fun b => set_enabled b (Z.lor (enabled b) EV_WRITE))
              _ Hf3) as (st4 & Hup4 & Hf4 & Ho4 & Hcore4 & Hg4).
  assert (error_or_eof st conn bev_err bev_flush = Ok st4) as Hrun.
  { unfold error_or_eof, load_conn. rewrite Hc. rstep. rewrite Hfl, Hop. rstep.
    unfold bufferevent_get_output. rewrite Hbf. cbn [mbind result_bind].
    rewrite Z.eqb_sym, evbuffer_length_0, bool_decide_eq_false_2 by done.
    unfold bufferevent_disable, bufferevent_setcb, bufferevent_enable.
    fold st0. rewrite Hup1. cbn [mbind result_bind]. rewrite Hup2.
    cbn [mbind result_bind]. rewrite Hup3. cbn [mbind result_bind]. exact Hup4. }
  assert (conn_core <$> conns st4 !! conn = Some (conn_core (set_flushing cn true)))
    as Hcore.
  { by rewrite Hcore4, Hcore3, Hcore2, Hcore1. }
  destruct (conns st4 !! conn) as [cn4|] eqn:Hc4; [|done].
  cbn in Hcore. injection Hcore as _ _ _ _ Hfl4.
  exists st4, cn4. eexists _, _. split; [done|]. split; [done|].
  split; [done|].
  split. { rewrite Ho4, Ho3, Ho2 by done. exact He1. }
  split; [apply disable_both_read|]. split; [apply disable_both_write|].
  split; [exact Hf4|].
  split. { unfold read_enabled. cbn. rewrite enable_write_read. apply disable_read_read. }
  split. { unfold write_enabled. cbn. apply enable_write_write. }
  split; [done|]. split; [done|]. split; [done|]. split; [done|].
  eauto using same_globals_trans.
Qed.


(** ** Shutdown *)

Lemma finish_calls_log (st : net_state) (k : call) :
  finish_shutdown_calls (log st k) =
  (finish_shutdown_calls st + if is_finish_shutdown k then 1 else 0)%nat.
Proof.
  unfold finish_shutdown_calls. cbn. rewrite filter_app, length_app.
  f_equal. destruct k; reflexivity.
Qed.

Lemma finish_calls_same (st st' : net_state) :
  calls st = calls st' -> finish_shutdown_calls st = finish_shutdown_calls st'.
Proof. unfold finish_shutdown_calls. by intros ->. Qed.

Lemma conn_free_globals (st st' : net_state) (c : conn_id) :
  conn_free st c = Ok st' ->
  connections st' = connections st /\ shutting_down st' = shutting_down st /\
  finish_shutdown_calls st' = finish_shutdown_calls st.
Proof.
  unfold conn_free. destruct (load_conn st c); try discriminate.
  intros [= <-]. rewrite finish_calls_log. cbn. repeat split.
  rewrite Nat.add_0_r. by apply finish_calls_same.
Qed.

Lemma free_each_globals (sl : list conn_id) (st st' : net_state) :
  free_each st sl = Ok st' ->
  connections st' = connections st /\ shutting_down st' = shutting_down st /\
  finish_shutdown_calls st' = finish_shutdown_calls st.
Proof.
  revert st. induction sl as [|c sl IH]; intros st; cbn.
  - by intros [= <-].
  - destruct (conn_free st c) as [st1| | |] eqn:E; try discriminate. cbn.
    intros H. apply IH in H. apply conn_free_globals in E.
    destruct H as (-> & -> & ->). done.
Qed.

Lemma smartlist_len_0 (sl : list conn_id) :
  (smartlist_len sl =? 0) = bool_decide (sl = []).
Proof.
  unfold smartlist_len. destruct sl; [done|].
  rewrite bool_decide_eq_false_2 by done. apply Z.eqb_neq. cbn [length]. lia.
Qed.

(** What [close_conn] does to the registry, the flag and the count. *)
Lemma close_conn_globals (st st' : net_state) (c : conn_id) :
  close_conn st c = Ok st' ->
  exists sl, connections st = Some sl /\
    shutting_down st' = shutting_down st /\
    ((smartlist_remove sl c = [] /\ connections st' = None /\
      finish_shutdown_calls st' =
        (finish_shutdown_calls st + if shutting_down st then 1 else 0)%nat) \/
     (smartlist_remove sl c <> [] /\
      connections st' = Some (smartlist_remove sl c) /\
      finish_shutdown_calls st' = finish_shutdown_calls st)).
Proof.
  unfold close_conn. destruct (connections st) as [sl|] eqn:Hsl; [|discriminate].
  destruct (conn_free _ c) as [st1| | |] eqn:E; try discriminate.
  apply conn_free_globals in E. destruct E as (Hc1 & Hs1 & Hn1).
  cbn in Hc1, Hs1.
  rewrite (finish_calls_same (set_connections st _) st) in Hn1 by done.
  rstep. rewrite smartlist_len_0. intros [= <-]. exists sl. split; [done|].
  case_bool_decide as Hnil.
  - cbn. rewrite Hs1. destruct (shutting_down st) eqn:Hsd.
    + split; [done|]. left. unfold finish_shutdown.
      rewrite finish_calls_log.
      rewrite (finish_calls_same (set_connections st1 None) st1) by done.
      by rewrite Hn1.
    + split; [done|]. left. split; [done|]. split; [done|].
      rewrite (finish_calls_same (set_connections st1 None) st1) by done. lia.
  - rewrite Hc1. split; [done|]. right. rewrite Hn1. done.
Qed.





(** ** Listeners *)

(** C5. [listener_new] has two outcomes.  When the bind succeeds it
    returns a listener that holds [params] and has been appended to the
    process-wide listener list, and [params] is not freed.  When the bind
    fails it returns NULL, [params] is freed, and the listener list is the
    one it was, not even created.  Either way the connection registry and
    the shutdown flag are untouched. *)
Theorem listener_new_all_or_nothing (st : net_state) (bind_ok : bool)
    (params : protocol_params_t) :
  let st' := (listener_new st bind_ok params).1 in
  let r := (listener_new st bind_ok params).2 in
  connections st' = connections st /\ shutting_down st' = shutting_down st /\
  conns st' = conns st /\
  ((bind_ok = true /\
    exists lsn l,
      r = Some lsn /\ proto_params lsn = Some params /\
      listener lsn = Some l /\ lev_cb l = listener_callback (mode params) /\
      listeners st' = Some (default [] (listeners st) ++ [lsn]) /\
      lsn ∈ default [] (listeners st') /\
      calls st' = calls st) \/
   (bind_ok = false /\
    r = None /\ listeners st' = listeners st /\
    calls st' = calls st ++ [CallParamsFree (params_id params)])).
Proof.
  unfold listener_new. destruct bind_ok; cbn.
  - repeat split. left. split; [done|]. eexists _, _.
    do 4 (split; [reflexivity|]). split; [|split; [|done]].
    + by destruct (listeners st).
    + apply list_elem_of_In, in_or_app. right. by left.
  - repeat split. right. done.
Qed.

(** C9. Whenever [error_or_eof] enters the flushing state it installs
    [output_event_cb] as the event callback of the flush side, whichever
    stream that is.  When the flush side is the connection's input stream,
    every later event on that stream is handed to [output_event_cb], whose
    assertion [bev == conn->output] fails: the process aborts. *)
Theorem flushing_input_event_aborts (st : net_state) (conn : conn_id)
    (cn : conn_t) (bev_err bev_flush : ptr) (be bf : bufferevent) :
  conns st !! conn = Some cn ->
  flushing cn = false -> is_open cn = true ->
  load_bev st bev_err = Ok be -> load_bev st bev_flush = Ok bf ->
  bev_output bf <> [] -> bev_err <> bev_flush ->
  exists st' bf',
    error_or_eof st conn bev_err bev_flush = Ok st' /\
    load_bev st' bev_flush = Ok bf' /\
    eventcb bf' = Some CB_output_event /\ cbarg bf' = PConn conn /\
    (bev_flush = PBev conn Input ->
     forall fuel env what,
       dispatch fuel st' env (Happened bev_flush what) = Abort).
Proof.
  intros Hc Hfl Hop Hbe Hbf Hne Hdist.
  destruct (error_or_eof_enters_flushing st conn cn bev_err bev_flush be bf)
    as (st' & cn' & be' & bf' & Hrun & Hc' & Hfl' & He' & Her & Hew & Hf'
        & Hfr & Hfw & Hwcb & Harg & Hecb & Hout & Hg); try done.
  exists st', bf'. do 4 (split; [done|]).
  intros -> fuel env what. cbn [dispatch]. rewrite Hf'. rstep.
  rewrite Hecb, Harg. cbn [run_event_cb]. unfold output_event_cb.
  cbn [as_conn]. rstep. unfold load_conn. rewrite Hc'. rstep.
  unfold field_ptr, ptr_eqb. cbn [get_side].
  destruct (output cn'); by rewrite bool_decide_eq_false_2.
Qed.

(** ** One connection at a time: records stored and read back *)

Lemma update_bev_store (st : net_state) (c : conn_id) (cn : conn_t) (s : side)
    (b : bufferevent) (f : bufferevent -> bufferevent) :
  conns st !! c = Some cn -> get_side cn s = Some b ->
  update_bev st (PBev c s) f = Ok (store_conn st c (set_side cn s (Some (f b)))).
Proof. intros Hc Hs. cbn. unfold load_conn. rewrite Hc. cbn. by rewrite Hs. Qed.

Lemma conns_store (st : net_state) (c : conn_id) (cn : conn_t) :
  conns (store_conn st c cn) !! c = Some cn.
Proof. apply lookup_insert_eq. Qed.

Lemma load_conn_store (st : net_state) (c : conn_id) (cn : conn_t) :
  load_conn (store_conn st c cn) c = Ok cn.
Proof. unfold load_conn. by rewrite conns_store. Qed.

Lemma load_bev_store (st : net_state) (c : conn_id) (cn : conn_t) (s : side)
    (b : bufferevent) :
  get_side cn s = Some b -> load_bev (store_conn st c cn) (PBev c s) = Ok b.
Proof. intros Hs. cbn [load_bev]. rewrite load_conn_store. rstep. by rewrite Hs. Qed.

Lemma load_socks_Some (st : net_state) (c : conn_id) (cn : conn_t)
    (ss : socks_state_t) :
  conns st !! c = Some cn -> socks_state cn = Some ss -> load_socks st c = Ok ss.
Proof. intros Hc Hs. unfold load_socks, load_conn. rewrite Hc. rstep. by rewrite Hs. Qed.

Lemma load_conn_Some (st : net_state) (c : conn_id) (cn : conn_t) :
  conns st !! c = Some cn -> load_conn st c = Ok cn.
Proof. apply load_conn_Ok. Qed.

Lemma field_ptr_Some (c : conn_id) (cn : conn_t) (s : side) (b : bufferevent) :
  get_side cn s = Some b -> field_ptr c cn s = PBev c s.
Proof. unfold field_ptr. by intros ->. Qed.

Lemma ptr_eqb_refl (p : ptr) : ptr_eqb p p = true.
Proof. unfold ptr_eqb. by rewrite bool_decide_eq_true_2. Qed.

(** ** SOCKS failures *)

(** C8. In [socks_event_cb], an event with [BEV_EVENT_ERROR] while the
    SOCKS state is [ST_HAVE_ADDR]: writing is enabled and reading disabled
    on the input stream, [socks_send_reply] has put its reply for the
    socket error into the input stream's output evbuffer, and the write
    callback of the input stream is [close_conn_on_flush].  The callback
    returns there: nothing is closed and [flushing] is as it was, which
    [output_event_cb] would not leave so on an error event. *)
Theorem socks_connect_failure_reply (st : net_state) (env : os_env)
    (what : Z) (conn : conn_id) (cn : conn_t) (ss : socks_state_t)
    (bi bo : bufferevent) :
  conns st !! conn = Some cn ->
  input cn = Some bi -> output cn = Some bo ->
  socks_state cn = Some ss -> socks_state_get_status ss = ST_HAVE_ADDR ->
  flag_set what BEV_EVENT_ERROR = true ->
  exists st' cn' bi',
    socks_event_cb st env (PBev conn Output) what (PConn conn) = Ok st' /\
    conns st' !! conn = Some cn' /\ input cn' = Some bi' /\
    write_enabled bi' = true /\ read_enabled bi' = false /\
    bev_output bi' = (socks_send_reply ss (bev_output bi) (socket_error env)).2 /\
    writecb bi' = Some CB_close_conn_on_flush /\ cbarg bi' = PConn conn /\
    output cn' = Some bo /\
    is_open cn' = is_open cn /\ flushing cn' = flushing cn /\
    same_globals st st'.
Proof.
  intros Hc Hin Hout Hss Hst Herr.
  unfold socks_event_cb. cbn [as_conn]. rstep.
  rewrite (load_conn_Some st conn cn Hc). rstep.
  rewrite (field_ptr_Some conn cn Output bo Hout), ptr_eqb_refl.
  cbn [obfs_assert]. rstep. rewrite Herr.
  rewrite (load_socks_Some st conn cn ss Hc Hss). rstep.
  rewrite Hst, bool_decide_eq_true_2 by done.
  rewrite (field_ptr_Some conn cn Input bi Hin).
  unfold bufferevent_enable, bufferevent_disable, bufferevent_setcb.
  rewrite (update_bev_store st conn cn Input bi) by done. rstep.
  erewrite update_bev_store by (apply conns_store || reflexivity). rstep.
  erewrite load_bev_store by (cbn; exact Hout). rstep.
  unfold socks_send_reply_on, bufferevent_get_output.
  erewrite load_socks_Some by (apply conns_store || exact Hss). rstep.
  erewrite load_bev_store by reflexivity. rstep.
  destruct (socks_send_reply ss _ (socket_error env)) as [ss' outb'] eqn:Hreply.
  erewrite update_bev_store by (apply conns_store || reflexivity). rstep.
  unfold store_socks. rewrite load_conn_store. rstep.
  erewrite update_bev_store by (apply conns_store || reflexivity).
  eexists _, _, _. split; [reflexivity|]. split; [apply conns_store|].
  split; [reflexivity|].
  split. { unfold write_enabled. cbn. rewrite disable_read_write. apply enable_write_write. }
  split. { unfold read_enabled. cbn. apply disable_read_read. }
  split; [reflexivity|].
  split; [done|]. split; [done|]. split; [done|]. split; [done|]. split; [done|].
  by repeat split.
Qed.




(** ** Forwarding *)

Lemma update_bev_frame (st st' : net_state) (p : ptr)
    (f : bufferevent -> bufferevent) :
  update_bev st p f = Ok st' ->
  same_globals st st' /\
  (forall c, conn_core <$> conns st' !! c = conn_core <$> conns st !! c).
Proof.
  intros Hup. destruct (update_bev_Ok_inv _ _ _ _ Hup) as (b & Hb).
  destruct (update_bev_spec st p f b Hb) as (st2 & Hup2 & _ & _ & Hcore & Hg).
  rewrite Hup in Hup2. injection Hup2 as <-. done.
Qed.

(** Moving bytes through the protocol touches no module-level variable
    and frees nothing. *)
Lemma send_through_frame (st st' : net_state) (conn : conn_id) (src dst : ptr)
    (r : Z) :
  send_through st conn src dst = Ok (r, st') ->
  same_globals st st' /\ is_Some (conns st' !! conn).
Proof.
  unfold send_through.
  destruct (load_conn st conn) as [cn| | |] eqn:Hc; try discriminate. rstep.
  destruct (proto cn) as [p|]; try discriminate. rstep.
  destruct (bufferevent_get_input st src) as [inb| | |]; try discriminate. rstep.
  destruct (bufferevent_get_output st dst) as [outb| | |]; try discriminate. rstep.
  destruct (proto_send p inb outb) as [[[r' p'] inb'] outb'].
  destruct (update_bev _ src _) as [st1| | |] eqn:H1; try discriminate. rstep.
  destruct (update_bev st1 dst _) as [st2| | |] eqn:H2; try discriminate. rstep.
  intros [= <- <-].
  apply update_bev_frame in H1, H2. destruct H1 as (Hg1 & Hk1), H2 as (Hg2 & Hk2).
  split.
  - eapply same_globals_trans; [|exact Hg2].
    eapply same_globals_trans; [|exact Hg1]. by repeat split.
  - specialize (Hk2 conn). rewrite Hk1 in Hk2. cbn in Hk2.
    rewrite lookup_insert_eq in Hk2. destruct (conns st2 !! conn); [eauto|done].
Qed.

Lemma recv_through_frame (st st' : net_state) (conn : conn_id) (src dst : ptr)
    (r : recv_ret) :
  recv_through st conn src dst = Ok (r, st') ->
  same_globals st st' /\ is_Some (conns st' !! conn).
Proof.
  unfold recv_through.
  destruct (load_conn st conn) as [cn| | |] eqn:Hc; try discriminate. rstep.
  destruct (proto cn) as [p|]; try discriminate. rstep.
  destruct (bufferevent_get_input st src) as [inb| | |]; try discriminate. rstep.
  destruct (bufferevent_get_output st dst) as [outb| | |]; try discriminate. rstep.
  destruct (proto_recv p inb outb) as [[[r' p'] inb'] outb'].
  destruct (update_bev _ src _) as [st1| | |] eqn:H1; try discriminate. rstep.
  destruct (update_bev st1 dst _) as [st2| | |] eqn:H2; try discriminate. rstep.
  intros [= <- <-].
  apply update_bev_frame in H1, H2. destruct H1 as (Hg1 & Hk1), H2 as (Hg2 & Hk2).
  split.
  - eapply same_globals_trans; [|exact Hg2].
    eapply same_globals_trans; [|exact Hg1]. by repeat split.
  - specialize (Hk2 conn). rewrite Hk1 in Hk2. cbn in Hk2.
    rewrite lookup_insert_eq in Hk2. destruct (conns st2 !! conn); [eauto|done].
Qed.

(** C10. In [downstream_read_cb], when [proto_recv] answers
    [RECV_SEND_PENDING] the return value of the [proto_send] that follows
    is dropped: whatever it is, the callback returns the store that
    [proto_send] left, with the connection still allocated and the
    registry and call log untouched.  By contrast a negative return of
    [proto_send] in [upstream_read_cb], and [RECV_BAD] in
    [downstream_read_cb], end in [close_conn]. *)
Theorem send_pending_ignores_send_failure (st : net_state) (bev other : ptr)
    (conn : conn_id) :
  other_side st conn bev = Ok other ->
  (forall st1 cn1 r st2,
     recv_through st conn bev other = Ok (RECV_SEND_PENDING, st1) ->
     conns st1 !! conn = Some cn1 ->
     send_through st1 conn (field_ptr conn cn1 Input) (field_ptr conn cn1 Output)
       = Ok (r, st2) ->
     downstream_read_cb st bev (PConn conn) = Ok st2 /\
     same_globals st st2 /\ is_Some (conns st2 !! conn)) /\
  (forall st1 r, send_through st conn bev other = Ok (r, st1) -> r < 0 ->
     upstream_read_cb st bev (PConn conn) = close_conn st1 conn) /\
  (forall st1, recv_through st conn bev other = Ok (RECV_BAD, st1) ->
     downstream_read_cb st bev (PConn conn) = close_conn st1 conn).
Proof.
  intros Hother. split; [|split].
  - intros st1 cn1 r st2 Hrecv Hc1 Hsend.
    unfold downstream_read_cb. cbn [as_conn]. rstep. rewrite Hother. rstep.
    rewrite Hrecv. rstep. rewrite (load_conn_Some st1 conn cn1 Hc1). rstep.
    rewrite Hsend. rstep. split; [done|].
    apply recv_through_frame in Hrecv. apply send_through_frame in Hsend.
    split; [|apply Hsend]. eapply same_globals_trans; [apply Hrecv|apply Hsend].
  - intros st1 r Hs Hneg. unfold upstream_read_cb. cbn [as_conn]. rstep.
    rewrite Hother. rstep. rewrite Hs. rstep.
    by rewrite (proj2 (Z.ltb_lt r 0) Hneg).
  - intros st1 Hr. unfold downstream_read_cb. cbn [as_conn]. rstep.
    rewrite Hother. rstep. rewrite Hr. by rstep.
Qed.

(** ** Acceptance flows *)

Lemma xzalloc_conn_fresh (st : net_state) : conns st !! xzalloc_conn st = None.
Proof. apply not_elem_of_dom. unfold xzalloc_conn. apply is_fresh. Qed.

Lemma conn_free_inv (st st' : net_state) (c : conn_id) :
  conn_free st c = Ok st' ->
  calls st' = calls st ++ [CallConnFree c] /\ conns st' = delete c (conns st).
Proof.
  unfold conn_free. destruct (load_conn st c); try discriminate. rstep.
  by intros [= <-].
Qed.

Lemma listener_err_inv (st st' : net_state) (c : conn_id) (fd : Z) :
  listener_err st c fd = Ok st' ->
  exists extra,
    calls st' = calls st ++ CallConnFree c :: extra /\
    (extra = [] \/ extra = [CallCloseSocket fd]) /\
    conns st' = delete c (conns st).
Proof.
  unfold listener_err. destruct (conn_free st c) as [st1| | |] eqn:E; try discriminate.
  apply conn_free_inv in E. destruct E as (Hcalls & Hnone). rstep.
  intros [= <-]. destruct (0 <=? fd).
  - exists [CallCloseSocket fd]. cbn. rewrite Hcalls, <- app_assoc. eauto.
  - exists []. rewrite Hcalls. eauto.
Qed.

Lemma follow_after_free (c : conn_id) (fd : Z) (extra : list call) :
  extra = [] \/ extra = [CallCloseSocket fd] \/ extra = [CallFinishShutdown] ->
  connects_follow_handshake (Some (CallConnFree c)) extra = true.
Proof. by intros [->|[->| ->]]. Qed.

Lemma follow_app (prev : option call) (pre post : list call) (k : call) :
  connects_follow_handshake prev pre = true ->
  connects_follow_handshake (Some k) post = true ->
  (forall c a, k <> CallConnect c a) ->
  (forall c af a p, k <> CallConnectHostname c af a p) ->
  connects_follow_handshake prev (pre ++ k :: post) = true.
Proof.
  intros Hpre Hpost Hk1 Hk2. revert prev Hpre.
  induction pre as [|k0 pre IH]; intros prev; cbn.
  - intros _. rewrite Hpost, andb_true_r.
    destruct k; try reflexivity; [by destruct (Hk1 c addr)|by destruct (Hk2 c af addr port)].
  - intros [-> Hrest]%andb_true_iff. cbn. by apply IH.
Qed.

(** A flow that ends by freeing the connection, after the calls [pre]. *)
Lemma freed_leaf (st st0 st' : net_state) (c : conn_id) (pre : list call)
    (queued : conn_t -> Prop) :
  calls st0 = calls st ++ pre ->
  connects_follow_handshake None pre = true ->
  (forall c', c' <> c -> conns st0 !! c' = conns st !! c') ->
  (exists extra,
     calls st' = calls st0 ++ CallConnFree c :: extra /\
     connects_follow_handshake (Some (CallConnFree c)) extra = true /\
     conns st' = delete c (conns st0)) ->
  flow_outcome st st' c queued.
Proof.
  intros Hpre Hok Hframe (extra & Hcalls & Hextra & Hdel). split; [|split].
  - exists (pre ++ CallConnFree c :: extra). split.
    + by rewrite Hcalls, Hpre, <- app_assoc.
    + by apply follow_app.
  - intros cn. rewrite Hdel, lookup_delete_eq. discriminate.
  - intros c' Hne. rewrite Hdel, lookup_delete_ne by done. by apply Hframe.
Qed.

Lemma err_leaf (st st0 st' : net_state) (c : conn_id) (fd : Z) (pre : list call)
    (queued : conn_t -> Prop) :
  calls st0 = calls st ++ pre ->
  connects_follow_handshake None pre = true ->
  (forall c', c' <> c -> conns st0 !! c' = conns st !! c') ->
  listener_err st0 c fd = Ok st' ->
  flow_outcome st st' c queued.
Proof.
  intros Hpre Hok Hframe Herr. apply (freed_leaf st st0 st' c pre); [done..|].
  apply listener_err_inv in Herr. destruct Herr as (extra & Hcalls & Hextra & Hnone).
  exists extra. split; [done|]. split; [|done].
  apply (follow_after_free c fd). tauto.
Qed.

Lemma close_conn_inv (st st' : net_state) (c : conn_id) :
  close_conn st c = Ok st' ->
  exists extra,
    calls st' = calls st ++ CallConnFree c :: extra /\
    connects_follow_handshake (Some (CallConnFree c)) extra = true /\
    conns st' = delete c (conns st).
Proof.
  unfold close_conn. destruct (connections st) as [sl|]; [|discriminate].
  destruct (conn_free _ c) as [st1| | |] eqn:E; try discriminate.
  pose proof (conn_free_globals _ _ _ E) as (Hconn & _).
  apply conn_free_inv in E. destruct E as (Hcalls & Hnone). cbn in Hcalls, Hconn, Hnone.
  rstep. intros [= <-].
  destruct (smartlist_len (smartlist_remove sl c) =? 0); cbn.
  - destruct (shutting_down st1).
    + exists [CallFinishShutdown]. cbn. rewrite Hcalls, <- app_assoc. done.
    + exists []. cbn. by rewrite Hcalls.
  - rewrite Hconn. exists []. by rewrite Hcalls.
Qed.

Lemma close_leaf (st st0 st' : net_state) (c : conn_id) (pre : list call)
    (queued : conn_t -> Prop) :
  calls st0 = calls st ++ pre ->
  connects_follow_handshake None pre = true ->
  (forall c', c' <> c -> conns st0 !! c' = conns st !! c') ->
  close_conn st0 c = Ok st' ->
  flow_outcome st st' c queued.
Proof.
  intros Hpre Hok Hframe Hclose. apply (freed_leaf st st0 st' c pre); [done..|].
  by apply close_conn_inv.
Qed.

Lemma handshake_into_store (st : net_state) (c : conn_id) (cn : conn_t)
    (s : side) (p : protocol_t) (b : bufferevent) :
  proto cn = Some p -> get_side cn s = Some b ->
  handshake_into (store_conn st c cn) c s =
  Ok ((proto_handshake p (bev_output b)).1.1,
      log (store_conn (store_conn st c cn) c
             (set_side (set_proto cn (Some (proto_handshake p (bev_output b)).1.2)) s
                (Some (set_bev_output b (proto_handshake p (bev_output b)).2))))
          (CallProtoHandshake c s)).
Proof.
  intros Hp Hs. unfold handshake_into. rewrite load_conn_store. rstep.
  rewrite Hp, Hs. by destruct (proto_handshake p (bev_output b)) as [[r p'] out].
Qed.

(** Stores and log entries for one connection leave the others alone. *)
Ltac others := intros ? ?; cbn; by rewrite ?lookup_insert_ne by done.

Lemma client_flow (st st' : net_state) (env : os_env) (fd : Z) (lsn : listener_t) :
  simple_client_listener_cb st env fd lsn = Ok st' ->
  flow_outcome st st' (xzalloc_conn st) (fun cn =>
    exists params p0 bi bo,
      proto_params lsn = Some params /\ proto_create params = Some p0 /\
      input cn = Some bi /\ output cn = Some bo /\
      bev_output bo = (proto_handshake p0 []).2 /\ bev_output bi = [] /\
      is_open cn = false /\ read_enabled bi = false).
Proof.
  unfold simple_client_listener_cb. set (conn := xzalloc_conn st).
  destruct (proto_params lsn) as [params|] eqn:Hparams; [|discriminate]. rstep.
  destruct (obfs_assert _); try discriminate. rstep.
  cbn [proto set_proto conn_zero].
  destruct (proto_create params) as [p0|] eqn:Hcreate.
  2:{ apply (err_leaf st _ st' conn fd []); [by rewrite app_nil_r|done|others]. }
  destruct (new_input_ok env); cbn [negb].
  2:{ apply (err_leaf st _ st' conn fd []); [by rewrite app_nil_r|done|others]. }
  destruct (new_output_ok env); cbn [negb].
  2:{ apply (err_leaf st _ st' conn (-1) []); [by rewrite app_nil_r|done|others]. }
  unfold bufferevent_setcb.
  erewrite update_bev_store by (apply conns_store || reflexivity). rstep.
  erewrite update_bev_store by (apply conns_store || reflexivity). rstep.
  unfold simple_connect. erewrite handshake_into_store by reflexivity. rstep.
  change (bev_output (set_callbacks (bufferevent_socket_new _) _ _ _ _))
    with (@nil Byte.byte).
  destruct (proto_handshake p0 []) as [[r p'] out] eqn:Hhs. cbn [fst snd].
  destruct (r <? 0).
  { apply (err_leaf st _ st' conn (-1) [CallProtoHandshake conn Output]);
      [done|done|others]. }
  rewrite Hparams. rstep.
  destruct (target_addr params) as [target|]; [|discriminate]. rstep.
  destruct (connect_r env <? 0).
  { apply (err_leaf st _ st' conn (-1)
             [CallProtoHandshake conn Output; CallConnect conn (ai_addr target)]).
    - cbn. by rewrite <- app_assoc.
    - cbn. by rewrite Nat.eqb_refl.
    - others. }
  unfold bufferevent_enable.
  erewrite update_bev_store by (apply conns_store || reflexivity). rstep.
  intros [= <-]. split; [|split].
  - exists [CallProtoHandshake conn Output; CallConnect conn (ai_addr target)].
    split; [cbn; by rewrite <- app_assoc|]. cbn. by rewrite Nat.eqb_refl.
  - intros cn. cbn. rewrite lookup_insert_eq. intros [= <-].
    eexists params, p0, _, _. split; [reflexivity|]. split; [exact Hcreate|].
    do 2 (split; [reflexivity|]). split; [by rewrite Hhs|]. done.
  - others.
Qed.

Lemma server_flow (st st' : net_state) (env : os_env) (fd : Z) (lsn : listener_t) :
  simple_server_listener_cb st env fd lsn = Ok st' ->
  flow_outcome st st' (xzalloc_conn st) (fun cn =>
    exists params p0 bi bo,
      proto_params lsn = Some params /\ proto_create params = Some p0 /\
      input cn = Some bi /\ output cn = Some bo /\
      bev_output bi = (proto_handshake p0 []).2 /\ bev_output bo = [] /\
      is_open cn = false /\ read_enabled bi = false).
Proof.
  unfold simple_server_listener_cb. set (conn := xzalloc_conn st).
  destruct (proto_params lsn) as [params|] eqn:Hparams; [|discriminate]. rstep.
  destruct (obfs_assert _); try discriminate. rstep.
  cbn [proto set_proto conn_zero].
  destruct (proto_create params) as [p0|] eqn:Hcreate.
  2:{ apply (err_leaf st _ st' conn fd []); [by rewrite app_nil_r|done|others]. }
  destruct (new_input_ok env); cbn [negb].
  2:{ apply (err_leaf st _ st' conn fd []); [by rewrite app_nil_r|done|others]. }
  unfold bufferevent_setcb.
  erewrite update_bev_store by (apply conns_store || reflexivity). rstep.
  destruct (new_output_ok env); cbn [negb].
  2:{ apply (err_leaf st _ st' conn (-1) []); [by rewrite app_nil_r|done|others]. }
  rewrite load_conn_store. rstep.
  erewrite update_bev_store by (apply conns_store || reflexivity). rstep.
  unfold simple_connect. erewrite handshake_into_store by reflexivity. rstep.
  change (bev_output (set_callbacks (bufferevent_socket_new _) _ _ _ _))
    with (@nil Byte.byte).
  destruct (proto_handshake p0 []) as [[r p'] out] eqn:Hhs. cbn [fst snd].
  destruct (r <? 0).
  { apply (err_leaf st _ st' conn (-1) [CallProtoHandshake conn Input]);
      [done|done|others]. }
  rewrite Hparams. rstep.
  destruct (target_addr params) as [target|]; [|discriminate]. rstep.
  destruct (connect_r env <? 0).
  { apply (err_leaf st _ st' conn (-1)
             [CallProtoHandshake conn Input; CallConnect conn (ai_addr target)]).
    - cbn. by rewrite <- app_assoc.
    - cbn. by rewrite Nat.eqb_refl.
    - others. }
  unfold bufferevent_enable.
  erewrite update_bev_store by (apply conns_store || reflexivity). rstep.
  intros [= <-]. split; [|split].
  - exists [CallProtoHandshake conn Input; CallConnect conn (ai_addr target)].
    split; [cbn; by rewrite <- app_assoc|]. cbn. by rewrite Nat.eqb_refl.
  - intros cn. cbn. rewrite lookup_insert_eq. intros [= <-].
    eexists params, p0, _, _. split; [reflexivity|]. split; [exact Hcreate|].
    do 2 (split; [reflexivity|]). split; [by rewrite Hhs|]. done.
  - others.
Qed.

Lemma socks_listener_flow (st st' : net_state) (env : os_env) (fd : Z)
    (lsn : listener_t) :
  socks_client_listener_cb st env fd lsn = Ok st' ->
  flow_outcome st st' (xzalloc_conn st) (fun cn =>
    output cn = None /\ is_open cn = false /\ conn_mode cn = LSN_SOCKS_CLIENT).
Proof.
  unfold socks_client_listener_cb. set (conn := xzalloc_conn st).
  destruct (proto_params lsn) as [params|] eqn:Hparams; [|discriminate]. rstep.
  unfold obfs_assert. case_bool_decide as Hmode; [|discriminate]. rstep.
  cbn [proto set_proto conn_zero].
  destruct (proto_create params) as [p0|] eqn:Hcreate.
  2:{ apply (err_leaf st _ st' conn fd []); [by rewrite app_nil_r|done|others]. }
  destruct (new_input_ok env); cbn [negb].
  2:{ apply (err_leaf st _ st' conn fd []); [by rewrite app_nil_r|done|others]. }
  unfold bufferevent_setcb, bufferevent_enable.
  erewrite update_bev_store by (apply conns_store || reflexivity). rstep.
  erewrite update_bev_store by (apply conns_store || reflexivity). rstep.
  intros [= <-]. split; [|split].
  - exists []. split; [by rewrite app_nil_r|done].
  - intros cn. cbn. rewrite lookup_insert_eq. by intros [= <-].
  - others.
Qed.

Lemma attach_flow (st st' : net_state) (env : os_env) (conn : conn_id)
    (cn : conn_t) :
  conns st !! conn = Some cn ->
  socks_attach_outbound st env conn = Ok st' ->
  flow_outcome st st' conn (fun cn' =>
    exists p bo,
      proto cn = Some p /\ output cn' = Some bo /\
      bev_output bo = (proto_handshake p []).2 /\
      bev_output <$> input cn' = bev_output <$> input cn).
Proof.
  intros Hc. unfold socks_attach_outbound.
  destruct (load_socks st conn) as [ss| | |]; try discriminate. rstep.
  destruct (socks_state_get_address ss) as [r [[af addr] port]].
  destruct (obfs_assert _); try discriminate. rstep.
  rewrite (load_conn_Some st conn cn Hc). rstep. rewrite load_conn_store. rstep.
  destruct (new_output_ok env); [|discriminate].
  erewrite field_ptr_Some by reflexivity. unfold bufferevent_setcb.
  erewrite update_bev_store by (apply conns_store || reflexivity). rstep.
  destruct (proto cn) as [p|] eqn:Hp.
  2:{ unfold handshake_into. rewrite load_conn_store. rstep.
      cbn [proto set_side set_output]. by rewrite Hp. }
  erewrite handshake_into_store by (exact Hp || reflexivity). rstep.
  change (bev_output (set_callbacks (bufferevent_socket_new _) _ _ _ _))
    with (@nil Byte.byte).
  destruct (proto_handshake p []) as [[h p'] out] eqn:Hhs. cbn [fst snd].
  destruct (h <? 0).
  { apply (close_leaf st _ st' conn [CallProtoHandshake conn Output]);
      [done|done|others]. }
  unfold bufferevent_enable.
  erewrite update_bev_store by (apply conns_store || reflexivity). rstep.
  destruct (connect_r env <? 0).
  { apply (close_leaf st _ st' conn
             [CallProtoHandshake conn Output; CallConnectHostname conn af addr port]).
    - cbn. by rewrite <- app_assoc.
    - cbn. by rewrite Nat.eqb_refl.
    - others. }
  rewrite load_conn_store. rstep. unfold bufferevent_disable.
  destruct (input cn) as [bi|] eqn:Hin.
  2:{ unfold field_ptr. cbn [get_side set_side input set_output set_proto]. by rewrite Hin. }
  erewrite field_ptr_Some by (cbn; exact Hin).
  erewrite update_bev_store by (apply conns_store || (cbn; exact Hin)).
  intros [= <-]. split; [|split].
  - exists [CallProtoHandshake conn Output; CallConnectHostname conn af addr port].
    split; [cbn; by rewrite <- app_assoc|]. cbn. by rewrite Nat.eqb_refl.
  - intros cn'. cbn. rewrite lookup_insert_eq. intros [= <-].
    eexists p, _. split; [reflexivity|]. split; [reflexivity|]. by rewrite Hhs.
  - others.
Qed.
(** C6, as the code has it.  In every acceptance flow [proto_handshake]
    runs directly before the connect call: in [simple_client_listener_cb],
    in [simple_server_listener_cb] and in the attach-outbound substate of
    [socks_read_cb]; [socks_client_listener_cb] issues neither.  The
    handshake bytes are queued into the output evbuffer of the outbound
    stream in the simple-client and SOCKS flows, and into the output
    evbuffer of the input stream in the simple-server flow, whose outbound
    stream has nothing queued. *)
Theorem handshake_precedes_connect :
  (forall st st' env fd lsn,
     simple_client_listener_cb st env fd lsn = Ok st' ->
     flow_outcome st st' (xzalloc_conn st) (fun cn =>
       exists params p0 bi bo,
         proto_params lsn = Some params /\ proto_create params = Some p0 /\
         input cn = Some bi /\ output cn = Some bo /\
         bev_output bo = (proto_handshake p0 []).2 /\ bev_output bi = [] /\
         is_open cn = false /\ read_enabled bi = false)) /\
  (forall st st' env fd lsn,
     simple_server_listener_cb st env fd lsn = Ok st' ->
     flow_outcome st st' (xzalloc_conn st) (fun cn =>
       exists params p0 bi bo,
         proto_params lsn = Some params /\ proto_create params = Some p0 /\
         input cn = Some bi /\ output cn = Some bo /\
         bev_output bi = (proto_handshake p0 []).2 /\ bev_output bo = [] /\
         is_open cn = false /\ read_enabled bi = false)) /\
  (forall st st' env fd lsn,
     socks_client_listener_cb st env fd lsn = Ok st' ->
     flow_outcome st st' (xzalloc_conn st) (fun cn =>
       output cn = None /\ is_open cn = false /\
       conn_mode cn = LSN_SOCKS_CLIENT)) /\
  (forall st st' env conn cn,
     conns st !! conn = Some cn ->
     socks_attach_outbound st env conn = Ok st' ->
     flow_outcome st st' conn (fun cn' =>
       exists p bo,
         proto cn = Some p /\ output cn' = Some bo /\
         bev_output bo = (proto_handshake p []).2 /\
         bev_output <$> input cn' = bev_output <$> input cn)).
Proof.
  split; [|split; [|split]].
  - intros st st' env fd lsn. apply client_flow.
  - intros st st' env fd lsn. apply server_flow.
  - intros st st' env fd lsn. apply socks_listener_flow.
  - intros st st' env conn cn. apply attach_flow.
Qed.

(** ** The connected event of a SOCKS connection *)

Lemma store_socks_Some (st : net_state) (c : conn_id) (cn : conn_t)
    (x : option socks_state_t) :
  conns st !! c = Some cn ->
  store_socks st c x = Ok (store_conn st c (set_socks_state cn x)).
Proof. intros Hc. unfold store_socks. by rewrite (load_conn_Some st c cn Hc). Qed.

(** C3, evaluated on the code.  In [socks_event_cb], on a connected event
    for a connection whose input evbuffer already holds pipelined bytes,
    the reply is sent, the SOCKS state freed and the callbacks rewired;
    then [downstream_read_cb(bev, conn->input)] is called.  Its second
    argument is the input bufferevent, not the connection, and the
    callback's first step [conn_t *conn = arg] leaves what C defines. *)
Theorem socks_event_pipelined_undefined (st : net_state) (env : os_env)
    (what : Z) (conn : conn_id) (cn : conn_t) (ss : socks_state_t)
    (bi bo : bufferevent) :
  conns st !! conn = Some cn ->
  input cn = Some bi -> output cn = Some bo -> socks_state cn = Some ss ->
  flag_set what BEV_EVENT_ERROR = false ->
  flag_set what BEV_EVENT_CONNECTED = true ->
  bev_input bi <> [] ->
  socks_event_cb st env (PBev conn Output) what (PConn conn) = Undef.
Proof.
  intros Hc Hin Hout Hss Herr Hconn Hpipe.
  unfold socks_event_cb. cbn [as_conn]. rstep.
  rewrite (load_conn_Some st conn cn Hc). rstep.
  rewrite (field_ptr_Some conn cn Output bo Hout), ptr_eqb_refl.
  cbn [obfs_assert]. rstep. rewrite Herr. rstep. rewrite Hconn.
  rewrite Hss, bool_decide_eq_true_2 by eauto. cbn [obfs_assert]. rstep.
  rewrite (load_socks_Some st conn cn ss Hc Hss). rstep.
  rewrite (load_bev_PBev st conn Output cn Hc). cbn [get_side]. rewrite Hout. rstep.
  rewrite (store_socks_Some st conn cn _ Hc). rstep.
  rewrite (field_ptr_Some conn cn Input bi Hin).
  unfold socks_send_reply_on, bufferevent_get_output.
  erewrite load_socks_Some by (apply conns_store || reflexivity). rstep.
  erewrite load_bev_store by (cbn; exact Hin). rstep.
  destruct (socks_send_reply _ (bev_output bi) 0) as [ss' outb'].
  erewrite update_bev_store by (apply conns_store || (cbn; exact Hin)). rstep.
  erewrite store_socks_Some by apply conns_store. rstep.
  erewrite store_socks_Some by apply conns_store. rstep.
  unfold bufferevent_setcb.
  erewrite update_bev_store by (apply conns_store || reflexivity). rstep.
  erewrite update_bev_store by (apply conns_store || (cbn; exact Hout)). rstep.
  unfold bufferevent_get_input.
  erewrite load_bev_store by reflexivity. rstep.
  cbn [bev_input set_callbacks set_bev_output].
  rewrite evbuffer_length_0, bool_decide_eq_false_2 by done. cbn [negb].
  reflexivity.
Qed.

(** ** Reading stays off until the connection is open *)

Lemma bind_Ok {A B : Type} (m : result A) (k : A -> result B) (b : B) :
  m ≫= k = Ok b -> exists a, m = Ok a /\ k a = Ok b.
Proof. destruct m; try discriminate. eauto. Qed.

Lemma evolves_refl (st : net_state) : evolves None st st.
Proof. intros c cn' Hc. exists cn'. split; [done|]. split; [done|]. by left. Qed.

Lemma evolves_trans (t : option conn_id) (st1 st2 st3 : net_state) :
  evolves None st1 st2 -> evolves t st2 st3 -> evolves t st1 st3.
Proof.
  intros H12 H23 c cn3 Hc3.
  destruct (H23 c cn3 Hc3) as (cn2 & Hc2 & Hm2 & H2).
  destruct (H12 c cn2 Hc2) as (cn1 & Hc1 & Hm1 & [(Ho1 & Hr1)|(? & _)]); [|done].
  exists cn1. split; [done|]. split; [congruence|].
  destruct H2 as [(Ho2 & Hr2)|Hopened]; [left|by right].
  split; [congruence|auto].
Qed.

Lemma evolves_weaken (t : option conn_id) (st st' : net_state) :
  evolves None st st' -> evolves t st st'.
Proof.
  intros H c cn' Hc. destruct (H c cn' Hc) as (cn & ? & ? & [?|(? & _)]); [|done].
  exists cn. split; [done|]. split; [done|]. by left.
Qed.

Lemma evolves_conns (st st' : net_state) :
  conns st' = conns st -> evolves None st st'.
Proof.
  intros Heq c cn' Hc. rewrite Heq in Hc. exists cn'.
  split; [done|]. split; [done|]. by left.
Qed.

Lemma evolves_delete (st st' : net_state) (c : conn_id) :
  conns st' = delete c (conns st) -> evolves None st st'.
Proof.
  intros Heq c' cn' Hc. rewrite Heq in Hc.
  apply lookup_delete_Some in Hc. destruct Hc as (_ & Hc).
  exists cn'. split; [done|]. split; [done|]. by left.
Qed.

Lemma evolves_store (st : net_state) (c : conn_id) (cn cn' : conn_t) :
  conns st !! c = Some cn ->
  conn_mode cn' = conn_mode cn -> is_open cn' = is_open cn ->
  (input_read cn' = true -> input_read cn = true) ->
  evolves None st (store_conn st c cn').
Proof.
  intros Hc Hm Ho Hr c' cn'' Hc'. cbn in Hc'.
  destruct (decide (c = c')) as [<-|Hne].
  - rewrite lookup_insert_eq in Hc'. injection Hc' as <-.
    exists cn. split; [done|]. split; [done|]. by left.
  - rewrite lookup_insert_ne in Hc' by done.
    exists cn''. split; [done|]. split; [done|]. by left.
Qed.

Lemma update_bev_inv (st st' : net_state) (p : ptr)
    (f : bufferevent -> bufferevent) :
  update_bev st p f = Ok st' ->
  exists c s cn b,
    p = PBev c s /\ conns st !! c = Some cn /\ get_side cn s = Some b /\
    st' = store_conn st c (set_side cn s (Some (f b))).
Proof.
  destruct p as [| |c s]; cbn; try discriminate.
  unfold load_conn. destruct (conns st !! c) as [cn|] eqn:Hc; try discriminate.
  rstep. destruct (get_side cn s) as [b|] eqn:Hs; try discriminate.
  intros [= <-]. eauto 10.
Qed.

(** Writing to a bufferevent without switching its reading on. *)
Lemma evolves_update_bev (st st' : net_state) (p : ptr)
    (f : bufferevent -> bufferevent) :
  (forall b, read_enabled (f b) = true -> read_enabled b = true) ->
  update_bev st p f = Ok st' -> evolves None st st'.
Proof.
  intros Hf (c & s & cn & b & -> & Hc & Hs & ->)%update_bev_inv.
  apply (evolves_store st c cn); [done|by destruct s|by destruct s|].
  destruct s; cbn in *; unfold input_read; cbn.
  - rewrite Hs. apply Hf.
  - done.
Qed.

(** Writing to an outbound bufferevent. *)
Lemma evolves_update_output (st st' : net_state) (c : conn_id)
    (f : bufferevent -> bufferevent) :
  update_bev st (PBev c Output) f = Ok st' -> evolves None st st'.
Proof.
  intros (c' & s & cn & b & [= <- <-] & Hc & Hs & ->)%update_bev_inv.
  by apply (evolves_store st c cn).
Qed.

Lemma evolves_disable (st st' : net_state) (p : ptr) (ev : Z) :
  bufferevent_disable st p ev = Ok st' -> evolves None st st'.
Proof.
  apply evolves_update_bev. intros b. unfold read_enabled. cbn.
  rewrite !read_flag, Z.land_spec. by intros [-> _]%andb_true_iff.
Qed.

Lemma evolves_enable_write (st st' : net_state) (p : ptr) :
  bufferevent_enable st p EV_WRITE = Ok st' -> evolves None st st'.
Proof.
  apply evolves_update_bev. intros b. unfold read_enabled. cbn.
  by rewrite enable_write_read.
Qed.

Lemma evolves_setcb (st st' : net_state) (p : ptr)
    (r w : option bufferevent_data_cb) (e : option bufferevent_event_cb)
    (arg : ptr) :
  bufferevent_setcb st p r w e arg = Ok st' -> evolves None st st'.
Proof. by apply evolves_update_bev. Qed.

Lemma evolves_conn_free (st st' : net_state) (c : conn_id) :
  conn_free st c = Ok st' -> evolves None st st'.
Proof. intros (_ & Hdel)%conn_free_inv. by apply (evolves_delete st st' c). Qed.

Lemma evolves_close_conn (st st' : net_state) (c : conn_id) :
  close_conn st c = Ok st' -> evolves None st st'.
Proof.
  intros (extra & _ & _ & Hdel)%close_conn_inv. by apply (evolves_delete st st' c).
Qed.

Lemma evolves_close_conn_on_flush (st st' : net_state) (bev arg : ptr) :
  close_conn_on_flush st bev arg = Ok st' -> evolves None st st'.
Proof.
  unfold close_conn_on_flush.
  intros (conn & _ & (out & _ & H)%bind_Ok)%bind_Ok.
  destruct (evbuffer_get_length out =? 0).
  - by apply evolves_close_conn in H.
  - injection H as <-. apply evolves_refl.
Qed.

Lemma evolves_set_proto (st : net_state) (c : conn_id) (cn : conn_t)
    (p : option protocol_t) :
  load_conn st c = Ok cn -> evolves None st (store_conn st c (set_proto cn p)).
Proof. intros Hc%load_conn_Ok. by apply (evolves_store st c cn). Qed.

Lemma evolves_send_through (st st' : net_state) (conn : conn_id) (src dst : ptr)
    (r : Z) :
  send_through st conn src dst = Ok (r, st') -> evolves None st st'.
Proof.
  unfold send_through.
  intros (cn & Hc & (p & _ & (inb & _ & (outb & _ & H)%bind_Ok)%bind_Ok)%bind_Ok)%bind_Ok.
  destruct (proto_send p inb outb) as [[[r' p'] inb'] outb'].
  apply bind_Ok in H. destruct H as (st1 & H1 & H).
  apply bind_Ok in H. destruct H as (st2 & H2 & H). injection H as <- <-.
  eapply evolves_trans; [by apply evolves_set_proto|].
  eapply evolves_trans; [by eapply evolves_update_bev, H1|].
  by eapply evolves_update_bev, H2.
Qed.

Lemma evolves_recv_through (st st' : net_state) (conn : conn_id) (src dst : ptr)
    (r : recv_ret) :
  recv_through st conn src dst = Ok (r, st') -> evolves None st st'.
Proof.
  unfold recv_through.
  intros (cn & Hc & (p & _ & (inb & _ & (outb & _ & H)%bind_Ok)%bind_Ok)%bind_Ok)%bind_Ok.
  destruct (proto_recv p inb outb) as [[[r' p'] inb'] outb'].
  apply bind_Ok in H. destruct H as (st1 & H1 & H).
  apply bind_Ok in H. destruct H as (st2 & H2 & H). injection H as <- <-.
  eapply evolves_trans; [by apply evolves_set_proto|].
  eapply evolves_trans; [by eapply evolves_update_bev, H1|].
  by eapply evolves_update_bev, H2.
Qed.

Lemma evolves_upstream_read (st st' : net_state) (bev arg : ptr) :
  upstream_read_cb st bev arg = Ok st' -> evolves None st st'.
Proof.
  unfold upstream_read_cb.
  intros (conn & _ & (other & _ & ([r st1] & Hs & H)%bind_Ok)%bind_Ok)%bind_Ok.
  apply evolves_send_through in Hs.
  eapply evolves_trans; [exact Hs|]. destruct (r <? 0).
  - by apply evolves_close_conn in H.
  - injection H as <-. apply evolves_refl.
Qed.

Lemma evolves_downstream_read (st st' : net_state) (bev arg : ptr) :
  downstream_read_cb st bev arg = Ok st' -> evolves None st st'.
Proof.
  unfold downstream_read_cb.
  intros (conn & _ & (other & _ & ([r st1] & Hr & H)%bind_Ok)%bind_Ok)%bind_Ok.
  apply evolves_recv_through in Hr.
  eapply evolves_trans; [exact Hr|]. destruct r.
  - injection H as <-. apply evolves_refl.
  - by apply evolves_close_conn in H.
  - apply bind_Ok in H. destruct H as (cn & _ & H).
    apply bind_Ok in H. destruct H as ([r2 st2] & Hs & H). injection H as <-.
    by apply evolves_send_through in Hs.
Qed.

Lemma evolves_error_or_eof (st st' : net_state) (conn : conn_id)
    (bev_err bev_flush : ptr) :
  error_or_eof st conn bev_err bev_flush = Ok st' -> evolves None st st'.
Proof.
  unfold error_or_eof. intros (cn & Hc & H)%bind_Ok.
  destruct (flushing cn || negb (is_open cn)); [by apply evolves_close_conn in H|].
  apply bind_Ok in H. destruct H as (out & _ & H).
  destruct (0 =? evbuffer_get_length out); [by apply evolves_close_conn in H|].
  apply bind_Ok in H. destruct H as (st1 & H1 & H).
  apply bind_Ok in H. destruct H as (st2 & H2 & H).
  apply bind_Ok in H. destruct H as (st3 & H3 & H4).
  apply load_conn_Ok in Hc.
  eapply evolves_trans;
    [by apply (evolves_store st conn cn (set_flushing cn true))|].
  eapply evolves_trans; [by eapply evolves_disable, H1|].
  eapply evolves_trans; [by eapply evolves_disable, H2|].
  eapply evolves_trans; [by eapply evolves_setcb, H3|].
  by eapply evolves_enable_write, H4.
Qed.

Lemma evolves_input_event (st st' : net_state) (bev : ptr) (what : Z) (arg : ptr) :
  input_event_cb st bev what arg = Ok st' -> evolves None st st'.
Proof.
  unfold input_event_cb.
  intros (conn & _ & (cn & _ & (_ & _ & (_ & _ & (_ & _ & H)%bind_Ok)%bind_Ok)
    %bind_Ok)%bind_Ok)%bind_Ok.
  by apply evolves_error_or_eof in H.
Qed.

Lemma evolves_output_event (st st' : net_state) (bev : ptr) (what : Z) (arg : ptr) :
  bev <> PNull ->
  output_event_cb st bev what arg = Ok st' -> evolves (opened_by bev what) st st'.
Proof.
  intros Hbev. unfold output_event_cb.
  intros (conn & _ & (cn & Hc & (u & Hassert & H)%bind_Ok)%bind_Ok)%bind_Ok.
  apply load_conn_Ok in Hc.
  destruct (flushing cn || flag_set what error_events).
  { apply evolves_weaken. by apply evolves_error_or_eof in H. }
  destruct (flag_set what BEV_EVENT_CONNECTED) eqn:Hconn; [|discriminate].
  assert (bev = PBev conn Output) as ->.
  { unfold obfs_assert, ptr_eqb in Hassert. case_bool_decide as Heq; [|discriminate].
    rewrite Heq in *. unfold field_ptr in *. by destruct (get_side cn Output). }
  cbn [opened_by]. rewrite Hconn.
  apply update_bev_inv in H.
  destruct H as (c & s & cn1 & b & Hp & Hc1 & Hs & ->).
  assert (c = conn /\ s = Input) as (-> & ->).
  { unfold field_ptr in Hp. destruct (get_side cn Input); by inversion Hp. }
  cbn in Hc1. rewrite lookup_insert_eq in Hc1. injection Hc1 as <-.
  intros c' cn' Hc'. cbn in Hc'.
  destruct (decide (conn = c')) as [<-|Hne].
  - rewrite lookup_insert_eq in Hc'. injection Hc' as <-.
    exists cn. split; [done|]. split; [done|]. right. split; [done|]. split; [done|].
    unfold input_read, read_enabled. cbn. apply enable_both_read.
  - rewrite !lookup_insert_ne in Hc' by done.
    exists cn'. split; [done|]. split; [done|]. by left.
Qed.

Lemma evolves_store_socks (st st' : net_state) (c : conn_id)
    (x : option socks_state_t) :
  store_socks st c x = Ok st' -> evolves None st st'.
Proof.
  unfold store_socks. intros (cn & Hc%load_conn_Ok & [= <-])%bind_Ok.
  by apply (evolves_store st c cn).
Qed.

Lemma evolves_socks_send_reply (st st' : net_state) (conn : conn_id) (bev : ptr)
    (error : Z) :
  socks_send_reply_on st conn bev error = Ok st' -> evolves None st st'.
Proof.
  unfold socks_send_reply_on.
  intros (ss & _ & (outb & _ & H)%bind_Ok)%bind_Ok.
  destruct (socks_send_reply ss outb error) as [ss' outb'].
  apply bind_Ok in H. destruct H as (st1 & H1 & H2).
  eapply evolves_trans; [by eapply evolves_update_bev, H1|].
  by eapply evolves_store_socks.
Qed.

Lemma evolves_socks5_send_reply (st st' : net_state) (conn : conn_id) (bev : ptr)
    (code : Z) :
  socks5_send_reply_on st conn bev code = Ok st' -> evolves None st st'.
Proof.
  unfold socks5_send_reply_on.
  intros (outb & _ & (ss & _ & H)%bind_Ok)%bind_Ok.
  destruct (socks5_send_reply outb ss code) as [ss' outb'].
  apply bind_Ok in H. destruct H as (st1 & H1 & H2).
  eapply evolves_trans; [by eapply evolves_update_bev, H1|].
  by eapply evolves_store_socks.
Qed.

Lemma evolves_handle_socks (st st' : net_state) (conn : conn_id) (bev : ptr)
    (r : socks_ret) :
  handle_socks_on st conn bev = Ok (r, st') -> evolves None st st'.
Proof.
  unfold handle_socks_on.
  intros (inb & _ & (outb & _ & (ss & _ & H)%bind_Ok)%bind_Ok)%bind_Ok.
  destruct (handle_socks inb outb ss) as [[[r' inb'] outb'] ss'].
  apply bind_Ok in H. destruct H as (st1 & H1 & H).
  apply bind_Ok in H. destruct H as (st2 & H2 & H). injection H as <- <-.
  eapply evolves_trans; [by eapply evolves_update_bev, H1|].
  by eapply evolves_store_socks.
Qed.

Lemma evolves_handshake_into (st st' : net_state) (conn : conn_id) (s : side)
    (r : Z) :
  handshake_into st conn s = Ok (r, st') -> evolves None st st'.
Proof.
  unfold handshake_into. intros (cn & Hc%load_conn_Ok & H)%bind_Ok.
  destruct (proto cn) as [p|]; [|discriminate].
  destruct (get_side cn s) as [b|] eqn:Hs; [|discriminate].
  destruct (proto_handshake p (bev_output b)) as [[r' p'] out].
  injection H as <- <-.
  eapply evolves_trans; [|by apply evolves_conns].
  apply (evolves_store st conn cn _ Hc); [by destruct s|by destruct s|].
  destruct s; unfold input_read; cbn in *; by rewrite ?Hs.
Qed.

Lemma evolves_attach_outbound (st st' : net_state) (env : os_env) (conn : conn_id) :
  socks_attach_outbound st env conn = Ok st' -> evolves None st st'.
Proof.
  unfold socks_attach_outbound. intros (ss & _ & H)%bind_Ok.
  destruct (socks_state_get_address ss) as [r [[af addr] port]].
  apply bind_Ok in H. destruct H as (_ & _ & H).
  apply bind_Ok in H. destruct H as (cn & Hc%load_conn_Ok & H).
  apply bind_Ok in H. destruct H as (cn1 & _ & H).
  apply bind_Ok in H. destruct H as (st1 & H1 & H).
  apply bind_Ok in H. destruct H as ([h st2] & H2 & H).
  eapply evolves_trans.
  { apply (evolves_store st conn cn
             (set_output cn (if new_output_ok env
                             then Some (bufferevent_socket_new (-1)) else None)));
      done. }
  eapply evolves_trans; [by eapply evolves_setcb, H1|].
  eapply evolves_trans; [by eapply evolves_handshake_into, H2|].
  destruct (h <? 0); [by apply evolves_close_conn in H|].
  apply bind_Ok in H. destruct H as (st3 & H3 & H).
  eapply evolves_trans; [|destruct (connect_r env <? 0)].
  - eapply evolves_trans; [|by eapply evolves_update_output, H3].
    by apply evolves_conns.
  - by apply evolves_close_conn in H.
  - apply bind_Ok in H. destruct H as (cn3 & _ & H). by eapply evolves_disable, H.
Qed.

Lemma evolves_socks_read_loop (fuel : nat) (st : net_state) (env : os_env)
    (conn : conn_id) (bev : ptr) (x : net_state + socks_ret * net_state) :
  socks_read_loop fuel st env conn bev = Ok x -> evolves None st (loop_state x).
Proof.
  revert st. induction fuel as [|fuel IH]; intros st; cbn [socks_read_loop];
    [discriminate|].
  intros (ss & _ & H)%bind_Ok.
  assert ((handle_socks_on st conn bev ≫= λ '(r, st0),
             match r with
             | SOCKS_GOOD => socks_read_loop fuel st0 env conn bev
             | _ => Ok (inr (r, st0))
             end) = Ok x -> evolves None st (loop_state x)) as Hstep.
  { intros ([r st1] & H1 & H2)%bind_Ok. apply evolves_handle_socks in H1.
    eapply evolves_trans; [exact H1|].
    destruct r; try (injection H2 as <-; apply evolves_refl). by apply IH. }
  destruct (socks_state_get_status ss); try (by apply Hstep); try discriminate.
  apply bind_Ok in H. destruct H as (st1 & H1 & [= <-]).
  by apply evolves_attach_outbound in H1.
Qed.

Lemma evolves_socks_read (fuel : nat) (st st' : net_state) (env : os_env)
    (bev arg : ptr) :
  socks_read_cb fuel st env bev arg = Ok st' -> evolves None st st'.
Proof.
  unfold socks_read_cb.
  intros (conn & _ & (cn & _ & (_ & _ & (x & Hloop & H)%bind_Ok)%bind_Ok)%bind_Ok)
    %bind_Ok.
  apply evolves_socks_read_loop in Hloop.
  eapply evolves_trans; [exact Hloop|].
  destruct x as [st1|[r st1]]; cbn [loop_state].
  { injection H as <-. apply evolves_refl. }
  destruct r; try (injection H as <-; apply evolves_refl).
  - apply bind_Ok in H. destruct H as (st2 & H2 & H).
    apply bind_Ok in H. destruct H as (st3 & H3 & H).
    apply bind_Ok in H. destruct H as (st4 & H4 & H).
    eapply evolves_trans; [by eapply evolves_enable_write, H2|].
    eapply evolves_trans; [by eapply evolves_disable, H3|].
    eapply evolves_trans; [by eapply evolves_socks5_send_reply, H4|].
    by eapply evolves_setcb, H.
  - by apply evolves_close_conn in H.
Qed.

Lemma evolves_socks_event (st st' : net_state) (env : os_env) (bev : ptr)
    (what : Z) (arg : ptr) :
  bev <> PNull ->
  socks_event_cb st env bev what arg = Ok st' -> evolves (opened_by bev what) st st'.
Proof.
  intros Hbev. unfold socks_event_cb.
  intros (conn & _ & (cn & _ & (_ & _ & (have_addr & _ & H)%bind_Ok)%bind_Ok)%bind_Ok)
    %bind_Ok.
  destruct have_addr.
  - apply evolves_weaken.
    apply bind_Ok in H. destruct H as (st1 & H1 & H).
    apply bind_Ok in H. destruct H as (st2 & H2 & H).
    apply bind_Ok in H. destruct H as (_ & _ & H).
    apply bind_Ok in H. destruct H as (st3 & H3 & H).
    eapply evolves_trans; [by eapply evolves_enable_write, H1|].
    eapply evolves_trans; [by eapply evolves_disable, H2|].
    eapply evolves_trans; [by eapply evolves_socks_send_reply, H3|].
    by eapply evolves_setcb, H.
  - apply bind_Ok in H. destruct H as (st1 & H1 & H).
    eapply evolves_trans; [|exact (evolves_output_event _ _ _ _ _ Hbev H)].
    destruct (flag_set what BEV_EVENT_CONNECTED);
      [|injection H1 as <-; apply evolves_refl].
    apply bind_Ok in H1. destruct H1 as (_ & _ & H1).
    apply bind_Ok in H1. destruct H1 as (ss & _ & H1).
    apply bind_Ok in H1. destruct H1 as (_ & _ & H1).
    apply bind_Ok in H1. destruct H1 as (st2 & H2 & H1).
    apply bind_Ok in H1. destruct H1 as (st3 & H3 & H1).
    apply bind_Ok in H1. destruct H1 as (st4 & H4 & H1).
    apply bind_Ok in H1. destruct H1 as (st5 & H5 & H1).
    apply bind_Ok in H1. destruct H1 as (st6 & H6 & H1).
    apply bind_Ok in H1. destruct H1 as (inb & _ & H1).
    eapply evolves_trans; [by eapply evolves_store_socks, H2|].
    eapply evolves_trans; [by eapply evolves_socks_send_reply, H3|].
    eapply evolves_trans; [by eapply evolves_store_socks, H4|].
    eapply evolves_trans; [by eapply evolves_setcb, H5|].
    eapply evolves_trans; [by eapply evolves_setcb, H6|].
    destruct (negb (evbuffer_get_length inb =? 0)).
    + by apply evolves_downstream_read in H1.
    + injection H1 as <-. apply evolves_refl.
Qed.

Lemma evolves_run_data_cb (fuel : nat) (cb : bufferevent_data_cb)
    (st st' : net_state) (env : os_env) (bev arg : ptr) :
  run_data_cb fuel cb st env bev arg = Ok st' -> evolves None st st'.
Proof.
  destruct cb; cbn [run_data_cb].
  - apply evolves_upstream_read.
  - apply evolves_downstream_read.
  - apply evolves_socks_read.
  - apply evolves_close_conn_on_flush.
Qed.

Lemma evolves_run_event_cb (cb : bufferevent_event_cb) (st st' : net_state)
    (env : os_env) (bev : ptr) (what : Z) (arg : ptr) :
  bev <> PNull ->
  run_event_cb cb st env bev what arg = Ok st' ->
  evolves (opened_by bev what) st st'.
Proof.
  intros Hbev. destruct cb; cbn [run_event_cb].
  - intros H. apply evolves_weaken. by apply evolves_input_event in H.
  - by apply evolves_output_event.
  - by apply evolves_socks_event.
Qed.

(** An accepted socket adds at most one connection, closed and, unless it
    is a SOCKS connection, not reading. *)
Lemma accepted_conns (cb : evconnlistener_cb) (st st' : net_state) (env : os_env)
    (fd : Z) (lsn : listener_t) :
  run_listener_cb cb st env fd lsn = Ok st' ->
  forall c cn',
    conns st' !! c = Some cn' ->
    conns st !! c = Some cn' \/
    (conns st !! c = None /\ is_open cn' = false /\
     (conn_mode cn' <> LSN_SOCKS_CLIENT -> input_read cn' = false)).
Proof.
  intros Hrun c cn' Hc'.
  assert (flow_outcome st st' (xzalloc_conn st) (fun cn =>
            is_open cn = false /\
            (conn_mode cn <> LSN_SOCKS_CLIENT -> input_read cn = false)))
    as (_ & Hq & Hothers).
  { destruct cb; cbn [run_listener_cb] in Hrun.
    - apply client_flow in Hrun. destruct Hrun as (Hnew & Hq & Hothers).
      split; [done|]. split; [|done]. intros cn Hcn.
      destruct (Hq cn Hcn) as (? & ? & bi & ? & _ & _ & Hin & _ & _ & _ & Ho & Hr).
      split; [done|]. intros _. unfold input_read. by rewrite Hin.
    - apply server_flow in Hrun. destruct Hrun as (Hnew & Hq & Hothers).
      split; [done|]. split; [|done]. intros cn Hcn.
      destruct (Hq cn Hcn) as (? & ? & bi & ? & _ & _ & Hin & _ & _ & _ & Ho & Hr).
      split; [done|]. intros _. unfold input_read. by rewrite Hin.
    - apply socks_listener_flow in Hrun. destruct Hrun as (Hnew & Hq & Hothers).
      split; [done|]. split; [|done]. intros cn Hcn.
      destruct (Hq cn Hcn) as (_ & Ho & Hm). split; [done|]. by intros []. }
  destruct (decide (c = xzalloc_conn st)) as [->|Hne].
  - right. split; [apply xzalloc_conn_fresh|]. by apply Hq.
  - left. by rewrite <- Hothers.
Qed.

Lemma load_bev_not_null (st : net_state) (bev : ptr) (b : bufferevent) :
  load_bev st bev = Ok b -> bev <> PNull.
Proof. by destruct bev. Qed.

(** A turn of the event loop that is not an accept. *)
Lemma evolves_dispatch (fuel : nat) (st st' : net_state) (env : os_env)
    (e : reactor_event) :
  (forall lsn fd, e <> Accepted lsn fd) ->
  dispatch fuel st env e = Ok st' -> evolves (opened_in e) st st'.
Proof.
  intros Hacc. destruct e as [lsn fd|bev data|bev n|bev what]; cbn [dispatch opened_in].
  - by destruct (Hacc lsn fd).
  - intros (b & Hb & H)%bind_Ok. destruct (read_enabled b).
    + apply bind_Ok in H. destruct H as (st1 & H1 & H).
      eapply evolves_trans; [by eapply evolves_update_bev, H1|].
      destruct (readcb b); [by apply evolves_run_data_cb in H|].
      injection H as <-. apply evolves_refl.
    + injection H as <-. apply evolves_refl.
  - intros (b & Hb & H)%bind_Ok. destruct (write_enabled b).
    + apply bind_Ok in H. destruct H as (st1 & H1 & H).
      eapply evolves_trans; [by eapply evolves_update_bev, H1|].
      destruct (writecb b); [|injection H as <-; apply evolves_refl].
      destruct (evbuffer_get_length _ =? 0); [by apply evolves_run_data_cb in H|].
      injection H as <-. apply evolves_refl.
    + injection H as <-. apply evolves_refl.
  - intros (b & Hb & H)%bind_Ok. apply load_bev_not_null in Hb.
    destruct (eventcb b); [by eapply evolves_run_event_cb|].
    injection H as <-. apply evolves_weaken, evolves_refl.
Qed.

Lemma quiet_dispatch (fuel : nat) (st st' : net_state) (env : os_env)
    (e : reactor_event) :
  closed_input_quiet false st -> dispatch fuel st env e = Ok st' ->
  closed_input_quiet false st'.
Proof.
  intros Hinv Hd c cn' Hc' Hmode Hclosed.
  destruct e as [lsn fd|bev data|bev n|bev what].
  1:{ cbn [dispatch] in Hd. destruct (listener lsn) as [l|].
      - destruct (accepted_conns _ _ _ _ _ _ Hd c cn' Hc') as [Hold|(_ & _ & Hnew)].
        + by apply (Hinv c cn').
        + by apply Hnew, Hmode.
      - injection Hd as <-. by apply (Hinv c cn'). }
  all: apply evolves_dispatch in Hd; [|done];
    destruct (Hd c cn' Hc') as (cn & Hc & Hm & [(Ho & Hr)|(_ & Ho & _)]);
    [|congruence];
    destruct (input_read cn') eqn:Hread; [|done];
    rewrite <- (Hinv c cn Hc);
    [ by symmetry; apply Hr
    | intros _; rewrite <- Hm; by apply Hmode
    | congruence ].
Qed.

Lemma quiet_run (fuel : nat) (es : list (os_env * reactor_event))
    (st st' : net_state) :
  closed_input_quiet false st -> run fuel st es = Ok st' ->
  closed_input_quiet false st'.
Proof.
  revert st. induction es as [|[env e] es IH]; intros st Hinv; cbn [run].
  - by intros [= <-].
  - intros (st1 & H1 & H)%bind_Ok. eapply IH; [|exact H].
    by eapply quiet_dispatch.
Qed.

(** C4, as the code has it.  In every state the event loop reaches, a
    connection in simple-client or simple-server mode that is not open yet
    has reading disabled on its input stream, and bytes that arrive on its
    accepted socket are left there: the turn changes nothing.  (A SOCKS
    connection reads its input from the moment it is accepted.)  And in
    any mode, one turn of the
    event loop takes [is_open] of a connection from false to true only on
    an event with [BEV_EVENT_CONNECTED] on that connection's outbound
    stream, and reading on its input stream is enabled when it returns. *)
Theorem input_quiet_until_connected :
  (forall fuel es st,
     run fuel initial_state es = Ok st ->
     closed_input_quiet false st /\
     (forall c cn bi fuel' env data,
        conns st !! c = Some cn -> conn_mode cn <> LSN_SOCKS_CLIENT ->
        is_open cn = false -> input cn = Some bi ->
        dispatch fuel' st env (Readable (PBev c Input) data) = Ok st)) /\
  (forall fuel st env e st' c cn cn',
     dispatch fuel st env e = Ok st' ->
     conns st !! c = Some cn -> conns st' !! c = Some cn' ->
     is_open cn = false -> is_open cn' = true ->
     exists what,
       e = Happened (PBev c Output) what /\
       flag_set what BEV_EVENT_CONNECTED = true /\
       input_read cn' = true).
Proof.
  split.
  - intros fuel es st Hrun.
    assert (closed_input_quiet false st) as Hquiet.
    { revert Hrun. apply quiet_run. intros c cn Hc. by cbn in Hc. }
    split; [done|]. intros c cn bi fuel' env data Hc Hmode Hclosed Hin.
    cbn [dispatch]. rewrite (load_bev_PBev st c Input cn Hc). cbn [get_side].
    rewrite Hin. rstep.
    specialize (Hquiet c cn Hc (fun _ => Hmode) Hclosed).
    unfold input_read in Hquiet. rewrite Hin in Hquiet. by rewrite Hquiet.
  - intros fuel st env e st' c cn cn' Hd Hc Hc' Hclosed Hopen.
    destruct e as [lsn fd|bev data|bev n|bev what].
    1:{ cbn [dispatch] in Hd. destruct (listener lsn) as [l|].
        - destruct (accepted_conns _ _ _ _ _ _ Hd c cn' Hc') as [Hold|(Hnone & _)];
            congruence.
        - injection Hd as <-. congruence. }
    all: apply evolves_dispatch in Hd; [|done];
      destruct (Hd c cn' Hc') as (cn0 & Hc0 & Hm & [(Ho & Hr)|(Htag & Ho & Hr)]);
      [congruence|].
    1,2: discriminate.
    exists what.
    destruct bev as [| |c0 []]; cbn [opened_in opened_by] in Htag;
      try discriminate Htag.
    destruct (flag_set what BEV_EVENT_CONNECTED) eqn:Hflag; [|discriminate Htag].
    injection Htag as ->. done.
Qed.

(** ** Listeners *)

Lemma foldl_listener_free (sl : list listener_t) (st : net_state) :
  listeners (foldl listener_free st sl) = listeners st /\
  connections (foldl listener_free st sl) = connections st /\
  shutting_down (foldl listener_free st sl) = shutting_down st /\
  conns (foldl listener_free st sl) = conns st /\
  calls (foldl listener_free st sl) = calls st ++ flat_map listener_frees sl.
Proof.
  revert st. induction sl as [|lsn sl IH]; intros st; cbn [foldl flat_map].
  - by rewrite app_nil_r.
  - destruct (IH (listener_free st lsn)) as (-> & -> & -> & -> & ->).
    unfold listener_free, listener_frees.
    destruct (listener lsn), (proto_params lsn); cbn;
      rewrite <- ?app_assoc; done.
Qed.

Lemma free_all_listeners_calls (st : net_state) :
  calls (free_all_listeners st) =
  calls st ++ flat_map listener_frees (default [] (listeners st)).
Proof.
  unfold free_all_listeners. destruct (listeners st) as [sl|]; cbn.
  - apply foldl_listener_free.
  - by rewrite app_nil_r.
Qed.

(** X1.  [free_all_listeners] frees every registered listener in list
    order, the libevent listener first and its parameters after it, sets
    the list to NULL and touches neither the connections nor the
    shutdown flag; called again it does nothing. *)
Theorem free_all_listeners_releases (st : net_state) :
  let st' := free_all_listeners st in
  listeners st' = None /\
  connections st' = connections st /\ shutting_down st' = shutting_down st /\
  conns st' = conns st /\
  calls st' = calls st ++ flat_map listener_frees (default [] (listeners st)) /\
  free_all_listeners st' = st'.
Proof.
  unfold free_all_listeners. destruct (listeners st) as [sl|] eqn:Hl; cbn.
  - destruct (foldl_listener_free sl st) as (_ & -> & -> & -> & ->). done.
  - rewrite Hl, app_nil_r. done.
Qed.

Lemma params_frees_app (p : nat) (st st' : net_state) (l : list call) :
  calls st' = calls st ++ l ->
  params_frees p st' =
  (params_frees p st + length (filter (fun k => is_params_free p k = true) l))%nat.
Proof. unfold params_frees. intros ->. by rewrite filter_app, length_app. Qed.

Lemma frees_of_listeners (p : nat) (sl : list listener_t) :
  length (filter (fun k => is_params_free p k = true) (flat_map listener_frees sl)) =
  length (filter (fun q => q = p)
            (flat_map (fun lsn => match proto_params lsn with
                                  | Some p => [params_id p]
                                  | None => []
                                  end) sl)).
Proof.
  induction sl as [|lsn sl IH]; [done|]. cbn [flat_map].
  rewrite !filter_app, !length_app, IH. f_equal.
  unfold listener_frees. rewrite filter_app, length_app.
  destruct (listener lsn); cbn; destruct (proto_params lsn) as [q|]; cbn; try done.
  all: rewrite ?filter_cons, ?filter_nil; cbn [is_params_free];
    destruct (Nat.eqb_spec p (params_id q)) as [->|Hne];
    repeat case_decide; try done; congruence.
Qed.

Lemma params_frees_free_all (p : nat) (st : net_state) :
  params_frees p (free_all_listeners st) =
  (params_frees p st + length (filter (fun q => q = p) (owned_params st)))%nat.
Proof.
  rewrite (params_frees_app p st _ _ (free_all_listeners_calls st)).
  f_equal. apply frees_of_listeners.
Qed.

Lemma listener_new_balance (p : nat) (st : net_state) (ok : bool)
    (params : protocol_params_t) :
  let st' := (listener_new st ok params).1 in
  (params_frees p st' + length (filter (fun q => q = p) (owned_params st')))%nat =
  (params_frees p st + length (filter (fun q => q = p) (owned_params st))
   + if decide (params_id params = p) then 1 else 0)%nat.
Proof.
  unfold listener_new. destruct ok; cbn [evconnlistener_new_bind listener fst].
  - unfold owned_params. cbn. rewrite flat_map_app, filter_app, length_app. cbn.
    change (params_frees p (set_listeners st _)) with (params_frees p st).
    destruct (listeners st); case_decide; cbn; unfold params_frees; lia.
  - rewrite (params_frees_app p st (log st (CallParamsFree (params_id params)))
               [CallParamsFree (params_id params)]) by done.
    change (owned_params (log st _)) with (owned_params st).
    rewrite filter_cons, filter_nil. cbn [is_params_free].
    destruct (Nat.eqb_spec p (params_id params)); repeat case_decide; cbn;
      try lia; congruence.
Qed.

(** X2.  Over any sequence of [listener_new] calls, whatever each bind
    answers, followed by [free_all_listeners]: a parameter object is freed
    once for each time it was handed to [listener_new], and once for each
    listener that held it before; at once when the bind fails, with its
    listener otherwise. *)
Theorem params_freed_exactly_once (st : net_state)
    (ps : list (bool * protocol_params_t)) (p : nat) :
  params_frees p (free_all_listeners (listeners_run st ps)) =
  (params_frees p st + length (filter (fun q => q = p) (owned_params st))
   + handed_over p ps)%nat.
Proof.
  rewrite params_frees_free_all. revert st.
  induction ps as [|[ok params] ps IH]; intros st; cbn [listeners_run foldl].
  - unfold handed_over. cbn. lia.
  - unfold listeners_run in IH. rewrite IH. cbn [fst snd].
    rewrite (listener_new_balance p st ok params).
    unfold handed_over. rewrite filter_cons. cbn [snd]. case_decide; cbn; lia.
Qed.

(** ** What a callback may do to a connection *)

Lemma conn_ages_refl (cn : conn_t) : conn_ages cn cn.
Proof. unfold conn_ages. tauto. Qed.

Lemma conn_ages_trans (a b c : conn_t) :
  conn_ages a b -> conn_ages b c -> conn_ages a c.
Proof.
  unfold conn_ages. intros (? & ? & ? & ? & ? & ? & ? & ?) (? & ? & ? & ? & ? & ? & ? & ?).
  split; [congruence|]. repeat split; try tauto.
Qed.

Lemma ages_refl (st : net_state) : ages st st.
Proof.
  split; [|done]. intros c cn Hc. exists cn. split; [done|apply conn_ages_refl].
Qed.

Lemma ages_trans (st1 st2 st3 : net_state) :
  ages st1 st2 -> ages st2 st3 -> ages st1 st3.
Proof.
  intros (H12 & R12) (H23 & R23). split; [|tauto].
  intros c cn3 Hc3. destruct (H23 c cn3 Hc3) as (cn2 & Hc2 & A23).
  destruct (H12 c cn2 Hc2) as (cn1 & Hc1 & A12).
  exists cn1. split; [done|]. by apply (conn_ages_trans cn1 cn2 cn3).
Qed.

Lemma registry_ok_same (st st' : net_state) :
  connections st' = connections st ->
  (forall c, is_Some (conns st' !! c) <-> is_Some (conns st !! c)) ->
  registry_ok st -> registry_ok st'.
Proof.
  unfold registry_ok, registry. intros -> Hdom (Hne & Hnodup & Hmem).
  split; [done|]. split; [done|]. intros c. by rewrite Hmem, Hdom.
Qed.

Lemma ages_same (st st' : net_state) :
  conns st' = conns st -> connections st' = connections st -> ages st st'.
Proof.
  intros Hc Hr. split.
  - intros c cn. rewrite Hc. intros Hcn. exists cn. split; [done|apply conn_ages_refl].
  - apply registry_ok_same; [done|]. intros c. by rewrite Hc.
Qed.

Lemma ages_store (st : net_state) (c : conn_id) (cn cn' : conn_t) :
  conns st !! c = Some cn -> conn_ages cn cn' -> ages st (store_conn st c cn').
Proof.
  intros Hc Hages. split.
  - intros c' cn'' Hc'. cbn in Hc'. destruct (decide (c = c')) as [<-|Hne].
    + rewrite lookup_insert_eq in Hc'. injection Hc' as <-. eauto.
    + rewrite lookup_insert_ne in Hc' by done. exists cn''.
      split; [done|apply conn_ages_refl].
  - apply registry_ok_same; [done|]. intros c'. cbn.
    destruct (decide (c = c')) as [<-|Hne].
    + rewrite lookup_insert_eq, Hc. split; eauto.
    + by rewrite lookup_insert_ne.
Qed.

Lemma ages_update_bev (st st' : net_state) (p : ptr)
    (f : bufferevent -> bufferevent) :
  update_bev st p f = Ok st' -> ages st st'.
Proof.
  intros (c & s & cn & b & -> & Hc & Hs & ->)%update_bev_inv.
  apply (ages_store st c cn); [done|].
  unfold conn_ages. destruct s; cbn in *; rewrite ?Hs; repeat split; eauto.
Qed.

Lemma filter_ne_nodup (sl : list conn_id) (c : conn_id) :
  NoDup sl -> NoDup (smartlist_remove sl c).
Proof. apply NoDup_filter. Qed.

Lemma ages_close_conn (st st' : net_state) (c : conn_id) :
  close_conn st c = Ok st' -> ages st st'.
Proof.
  intros Hclose. pose proof (close_conn_globals _ _ _ Hclose) as (sl & Hsl & _ & Hreg).
  apply close_conn_inv in Hclose. destruct Hclose as (_ & _ & _ & Hdel).
  split.
  - intros c' cn'. rewrite Hdel. intros (_ & Hc')%lookup_delete_Some.
    exists cn'. split; [done|apply conn_ages_refl].
  - unfold registry_ok, registry. rewrite Hsl. cbn. intros (_ & Hnodup & Hmem).
    assert (forall c', c' ∈ smartlist_remove sl c <-> is_Some (conns st' !! c')) as Hmem'.
    { intros c'. unfold smartlist_remove. rewrite list_elem_of_filter, Hmem, Hdel.
      destruct (decide (c' = c)) as [->|Hne].
      - rewrite lookup_delete_eq. split; [tauto|]. by intros [? ?].
      - rewrite lookup_delete_ne by done. tauto. }
    destruct Hreg as [(Hnil & -> & _)|(Hne & -> & _)]; cbn.
    + split; [done|]. split; [constructor|]. intros c'.
      rewrite <- Hmem', Hnil. done.
    + split; [congruence|]. split; [by apply filter_ne_nodup|done].
Qed.

Lemma ages_close_conn_on_flush (st st' : net_state) (bev arg : ptr) :
  close_conn_on_flush st bev arg = Ok st' -> ages st st'.
Proof.
  unfold close_conn_on_flush.
  intros (conn & _ & (out & _ & H)%bind_Ok)%bind_Ok.
  destruct (evbuffer_get_length out =? 0).
  - by apply ages_close_conn in H.
  - injection H as <-. apply ages_refl.
Qed.

Lemma ages_set_proto (st : net_state) (c : conn_id) (cn : conn_t)
    (p : option protocol_t) :
  load_conn st c = Ok cn -> ages st (store_conn st c (set_proto cn p)).
Proof.
  intros Hc%load_conn_Ok. apply (ages_store st c cn); [done|].
  unfold conn_ages. cbn. tauto.
Qed.

Lemma ages_send_through (st st' : net_state) (conn : conn_id) (src dst : ptr)
    (r : Z) :
  send_through st conn src dst = Ok (r, st') -> ages st st'.
Proof.
  unfold send_through.
  intros (cn & Hc & (p & _ & (inb & _ & (outb & _ & H)%bind_Ok)%bind_Ok)%bind_Ok)%bind_Ok.
  destruct (proto_send p inb outb) as [[[r' p'] inb'] outb'].
  apply bind_Ok in H. destruct H as (st1 & H1 & H).
  apply bind_Ok in H. destruct H as (st2 & H2 & H). injection H as <- <-.
  eapply ages_trans; [by apply ages_set_proto|].
  eapply ages_trans; [by eapply ages_update_bev, H1|].
  by eapply ages_update_bev, H2.
Qed.

Lemma ages_recv_through (st st' : net_state) (conn : conn_id) (src dst : ptr)
    (r : recv_ret) :
  recv_through st conn src dst = Ok (r, st') -> ages st st'.
Proof.
  unfold recv_through.
  intros (cn & Hc & (p & _ & (inb & _ & (outb & _ & H)%bind_Ok)%bind_Ok)%bind_Ok)%bind_Ok.
  destruct (proto_recv p inb outb) as [[[r' p'] inb'] outb'].
  apply bind_Ok in H. destruct H as (st1 & H1 & H).
  apply bind_Ok in H. destruct H as (st2 & H2 & H). injection H as <- <-.
  eapply ages_trans; [by apply ages_set_proto|].
  eapply ages_trans; [by eapply ages_update_bev, H1|].
  by eapply ages_update_bev, H2.
Qed.

Lemma ages_upstream_read (st st' : net_state) (bev arg : ptr) :
  upstream_read_cb st bev arg = Ok st' -> ages st st'.
Proof.
  unfold upstream_read_cb.
  intros (conn & _ & (other & _ & ([r st1] & Hs & H)%bind_Ok)%bind_Ok)%bind_Ok.
  apply ages_send_through in Hs.
  eapply ages_trans; [exact Hs|]. destruct (r <? 0).
  - by apply ages_close_conn in H.
  - injection H as <-. apply ages_refl.
Qed.

Lemma ages_downstream_read (st st' : net_state) (bev arg : ptr) :
  downstream_read_cb st bev arg = Ok st' -> ages st st'.
Proof.
  unfold downstream_read_cb.
  intros (conn & _ & (other & _ & ([r st1] & Hr & H)%bind_Ok)%bind_Ok)%bind_Ok.
  apply ages_recv_through in Hr.
  eapply ages_trans; [exact Hr|]. destruct r.
  - injection H as <-. apply ages_refl.
  - by apply ages_close_conn in H.
  - apply bind_Ok in H. destruct H as (cn & _ & H).
    apply bind_Ok in H. destruct H as ([r2 st2] & Hs & H). injection H as <-.
    by apply ages_send_through in Hs.
Qed.

Lemma ages_error_or_eof (st st' : net_state) (conn : conn_id)
    (bev_err bev_flush : ptr) :
  error_or_eof st conn bev_err bev_flush = Ok st' -> ages st st'.
Proof.
  unfold error_or_eof. intros (cn & Hc & H)%bind_Ok.
  destruct (flushing cn || negb (is_open cn)) eqn:Hnow;
    [by apply ages_close_conn in H|].
  apply bind_Ok in H. destruct H as (out & _ & H).
  destruct (0 =? evbuffer_get_length out); [by apply ages_close_conn in H|].
  apply bind_Ok in H. destruct H as (st1 & H1 & H).
  apply bind_Ok in H. destruct H as (st2 & H2 & H).
  apply bind_Ok in H. destruct H as (st3 & H3 & H4).
  apply load_conn_Ok in Hc. apply orb_false_iff in Hnow. destruct Hnow as (_ & Hopen).
  apply negb_false_iff in Hopen.
  eapply ages_trans.
  { apply (ages_store st conn cn (set_flushing cn true)); [done|].
    unfold conn_ages. cbn. tauto. }
  eapply ages_trans; [by eapply ages_update_bev, H1|].
  eapply ages_trans; [by eapply ages_update_bev, H2|].
  eapply ages_trans; [by eapply ages_update_bev, H3|].
  by eapply ages_update_bev, H4.
Qed.

Lemma ages_input_event (st st' : net_state) (bev : ptr) (what : Z) (arg : ptr) :
  input_event_cb st bev what arg = Ok st' -> ages st st'.
Proof.
  unfold input_event_cb.
  intros (conn & _ & (cn & _ & (_ & _ & (_ & _ & (_ & _ & H)%bind_Ok)%bind_Ok)
    %bind_Ok)%bind_Ok)%bind_Ok.
  by apply ages_error_or_eof in H.
Qed.

Lemma ages_output_event (st st' : net_state) (bev : ptr) (what : Z) (arg : ptr) :
  bev <> PNull ->
  output_event_cb st bev what arg = Ok st' -> ages st st'.
Proof.
  intros Hbev. unfold output_event_cb.
  intros (conn & _ & (cn & Hc & (u & Hassert & H)%bind_Ok)%bind_Ok)%bind_Ok.
  apply load_conn_Ok in Hc.
  destruct (flushing cn || flag_set what error_events).
  { by apply ages_error_or_eof in H. }
  destruct (flag_set what BEV_EVENT_CONNECTED); [|discriminate].
  assert (is_Some (output cn)) as Hout.
  { unfold obfs_assert, ptr_eqb in Hassert. case_bool_decide as Heq; [|discriminate].
    unfold field_ptr in Heq. cbn in Heq. destruct (output cn); [eauto|done]. }
  eapply ages_trans; [|by eapply ages_update_bev, H].
  apply (ages_store st conn cn (set_is_open cn true)); [done|].
  unfold conn_ages. cbn. tauto.
Qed.

Lemma load_socks_update_bev (st st' : net_state) (p : ptr)
    (f : bufferevent -> bufferevent) (c : conn_id) :
  update_bev st p f = Ok st' -> load_socks st' c = load_socks st c.
Proof.
  intros (_ & Hcore)%update_bev_frame. specialize (Hcore c).
  unfold load_socks, load_conn.
  destruct (conns st' !! c) as [cn'|], (conns st !! c) as [cn|]; try done.
  cbn in *. injection Hcore as _ _ Hss _ _. by rewrite Hss.
Qed.

Lemma ages_store_socks (st st' : net_state) (c : conn_id)
    (x : option socks_state_t) :
  (is_Some x -> exists ss, load_socks st c = Ok ss) ->
  store_socks st c x = Ok st' -> ages st st'.
Proof.
  intros Hx. unfold store_socks. intros (cn & Hc%load_conn_Ok & [= <-])%bind_Ok.
  apply (ages_store st c cn); [done|].
  unfold conn_ages. cbn. repeat split; try tauto.
  intros Hsome. destruct (Hx Hsome) as (ss & Hss).
  unfold load_socks, load_conn in Hss. rewrite Hc in Hss. cbn in Hss.
  destruct (socks_state cn); [eauto|done].
Qed.

Lemma ages_socks_send_reply (st st' : net_state) (conn : conn_id) (bev : ptr)
    (error : Z) :
  socks_send_reply_on st conn bev error = Ok st' -> ages st st'.
Proof.
  unfold socks_send_reply_on.
  intros (ss & Hss & (outb & _ & H)%bind_Ok)%bind_Ok.
  destruct (socks_send_reply ss outb error) as [ss' outb'].
  apply bind_Ok in H. destruct H as (st1 & H1 & H2).
  eapply ages_trans; [by eapply ages_update_bev, H1|].
  eapply ages_store_socks; [|exact H2].
  intros _. exists ss. by rewrite (load_socks_update_bev _ _ _ _ _ H1).
Qed.

Lemma ages_socks5_send_reply (st st' : net_state) (conn : conn_id) (bev : ptr)
    (code : Z) :
  socks5_send_reply_on st conn bev code = Ok st' -> ages st st'.
Proof.
  unfold socks5_send_reply_on.
  intros (outb & _ & (ss & Hss & H)%bind_Ok)%bind_Ok.
  destruct (socks5_send_reply outb ss code) as [ss' outb'].
  apply bind_Ok in H. destruct H as (st1 & H1 & H2).
  eapply ages_trans; [by eapply ages_update_bev, H1|].
  eapply ages_store_socks; [|exact H2].
  intros _. exists ss. by rewrite (load_socks_update_bev _ _ _ _ _ H1).
Qed.

Lemma ages_handle_socks (st st' : net_state) (conn : conn_id) (bev : ptr)
    (r : socks_ret) :
  handle_socks_on st conn bev = Ok (r, st') -> ages st st'.
Proof.
  unfold handle_socks_on.
  intros (inb & _ & (outb & _ & (ss & Hss & H)%bind_Ok)%bind_Ok)%bind_Ok.
  destruct (handle_socks inb outb ss) as [[[r' inb'] outb'] ss'].
  apply bind_Ok in H. destruct H as (st1 & H1 & H).
  apply bind_Ok in H. destruct H as (st2 & H2 & H). injection H as <- <-.
  eapply ages_trans; [by eapply ages_update_bev, H1|].
  eapply ages_store_socks; [|exact H2].
  intros _. exists ss. by rewrite (load_socks_update_bev _ _ _ _ _ H1).
Qed.

Lemma ages_handshake_into (st st' : net_state) (conn : conn_id) (s : side)
    (r : Z) :
  handshake_into st conn s = Ok (r, st') -> ages st st'.
Proof.
  unfold handshake_into. intros (cn & Hc%load_conn_Ok & H)%bind_Ok.
  destruct (proto cn) as [p|]; [|discriminate].
  destruct (get_side cn s) as [b|] eqn:Hs; [|discriminate].
  destruct (proto_handshake p (bev_output b)) as [[r' p'] out].
  injection H as <- <-.
  eapply ages_trans; [|by apply ages_same].
  apply (ages_store st conn cn _ Hc).
  unfold conn_ages. destruct s; cbn in *; rewrite ?Hs; repeat split; eauto.
Qed.

Lemma ages_attach_outbound (st st' : net_state) (env : os_env) (conn : conn_id) :
  socks_attach_outbound st env conn = Ok st' -> ages st st'.
Proof.
  unfold socks_attach_outbound. intros (ss & _ & H)%bind_Ok.
  destruct (socks_state_get_address ss) as [r [[af addr] port]].
  apply bind_Ok in H. destruct H as (u & _ & H).
  apply bind_Ok in H. destruct H as (cn & Hc%load_conn_Ok & H).
  rewrite load_conn_store in H. cbn [mbind result_bind] in H.
  destruct (new_output_ok env);
    [|by apply bind_Ok in H; destruct H as (? & H1 & _)].
  apply bind_Ok in H. destruct H as (st1 & H1 & H).
  apply bind_Ok in H. destruct H as ([h st2] & H2 & H).
  eapply ages_trans.
  { apply (ages_store st conn cn
             (set_output cn (Some (bufferevent_socket_new (-1))))); [done|].
    unfold conn_ages. cbn. repeat split; eauto. }
  eapply ages_trans; [by eapply ages_update_bev, H1|].
  eapply ages_trans; [by eapply ages_handshake_into, H2|].
  destruct (h <? 0); [by apply ages_close_conn in H|].
  apply bind_Ok in H. destruct H as (st3 & H3 & H).
  apply (ages_trans _ (log st2 (CallConnectHostname conn af addr port)));
    [by apply ages_same|].
  apply (ages_trans _ st3); [exact (ages_update_bev _ _ _ _ H3)|].
  destruct (connect_r env <? 0).
  - by apply ages_close_conn in H.
  - apply bind_Ok in H. destruct H as (cn3 & _ & H). by eapply ages_update_bev, H.
Qed.

Lemma ages_socks_read_loop (fuel : nat) (st : net_state) (env : os_env)
    (conn : conn_id) (bev : ptr) (x : net_state + socks_ret * net_state) :
  socks_read_loop fuel st env conn bev = Ok x -> ages st (loop_state x).
Proof.
  revert st. induction fuel as [|fuel IH]; intros st; cbn [socks_read_loop];
    [discriminate|].
  intros (ss & _ & H)%bind_Ok.
  assert ((handle_socks_on st conn bev ≫= λ '(r, st0),
             match r with
             | SOCKS_GOOD => socks_read_loop fuel st0 env conn bev
             | _ => Ok (inr (r, st0))
             end) = Ok x -> ages st (loop_state x)) as Hstep.
  { intros ([r st1] & H1 & H2)%bind_Ok. apply ages_handle_socks in H1.
    eapply ages_trans; [exact H1|].
    destruct r; try (injection H2 as <-; apply ages_refl). by apply IH. }
  destruct (socks_state_get_status ss); try (by apply Hstep); try discriminate.
  apply bind_Ok in H. destruct H as (st1 & H1 & [= <-]).
  by apply ages_attach_outbound in H1.
Qed.

Lemma ages_socks_read (fuel : nat) (st st' : net_state) (env : os_env)
    (bev arg : ptr) :
  socks_read_cb fuel st env bev arg = Ok st' -> ages st st'.
Proof.
  unfold socks_read_cb.
  intros (conn & _ & (cn & _ & (_ & _ & (x & Hloop & H)%bind_Ok)%bind_Ok)%bind_Ok)
    %bind_Ok.
  apply ages_socks_read_loop in Hloop.
  eapply ages_trans; [exact Hloop|].
  destruct x as [st1|[r st1]]; cbn [loop_state].
  { injection H as <-. apply ages_refl. }
  destruct r; try (injection H as <-; apply ages_refl).
  - apply bind_Ok in H. destruct H as (st2 & H2 & H).
    apply bind_Ok in H. destruct H as (st3 & H3 & H).
    apply bind_Ok in H. destruct H as (st4 & H4 & H).
    eapply ages_trans; [by eapply ages_update_bev, H2|].
    eapply ages_trans; [by eapply ages_update_bev, H3|].
    eapply ages_trans; [by eapply ages_socks5_send_reply, H4|].
    by eapply ages_update_bev, H.
  - by apply ages_close_conn in H.
Qed.

Lemma ages_socks_event (st st' : net_state) (env : os_env) (bev : ptr)
    (what : Z) (arg : ptr) :
  bev <> PNull ->
  socks_event_cb st env bev what arg = Ok st' -> ages st st'.
Proof.
  intros Hbev. unfold socks_event_cb.
  intros (conn & _ & (cn & _ & (_ & _ & (have_addr & _ & H)%bind_Ok)%bind_Ok)%bind_Ok)
    %bind_Ok.
  destruct have_addr.
  - apply bind_Ok in H. destruct H as (st1 & H1 & H).
    apply bind_Ok in H. destruct H as (st2 & H2 & H).
    apply bind_Ok in H. destruct H as (_ & _ & H).
    apply bind_Ok in H. destruct H as (st3 & H3 & H).
    eapply ages_trans; [by eapply ages_update_bev, H1|].
    eapply ages_trans; [by eapply ages_update_bev, H2|].
    eapply ages_trans; [by eapply ages_socks_send_reply, H3|].
    by eapply ages_update_bev, H.
  - apply bind_Ok in H. destruct H as (st1 & H1 & H).
    eapply ages_trans; [|exact (ages_output_event _ _ _ _ _ Hbev H)].
    destruct (flag_set what BEV_EVENT_CONNECTED);
      [|injection H1 as <-; apply ages_refl].
    apply bind_Ok in H1. destruct H1 as (_ & _ & H1).
    apply bind_Ok in H1. destruct H1 as (ss & Hss & H1).
    apply bind_Ok in H1. destruct H1 as (_ & _ & H1).
    apply bind_Ok in H1. destruct H1 as (st2 & H2 & H1).
    apply bind_Ok in H1. destruct H1 as (st3 & H3 & H1).
    apply bind_Ok in H1. destruct H1 as (st4 & H4 & H1).
    apply bind_Ok in H1. destruct H1 as (st5 & H5 & H1).
    apply bind_Ok in H1. destruct H1 as (st6 & H6 & H1).
    apply bind_Ok in H1. destruct H1 as (inb & _ & H1).
    eapply ages_trans; [eapply ages_store_socks, H2; eauto|].
    eapply ages_trans; [by eapply ages_socks_send_reply, H3|].
    eapply ages_trans; [eapply ages_store_socks, H4; by intros [? ?]|].
    eapply ages_trans; [by eapply ages_update_bev, H5|].
    eapply ages_trans; [by eapply ages_update_bev, H6|].
    destruct (negb (evbuffer_get_length inb =? 0)).
    + by apply ages_downstream_read in H1.
    + injection H1 as <-. apply ages_refl.
Qed.

Lemma ages_run_data_cb (fuel : nat) (cb : bufferevent_data_cb)
    (st st' : net_state) (env : os_env) (bev arg : ptr) :
  run_data_cb fuel cb st env bev arg = Ok st' -> ages st st'.
Proof.
  destruct cb; cbn [run_data_cb].
  - apply ages_upstream_read.
  - apply ages_downstream_read.
  - apply ages_socks_read.
  - apply ages_close_conn_on_flush.
Qed.

Lemma ages_run_event_cb (cb : bufferevent_event_cb) (st st' : net_state)
    (env : os_env) (bev : ptr) (what : Z) (arg : ptr) :
  bev <> PNull ->
  run_event_cb cb st env bev what arg = Ok st' -> ages st st'.
Proof.
  intros Hbev. destruct cb; cbn [run_event_cb].
  - apply ages_input_event.
  - by apply ages_output_event.
  - by apply ages_socks_event.
Qed.

(** A turn of the event loop that is not an accept. *)
Lemma ages_dispatch (fuel : nat) (st st' : net_state) (env : os_env)
    (e : reactor_event) :
  (forall lsn fd, e <> Accepted lsn fd) ->
  dispatch fuel st env e = Ok st' -> ages st st'.
Proof.
  intros Hacc. destruct e as [lsn fd|bev data|bev n|bev what]; cbn [dispatch].
  - by destruct (Hacc lsn fd).
  - intros (b & Hb & H)%bind_Ok. destruct (read_enabled b).
    + apply bind_Ok in H. destruct H as (st1 & H1 & H).
      eapply ages_trans; [by eapply ages_update_bev, H1|].
      destruct (readcb b); [by apply ages_run_data_cb in H|].
      injection H as <-. apply ages_refl.
    + injection H as <-. apply ages_refl.
  - intros (b & Hb & H)%bind_Ok. destruct (write_enabled b).
    + apply bind_Ok in H. destruct H as (st1 & H1 & H).
      eapply ages_trans; [by eapply ages_update_bev, H1|].
      destruct (writecb b); [|injection H as <-; apply ages_refl].
      destruct (evbuffer_get_length _ =? 0); [by apply ages_run_data_cb in H|].
      injection H as <-. apply ages_refl.
    + injection H as <-. apply ages_refl.
  - intros (b & Hb & H)%bind_Ok. apply load_bev_not_null in Hb.
    destruct (eventcb b); [by eapply ages_run_event_cb|].
    injection H as <-. apply ages_refl.
Qed.

(** ** The outcome of an accept *)

Lemma listener_err_leaf (st st0 st' : net_state) (conn : conn_id) (fd fd0 : Z)
    (pre : list call) (fd_owned : Prop) :
  conns st !! conn = None ->
  calls st0 = calls st ++ pre ->
  Forall (fun k => is_teardown k = false) pre ->
  connections st0 = connections st ->
  delete conn (conns st0) = conns st ->
  (fd0 = fd /\ ~ fd_owned \/ fd0 = -1 /\ fd_owned) ->
  listener_err st0 conn fd0 = Ok st' ->
  turned_away st st' conn fd fd_owned.
Proof.
  intros Hfresh Hpre Hquiet Hreg Hdel Hfd.
  unfold listener_err. intros (st1 & Hfree & H)%bind_Ok.
  pose proof (conn_free_globals _ _ _ Hfree) as (Hreg1 & _).
  apply conn_free_inv in Hfree. destruct Hfree as (Hcalls1 & Hconns1).
  assert (CallCloseSocket fd ∈ pre -> False) as Hnot.
  { intros Hin. rewrite Forall_forall in Hquiet. by specialize (Hquiet _ Hin). }
  assert (forall l, CallCloseSocket fd ∈ pre ++ l -> In (CallCloseSocket fd) l) as Hin.
  { intros l [Hl|Hl]%list_elem_of_In%in_app_or; [|done].
    by destruct Hnot; apply list_elem_of_In. }
  destruct (0 <=? fd0) eqn:Hle; injection H as <-.
  - split; [cbn; congruence|]. split; [cbn; congruence|].
    exists (pre ++ [CallConnFree conn; CallCloseSocket fd0]).
    split; [cbn; rewrite Hcalls1, Hpre, <- !app_assoc; done|].
    split; [apply list_elem_of_In, in_or_app; right; by left|].
    apply Z.leb_le in Hle. destruct Hfd as [(-> & Hno)|(-> & _)]; [|lia].
    split; [done|]. intros _. apply list_elem_of_In, in_or_app. right. cbn. tauto.
  - split; [congruence|]. split; [congruence|].
    exists (pre ++ [CallConnFree conn]).
    split; [rewrite Hcalls1, Hpre, <- !app_assoc; done|].
    split; [apply list_elem_of_In, in_or_app; right; by left|].
    apply Z.leb_gt in Hle. split.
    + intros [Hx|[]]%Hin. discriminate Hx.
    + intros (Hfd0 & Hno). destruct Hfd as [(-> & _)|(_ & Howned)]; [lia|done].
Qed.

Ltac gave_up st st' conn fd fd0 pre :=
  apply (listener_err_leaf st _ st' conn fd fd0 pre);
  [ apply xzalloc_conn_fresh
  | cbn; rewrite ?app_nil_r, <- ?app_assoc; done
  | repeat constructor
  | reflexivity
  | cbn; rewrite ?delete_insert_eq; apply delete_id, xzalloc_conn_fresh
  | ].

Lemma client_accept (st st' : net_state) (env : os_env) (fd : Z) (lsn : listener_t) :
  simple_client_listener_cb st env fd lsn = Ok st' ->
  accepted st st' (xzalloc_conn st) fd \/
  turned_away st st' (xzalloc_conn st) fd (takes_socket lsn env).
Proof.
  unfold simple_client_listener_cb. set (conn := xzalloc_conn st).
  destruct (proto_params lsn) as [params|] eqn:Hparams; [|discriminate]. rstep.
  unfold obfs_assert. case_bool_decide as Hmode; [|discriminate]. rstep.
  cbn in Hmode.
  cbn [proto set_proto conn_zero].
  destruct (proto_create params) as [p0|] eqn:Hcreate.
  2:{ intros H. right. revert H. gave_up st st' conn fd fd (@nil call). left. split; [done|].
      intros (? & ? & ? & ? & _). congruence. }
  destruct (new_input_ok env) eqn:Hin; cbn [negb].
  2:{ intros H. right. revert H. gave_up st st' conn fd fd (@nil call). left. split; [done|].
      intros (? & ? & _ & _ & ?). congruence. }
  assert (takes_socket lsn env) as Howned by (by exists params, p0).
  destruct (new_output_ok env); cbn [negb].
  2:{ intros H. right. revert H. gave_up st st' conn fd (-1) (@nil call). by right. }
  unfold bufferevent_setcb.
  erewrite update_bev_store by (apply conns_store || reflexivity). rstep.
  erewrite update_bev_store by (apply conns_store || reflexivity). rstep.
  unfold simple_connect. erewrite handshake_into_store by reflexivity. rstep.
  destruct (_ <? 0).
  { intros H. right. revert H.
    gave_up st st' conn fd (-1) [CallProtoHandshake conn Output]. by right. }
  rewrite Hparams. rstep.
  destruct (target_addr params) as [target|]; [|discriminate]. rstep.
  destruct (connect_r env <? 0).
  { intros H. right. revert H.
    gave_up st st' conn fd (-1)
      [CallProtoHandshake conn Output; CallConnect conn (ai_addr target)]. by right. }
  unfold bufferevent_enable.
  erewrite update_bev_store by (apply conns_store || reflexivity). rstep.
  intros [= <-]. left. split; [done|].
  eexists _, _, [CallProtoHandshake conn Output; CallConnect conn (ai_addr target)].
  split; [cbn; by rewrite !insert_insert_eq|].
  split; [reflexivity|]. do 3 (split; [done|]).
  split; [cbn; rewrite Hmode; split; [by intros [? ?]|done]|].
  split; [cbn; rewrite Hmode; split; [done|eauto]|].
  split; [cbn; by rewrite <- app_assoc|]. by repeat constructor.
Qed.

Lemma server_accept (st st' : net_state) (env : os_env) (fd : Z) (lsn : listener_t) :
  simple_server_listener_cb st env fd lsn = Ok st' ->
  accepted st st' (xzalloc_conn st) fd \/
  turned_away st st' (xzalloc_conn st) fd (takes_socket lsn env).
Proof.
  unfold simple_server_listener_cb. set (conn := xzalloc_conn st).
  destruct (proto_params lsn) as [params|] eqn:Hparams; [|discriminate]. rstep.
  unfold obfs_assert. case_bool_decide as Hmode; [|discriminate]. rstep.
  cbn in Hmode.
  cbn [proto set_proto conn_zero].
  destruct (proto_create params) as [p0|] eqn:Hcreate.
  2:{ intros H. right. revert H. gave_up st st' conn fd fd (@nil call).
      left. split; [done|]. intros (? & ? & ? & ? & _). congruence. }
  destruct (new_input_ok env) eqn:Hin; cbn [negb].
  2:{ intros H. right. revert H. gave_up st st' conn fd fd (@nil call).
      left. split; [done|]. intros (? & ? & _ & _ & ?). congruence. }
  assert (takes_socket lsn env) as Howned by (by exists params, p0).
  unfold bufferevent_setcb.
  erewrite update_bev_store by (apply conns_store || reflexivity). rstep.
  destruct (new_output_ok env); cbn [negb].
  2:{ intros H. right. revert H. gave_up st st' conn fd (-1) (@nil call). by right. }
  rewrite load_conn_store. rstep.
  erewrite update_bev_store by (apply conns_store || reflexivity). rstep.
  unfold simple_connect. erewrite handshake_into_store by reflexivity. rstep.
  destruct (_ <? 0).
  { intros H. right. revert H.
    gave_up st st' conn fd (-1) [CallProtoHandshake conn Input]. by right. }
  rewrite Hparams. rstep.
  destruct (target_addr params) as [target|]; [|discriminate]. rstep.
  destruct (connect_r env <? 0).
  { intros H. right. revert H.
    gave_up st st' conn fd (-1)
      [CallProtoHandshake conn Input; CallConnect conn (ai_addr target)]. by right. }
  unfold bufferevent_enable.
  erewrite update_bev_store by (apply conns_store || reflexivity). rstep.
  intros [= <-]. left. split; [done|].
  eexists _, _, [CallProtoHandshake conn Input; CallConnect conn (ai_addr target)].
  split; [cbn; by rewrite !insert_insert_eq|].
  split; [reflexivity|]. do 3 (split; [done|]).
  split; [cbn; rewrite Hmode; split; [by intros [? ?]|done]|].
  split; [cbn; rewrite Hmode; split; [done|eauto]|].
  split; [cbn; by rewrite <- app_assoc|]. by repeat constructor.
Qed.

Lemma socks_accept (st st' : net_state) (env : os_env) (fd : Z) (lsn : listener_t) :
  socks_client_listener_cb st env fd lsn = Ok st' ->
  accepted st st' (xzalloc_conn st) fd \/
  turned_away st st' (xzalloc_conn st) fd (takes_socket lsn env).
Proof.
  unfold socks_client_listener_cb. set (conn := xzalloc_conn st).
  destruct (proto_params lsn) as [params|] eqn:Hparams; [|discriminate]. rstep.
  unfold obfs_assert. case_bool_decide as Hmode; [|discriminate]. rstep.
  cbn in Hmode.
  cbn [proto set_proto conn_zero].
  destruct (proto_create params) as [p0|] eqn:Hcreate.
  2:{ intros H. right. revert H. gave_up st st' conn fd fd (@nil call).
      left. split; [done|]. intros (? & ? & ? & ? & _). congruence. }
  destruct (new_input_ok env) eqn:Hin; cbn [negb].
  2:{ intros H. right. revert H. gave_up st st' conn fd fd (@nil call).
      left. split; [done|]. intros (? & ? & _ & _ & ?). congruence. }
  unfold bufferevent_setcb, bufferevent_enable.
  erewrite update_bev_store by (apply conns_store || reflexivity). rstep.
  erewrite update_bev_store by (apply conns_store || reflexivity). rstep.
  intros [= <-]. left. split; [done|].
  eexists _, _, (@nil call).
  split; [cbn; by rewrite !insert_insert_eq|].
  split; [reflexivity|]. do 3 (split; [done|]).
  split; [cbn; rewrite Hmode; split; [done|eauto]|].
  split; [cbn; rewrite Hmode; split; [by intros [? ?]|done]|].
  split; [cbn; by rewrite app_nil_r|]. constructor.
Qed.

(** X3.  Each of the three listener callbacks that returns either
    registers the new connection, last in the registry and owning the
    accepted socket through its input bufferevent, having freed and closed
    nothing; or leaves the registry and the allocated connections as they
    were, having freed the new record, and closed the accepted socket by
    hand exactly when no bufferevent had taken it over. *)
Theorem accept_registers_or_cleans_up (cb : evconnlistener_cb)
    (st st' : net_state) (env : os_env) (fd : Z) (lsn : listener_t) :
  run_listener_cb cb st env fd lsn = Ok st' ->
  accepted st st' (xzalloc_conn st) fd \/
  turned_away st st' (xzalloc_conn st) fd (takes_socket lsn env).
Proof.
  destruct cb; cbn [run_listener_cb].
  - apply client_accept.
  - apply server_accept.
  - apply socks_accept.
Qed.

Lemma listener_err_flag (st : net_state) (b : bool) (conn : conn_id) (fd : Z) :
  listener_err (set_shutting_down st b) conn fd =
  st' ← listener_err st conn fd; Ok (set_shutting_down st' b).
Proof.
  unfold listener_err, conn_free, load_conn.
  change (conns (set_shutting_down st b)) with (conns st).
  destruct (conns st !! conn); [|done]. rstep. by destruct (0 <=? fd).
Qed.

Ltac unwind :=
  repeat first
    [ rewrite load_conn_store
    | erewrite update_bev_store by (apply conns_store || reflexivity)
    | erewrite handshake_into_store by reflexivity
    | progress rstep ].

Ltac leaf b :=
  match goal with
  | |- listener_err ?L ?c ?fd = (listener_err ?R _ _ ≫= _) =>
      change L with (set_shutting_down R b); apply listener_err_flag
  end.

(** X4.  No listener callback reads [shutting_down]: an accept while the
    module is shutting down runs exactly as it does otherwise. *)
Theorem accept_ignores_shutdown (cb : evconnlistener_cb) (st : net_state)
    (b : bool) (env : os_env) (fd : Z) (lsn : listener_t) :
  run_listener_cb cb (set_shutting_down st b) env fd lsn =
  st' ← run_listener_cb cb st env fd lsn; Ok (set_shutting_down st' b).
Proof.
  destruct cb; cbn [run_listener_cb].
  - unfold simple_client_listener_cb.
    change (xzalloc_conn (set_shutting_down st b)) with (xzalloc_conn st).
    set (conn := xzalloc_conn st).
    destruct (proto_params lsn) as [params|] eqn:Hparams; [|done]. rstep.
    destruct (obfs_assert _); try done. rstep.
    cbn [proto set_proto conn_zero].
    destruct (proto_create params) as [p0|]; [|by leaf b].
    destruct (new_input_ok env); cbn [negb]; [|by leaf b].
    destruct (new_output_ok env); cbn [negb]; [|by leaf b].
    unfold bufferevent_setcb, simple_connect. unwind.
    destruct (_ <? 0); [by leaf b|].
    rewrite Hparams. rstep. destruct (target_addr params) as [target|]; [|done]. rstep.
    destruct (connect_r env <? 0); [by leaf b|].
    unfold bufferevent_enable. unwind. reflexivity.
  - unfold simple_server_listener_cb.
    change (xzalloc_conn (set_shutting_down st b)) with (xzalloc_conn st).
    set (conn := xzalloc_conn st).
    destruct (proto_params lsn) as [params|] eqn:Hparams; [|done]. rstep.
    destruct (obfs_assert _); try done. rstep.
    cbn [proto set_proto conn_zero].
    destruct (proto_create params) as [p0|]; [|by leaf b].
    destruct (new_input_ok env); cbn [negb]; [|by leaf b].
    unfold bufferevent_setcb, simple_connect. unwind.
    destruct (new_output_ok env); cbn [negb]; [|by leaf b].
    unwind.
    destruct (_ <? 0); [by leaf b|].
    rewrite Hparams. rstep. destruct (target_addr params) as [target|]; [|done]. rstep.
    destruct (connect_r env <? 0); [by leaf b|].
    unfold bufferevent_enable. unwind. reflexivity.
  - unfold socks_client_listener_cb.
    change (xzalloc_conn (set_shutting_down st b)) with (xzalloc_conn st).
    set (conn := xzalloc_conn st).
    destruct (proto_params lsn) as [params|] eqn:Hparams; [|done]. rstep.
    destruct (obfs_assert _); try done. rstep.
    cbn [proto set_proto conn_zero].
    destruct (proto_create params) as [p0|]; [|by leaf b].
    destruct (new_input_ok env); cbn [negb]; [|by leaf b].
    unfold bufferevent_setcb, bufferevent_enable. unwind. reflexivity.
Qed.

(** ** Every way into the module *)

Lemma conn_ok_ages (cn cn' : conn_t) : conn_ok cn -> conn_ages cn cn' -> conn_ok cn'.
Proof.
  unfold conn_ok, conn_ages.
  intros (Hss & Hfl & Hin & Hout & Hop) (Hm & Hs & Ho & Hf & Hf' & Hi & Hu & Ho').
  rewrite Hm. repeat split; tauto.
Qed.

Lemma store_ok_ages (st st' : net_state) : ages st st' -> store_ok st -> store_ok st'.
Proof.
  intros (Hback & Hreg) (Hr & Hok). split; [tauto|].
  intros c cn' (cn & Hc & Hages)%Hback. eapply conn_ok_ages; eauto.
Qed.

Lemma store_ok_initial : store_ok initial_state.
Proof.
  split; [|by intros c cn]. split; [done|]. split; [constructor|].
  intros c. cbn. rewrite lookup_empty. split; [by intros ?%elem_of_nil|by intros [? ?]].
Qed.

(** [free_each] frees what it is given, head first. *)
Lemma free_each_inv (sl : list conn_id) (st st' : net_state) :
  free_each st sl = Ok st' ->
  calls st' = calls st ++ map CallConnFree sl /\
  forall c, conns st' !! c = if decide (c ∈ sl) then None else conns st !! c.
Proof.
  revert st. induction sl as [|x sl IH]; intros st; cbn [free_each].
  - intros [= <-]. split; [by rewrite app_nil_r|]. intros c.
    by rewrite decide_False by apply not_elem_of_nil.
  - intros (st1 & (Hcalls1 & Hconns1)%conn_free_inv & (Hcalls & Hconns)%IH)%bind_Ok.
    split; [rewrite Hcalls, Hcalls1, <- app_assoc; done|].
    intros c. rewrite Hconns, Hconns1.
    destruct (decide (c = x)) as [->|Hne].
    + rewrite lookup_delete_eq, (decide_True (P := x ∈ x :: sl)) by left.
      by destruct (decide _).
    + rewrite lookup_delete_ne by done.
      destruct (decide (c ∈ sl)) as [Hin|Hin].
      * by rewrite decide_True by (by right).
      * rewrite decide_False; [done|]. by intros [?|?]%elem_of_cons.
Qed.

Lemma free_each_total (sl : list conn_id) (st : net_state) :
  NoDup sl -> (forall c, c ∈ sl -> is_Some (conns st !! c)) ->
  exists st', free_each st sl = Ok st'.
Proof.
  revert st. induction sl as [|x sl IH]; intros st Hnd Hall; cbn [free_each]; [eauto|].
  apply NoDup_cons in Hnd. destruct Hnd as (Hx & Hnd).
  destruct (Hall x) as (cn & Hcn); [left|].
  unfold conn_free at 1. rewrite (load_conn_Some _ _ _ Hcn). rstep.
  apply IH; [done|]. intros c Hc. cbn.
  rewrite lookup_delete_ne by (by intros ->). apply Hall. by right.
Qed.

Lemma ages_start_shutdown (st st' : net_state) (barbaric : Z) :
  start_shutdown st barbaric = Ok st' -> ages st st'.
Proof.
  unfold start_shutdown.
  set (st0 := if negb (shutting_down st) then set_shutting_down st true else st).
  assert (connections st0 = connections st /\ conns st0 = conns st) as (Hc0 & Hh0).
  { subst st0. by destruct (shutting_down st). }
  clearbody st0. intros (st1 & H1 & [= <-])%bind_Ok.
  assert ((forall c, conns st1 !! c = conns st !! c) /\ connections st1 = connections st \/
          (forall c, conns st1 !! c = None) /\ connections st1 = None \/
          (exists sl, connections st = Some sl /\ connections st1 = None /\
             forall c, conns st1 !! c = if decide (c ∈ sl) then None else conns st !! c))
    as Hcases.
  { destruct (negb (barbaric =? 0)).
    - unfold close_all_connections in H1. rewrite Hc0 in H1.
      destruct (connections st) as [sl|] eqn:Hsl.
      + apply bind_Ok in H1. destruct H1 as (st2 & (_ & H2)%free_each_inv & [= <-]).
        right. right. exists sl. split; [done|]. split; [done|].
        intros c. cbn. by rewrite H2, Hh0.
      + injection H1 as <-. left. by rewrite Hh0, Hc0.
    - injection H1 as <-. left. by rewrite Hh0, Hc0. }
  clear H1 Hc0 Hh0 st0.
  set (st2 := match connections st1 with
              | Some sl => if smartlist_len sl =? 0 then set_connections st1 None else st1
              | None => st1
              end).
  assert (conns st2 = conns st1 /\
          (connections st2 = connections st1 \/
           connections st1 = Some [] /\ connections st2 = None)) as (Hh2 & Hc2).
  { subst st2. destruct (connections st1) as [sl|] eqn:Hsl; [|by auto].
    rewrite smartlist_len_0. case_bool_decide as Hnil; [|by rewrite Hsl; auto].
    subst sl. auto. }
  clearbody st2.
  set (st3 := match connections st2 with
              | None => finish_shutdown st2
              | Some _ => st2
              end).
  assert (conns st3 = conns st2 /\ connections st3 = connections st2) as (Hh3 & Hc3).
  { subst st3. by destruct (connections st2) eqn:E. }
  clearbody st3. rewrite Hh2 in Hh3.
  split.
  - intros c cn'. rewrite Hh3. intros Hcn'. exists cn'.
    split; [|apply conn_ages_refl].
    destruct Hcases as [(Heq & _)|[(Hnone & _)|(sl & _ & _ & Heq)]].
    + by rewrite <- Heq.
    + by rewrite Hnone in Hcn'.
    + rewrite Heq in Hcn'. by destruct (decide _).
  - intros (Hne & Hnd & Hmem). unfold registry_ok, registry in *.
    destruct Hcases as [(Heq & Hreg)|[(Hnone & Hreg)|(sl & Hsl & Hreg & Heq)]].
    + destruct Hc2 as [Hc2|(Hc2 & _)]; [|congruence].
      rewrite Hc3, Hc2, Hreg, Hh3. split; [done|]. split; [done|].
      intros c. by rewrite Hmem, Heq.
    + destruct Hc2 as [Hc2|(Hc2 & _)]; [|congruence].
      rewrite Hc3, Hc2, Hreg, Hh3. split; [done|]. split; [constructor|].
      intros c. rewrite Hnone. cbn. split; [by intros ?%elem_of_nil|by intros [? ?]].
    + destruct Hc2 as [Hc2|(Hc2 & _)]; [|congruence].
      rewrite Hc3, Hc2, Hreg, Hh3. split; [done|]. split; [constructor|].
      intros c. rewrite Heq. cbn. rewrite Hsl in Hmem. cbn in Hmem.
      split; [by intros ?%elem_of_nil|].
      destruct (decide (c ∈ sl)) as [Hin|Hin]; [by intros [? ?]|].
      by intros ?%Hmem.
Qed.

Lemma ages_listener_new (st : net_state) (bind_ok : bool) (params : protocol_params_t) :
  ages st (listener_new st bind_ok params).1.
Proof.
  apply ages_same; unfold listener_new; cbn [listener];
    by destruct (evconnlistener_new_bind _ _ _ _).
Qed.

Lemma foldl_listener_free_conns (sl : list listener_t) (st : net_state) :
  conns (foldl listener_free st sl) = conns st /\
  connections (foldl listener_free st sl) = connections st.
Proof.
  revert st. induction sl as [|lsn sl IH]; intros st; cbn [foldl]; [done|].
  destruct (IH (listener_free st lsn)) as (-> & ->).
  unfold listener_free. by destruct (listener lsn), (proto_params lsn).
Qed.

Lemma ages_free_all_listeners (st : net_state) : ages st (free_all_listeners st).
Proof.
  unfold free_all_listeners. destruct (listeners st) as [sl|]; [|apply ages_refl].
  apply ages_same; cbn; apply foldl_listener_free_conns.
Qed.

(** An accept leaves every connection that was there as it was, and the
    store consistent. *)
Lemma accept_keeps (cb : evconnlistener_cb) (st st' : net_state) (env : os_env)
    (fd : Z) (lsn : listener_t) :
  run_listener_cb cb st env fd lsn = Ok st' ->
  (forall c cn, conns st !! c = Some cn -> conns st' !! c = Some cn) /\
  (store_ok st -> store_ok st').
Proof.
  intros H.
  assert (accepted st st' (xzalloc_conn st) fd \/
          turned_away st st' (xzalloc_conn st) fd (takes_socket lsn env))
    as [Hacc|Hno].
  { destruct cb; cbn [run_listener_cb] in H.
    - by apply client_accept.
    - by apply server_accept.
    - by apply socks_accept. }
  clear H.
  - destruct Hacc as (Hreg & cn & bi & new & Hconns & Hin & _ & Hop & Hfl & Hss & Hout & _).
    pose proof (xzalloc_conn_fresh st) as Hfresh.
    set (conn := xzalloc_conn st) in *. split.
    + intros c cn0 Hc. rewrite Hconns, lookup_insert_ne; [done|]. congruence.
    + intros ((Hne & Hnd & Hmem) & Hok). split.
      * unfold registry_ok, registry in *. rewrite Hreg. cbn.
        split; [by destruct (default [] (connections st))|].
        split.
        { apply NoDup_app. split; [done|]. split; [|apply NoDup_singleton].
          intros c Hc ->%list_elem_of_singleton. apply Hmem in Hc.
          rewrite Hfresh in Hc. by destruct Hc. }
        intros c. rewrite Hconns, elem_of_app, list_elem_of_singleton, Hmem.
        destruct (decide (c = conn)) as [->|Hc].
        { rewrite lookup_insert_eq. split; eauto. }
        rewrite lookup_insert_ne by done. split; [by intros [?|?]|auto].
      * intros c cn0. rewrite Hconns. destruct (decide (c = conn)) as [->|Hc].
        { rewrite lookup_insert_eq. intros [= <-]. unfold conn_ok.
          rewrite Hin, Hop, Hfl. split; [tauto|]. split; [done|]. split; [eauto|].
          split; [tauto|done]. }
        rewrite lookup_insert_ne by done. apply Hok.
  - destruct Hno as (Hreg & Hconns & _). split; [by rewrite Hconns|].
    apply store_ok_ages, ages_same; done.
Qed.

Lemma take_turn_ages (fuel : nat) (st st' : net_state) (t : turn) :
  take_turn fuel st t = Ok st' ->
  (forall c cn cn', conns st !! c = Some cn -> conns st' !! c = Some cn' ->
     conn_ages cn cn') /\
  (store_ok st -> store_ok st').
Proof.
  assert (forall st st', ages st st' ->
    (forall c cn cn', conns st !! c = Some cn -> conns st' !! c = Some cn' ->
       conn_ages cn cn') /\ (store_ok st -> store_ok st')) as Hages.
  { intros s s' Ha. split; [|by apply store_ok_ages].
    intros c cn cn' Hc (cn0 & Hc0 & Hcn)%(proj1 Ha). congruence. }
  destruct t as [env e|b|ok params|]; cbn [take_turn].
  - destruct e as [lsn fd| | |].
    + cbn [dispatch]. destruct (listener lsn) as [l|].
      * intros (Hsame & Hok)%accept_keeps. split; [|done].
        intros c cn cn' Hc Hc'. apply Hsame in Hc. rewrite Hc in Hc'.
        injection Hc' as <-. apply conn_ages_refl.
      * intros [= <-]. apply Hages, ages_refl.
    + intros H. apply Hages. by eapply ages_dispatch, H.
    + intros H. apply Hages. by eapply ages_dispatch, H.
    + intros H. apply Hages. by eapply ages_dispatch, H.
  - intros H. by eapply Hages, ages_start_shutdown, H.
  - intros [= <-]. apply Hages, ages_listener_new.
  - intros [= <-]. apply Hages, ages_free_all_listeners.
Qed.

Lemma turns_store_ok (fuel : nat) (ts : list turn) (st st' : net_state) :
  store_ok st -> turns fuel st ts = Ok st' -> store_ok st'.
Proof.
  revert st. induction ts as [|t ts IH]; intros st Hok; cbn [turns].
  - by intros [= <-].
  - intros (st1 & H1 & H)%bind_Ok. apply take_turn_ages in H1. eapply IH; [|exact H].
    tauto.
Qed.

Lemma registry_okb_ok (st : net_state) : registry_okb st = true -> registry_ok st.
Proof.
  unfold registry_okb.
  intros [[Hne%bool_decide_eq_true Hnd%bool_decide_eq_true]%andb_true_iff
          Hdom%bool_decide_eq_true]%andb_true_iff.
  split; [done|]. split; [done|]. intros c.
  rewrite <- elem_of_dom, Hdom. by rewrite elem_of_list_to_set.
Qed.

(** X5.  After any sequence of event-loop turns, [start_shutdown],
    [listener_new] and [free_all_listeners] calls from the initial state
    that returns, the registry lists exactly the allocated connections,
    each once, and is NULL rather than empty. *)
Theorem registry_consistent (fuel : nat) (ts : list turn) (st : net_state) :
  turns fuel initial_state ts = Ok st -> registry_ok st.
Proof. intros H. by apply (turns_store_ok fuel ts initial_state st store_ok_initial). Qed.

(** X6.  After any such sequence every allocated connection has its
    input bufferevent; it has its output bufferevent if its mode is not
    SOCKS or it is open; it is open if it is flushing; and it has a SOCKS
    state only in SOCKS mode. *)
Theorem connections_well_formed (fuel : nat) (ts : list turn) (st : net_state)
    (c : conn_id) (cn : conn_t) :
  turns fuel initial_state ts = Ok st -> conns st !! c = Some cn -> conn_ok cn.
Proof.
  intros H. apply (turns_store_ok fuel ts initial_state st store_ok_initial) in H.
  apply H.
Qed.

(** X7.  In one turn or call, for a connection that is there before and
    after: its mode is unchanged, [is_open] and [flushing] are not
    cleared, [flushing] is only set on an open connection, no bufferevent
    is dropped, a SOCKS state is not created, and [is_open] is only set
    with the output bufferevent in place. *)
Theorem turn_never_reverts (fuel : nat) (t : turn) (st st' : net_state)
    (c : conn_id) (cn cn' : conn_t) :
  take_turn fuel st t = Ok st' ->
  conns st !! c = Some cn -> conns st' !! c = Some cn' -> conn_ages cn cn'.
Proof. intros H. apply (take_turn_ages fuel st st' t H). Qed.

(** ** Teardown on a consistent store *)

Lemma registry_some (st : net_state) (sl : list conn_id) :
  connections st = Some sl -> registry st = sl.
Proof. unfold registry. by intros ->. Qed.

(** X8.  On a store whose registry lists the allocated connections,
    [close_conn] of a registered connection returns: it frees that
    connection and no other, takes it out of the registry, which becomes
    NULL when it was the last, and calls [finish_shutdown] exactly when
    it was the last and the module is shutting down. *)
Theorem close_conn_unregisters (st : net_state) (c : conn_id) :
  registry_ok st -> c ∈ registry st ->
  exists st',
    close_conn st c = Ok st' /\
    conns st' = delete c (conns st) /\
    registry st' = smartlist_remove (registry st) c /\
    length (registry st') = pred (length (registry st)) /\
    registry_ok st' /\
    listeners st' = listeners st /\ shutting_down st' = shutting_down st /\
    calls st' = calls st ++ CallConnFree c ::
      (if bool_decide (registry st' = []) && shutting_down st
       then [CallFinishShutdown] else []).
Proof.
  intros Hreg Hin. pose proof Hreg as (Hne & Hnd & Hmem).
  destruct (connections st) as [sl|] eqn:Hsl;
    [|by unfold registry in Hin; rewrite Hsl in Hin; apply elem_of_nil in Hin].
  rewrite (registry_some _ _ Hsl) in *.
  destruct (proj1 (Hmem c) Hin) as (cn & Hcn).
  unfold close_conn. rewrite Hsl. unfold conn_free.
  rewrite (load_conn_Some _ _ cn) by done. rstep.
  rewrite smartlist_len_0.
  assert (length (smartlist_remove sl c) = pred (length sl)) as Hlen.
  { clear -Hnd Hin. unfold smartlist_remove.
    induction sl as [|x sl IH]; [by apply elem_of_nil in Hin|].
    apply NoDup_cons in Hnd. destruct Hnd as (Hx & Hnd).
    rewrite filter_cons. destruct (decide (x ≠ c)) as [Hne|Heq].
    - apply elem_of_cons in Hin. destruct Hin as [->|Hin]; [done|].
      cbn. rewrite IH by done. destruct sl; [by apply elem_of_nil in Hin|done].
    - apply dec_stable in Heq. subst x. cbn. f_equal.
      clear IH Hin Hnd. induction sl as [|y sl IH]; [done|].
      rewrite filter_cons. apply not_elem_of_cons in Hx. destruct Hx as (Hy & Hx).
      rewrite decide_True by done. cbn. by rewrite IH at 1. }
  assert (registry_ok
            (set_conns (set_connections st
               (if bool_decide (smartlist_remove sl c = []) then None
                else Some (smartlist_remove sl c))) (delete c (conns st)))) as Hok.
  { unfold registry_ok, registry. cbn.
    split; [case_bool_decide; congruence|].
    assert (default [] (if bool_decide (smartlist_remove sl c = []) then None
                        else Some (smartlist_remove sl c)) = smartlist_remove sl c)
      as -> by (by case_bool_decide as E; [rewrite E|]).
    split; [by apply NoDup_filter|].
    intros c'. unfold smartlist_remove. rewrite list_elem_of_filter, Hmem.
    destruct (decide (c' = c)) as [->|Hc'].
    - rewrite lookup_delete_eq. split; [by intros (? & _)|by intros [? ?]].
    - rewrite lookup_delete_ne by done. tauto. }
  case_bool_decide as Hnil; cbn [connections set_connections log set_conns shutting_down].
  - destruct (shutting_down st) eqn:Hs; eexists; (split; [reflexivity|]);
      (split; [done|]); unfold registry at 1 2 4;
      cbn [connections finish_shutdown set_connections log set_conns default];
      rewrite Hnil in *; (split; [done|]); (split; [done|]);
      (split; [revert Hok; by apply registry_ok_same|]);
      (split; [done|]); (split; [done|]); cbn; by rewrite <- ?app_assoc.
  - eexists; (split; [reflexivity|]); (split; [done|]). unfold registry at 1 2 4.
    cbn [connections finish_shutdown set_connections log set_conns default].
    split; [done|]. split; [done|].
    split; [revert Hok; by apply registry_ok_same|].
    split; [done|]. split; [done|]. cbn. by rewrite bool_decide_eq_false_2.
Qed.
Lemma free_each_listeners (sl : list conn_id) (st st' : net_state) :
  free_each st sl = Ok st' -> listeners st' = listeners st.
Proof.
  revert st. induction sl as [|x sl IH]; intros st; cbn [free_each].
  - by intros [= <-].
  - intros (st1 & H1 & ->%IH)%bind_Ok. unfold conn_free in H1.
    destruct (load_conn st x); try discriminate. by injection H1 as <-.
Qed.

(** X9.  On such a store [start_shutdown] returns with [shutting_down]
    set.  With [barbaric] it frees every registered connection once, in
    registry order, and leaves none; without it connections and registry
    are untouched.  [finish_shutdown] is called exactly when the registry
    is empty afterwards. *)
Theorem start_shutdown_total (st : net_state) (barbaric : Z) :
  registry_ok st ->
  exists st',
    start_shutdown st barbaric = Ok st' /\
    shutting_down st' = true /\ listeners st' = listeners st /\
    registry st' = (if barbaric =? 0 then registry st else []) /\
    conns st' = (if barbaric =? 0 then conns st else ∅) /\
    registry_ok st' /\
    calls st' = calls st ++
      map CallConnFree (if barbaric =? 0 then [] else registry st) ++
      (if bool_decide (registry st' = []) then [CallFinishShutdown] else []).
Proof.
  intros Hreg. pose proof Hreg as (Hne & Hnd & Hmem).
  unfold start_shutdown.
  set (st0 := if negb (shutting_down st) then set_shutting_down st true else st).
  assert (shutting_down st0 = true /\ connections st0 = connections st /\
          conns st0 = conns st /\ calls st0 = calls st /\
          listeners st0 = listeners st) as (Hs0 & Hc0 & Hh0 & Hl0 & Hls0).
  { subst st0. by destruct (shutting_down st) eqn:E. }
  clearbody st0.
  assert (forall st1,
    shutting_down st1 = true -> listeners st1 = listeners st ->
    connections st1 <> Some [] ->
    registry st1 = (if barbaric =? 0 then registry st else []) ->
    conns st1 = (if barbaric =? 0 then conns st else ∅) ->
    calls st1 = calls st ++
      map CallConnFree (if barbaric =? 0 then [] else registry st) ->
    registry_ok st1 ->
    exists st',
      Ok (match connections
                  match connections st1 with
                  | Some sl =>
                      if smartlist_len sl =? 0 then set_connections st1 None else st1
                  | None => st1
                  end
          with
          | None =>
              finish_shutdown
                match connections st1 with
                | Some sl =>
                    if smartlist_len sl =? 0 then set_connections st1 None else st1
                | None => st1
                end
          | Some _ =>
              match connections st1 with
              | Some sl =>
                  if smartlist_len sl =? 0 then set_connections st1 None else st1
              | None => st1
              end
          end) = Ok st' /\
      shutting_down st' = true /\ listeners st' = listeners st /\
      registry st' = (if barbaric =? 0 then registry st else []) /\
      conns st' = (if barbaric =? 0 then conns st else ∅) /\
      registry_ok st' /\
      calls st' = calls st ++
        map CallConnFree (if barbaric =? 0 then [] else registry st) ++
        (if bool_decide (registry st' = []) then [CallFinishShutdown] else []))
    as Htail.
  { intros st1 Hs1 Hls1 Hne1 Hr1 Hh1 Hl1 Hok1.
    destruct (connections st1) as [sl|] eqn:Hsl.
    - assert (sl <> []) as Hnil by (intros ->; congruence).
      pose proof (registry_some _ _ Hsl) as Hrs.
      rewrite smartlist_len_0, bool_decide_eq_false_2 by done.
      rewrite Hsl. eexists; split; [reflexivity|]. rewrite Hrs in *.
      rewrite bool_decide_eq_false_2, app_nil_r by done. done.
    - assert (registry st1 = []) as Hrn by (unfold registry; by rewrite Hsl).
      rewrite Hsl. eexists; split; [reflexivity|].
      change (registry (finish_shutdown st1)) with (registry st1).
      rewrite Hrn in *. cbn. rewrite Hl1, <- app_assoc.
      do 4 (split; [done|]). split; [revert Hok1; by apply registry_ok_same|done]. }
  destruct (barbaric =? 0) eqn:Hb; cbn [negb]; rstep.
  - apply Htail; try done; try congruence.
    + unfold registry. by rewrite Hc0.
    + by rewrite Hl0, app_nil_r.
    + revert Hreg. apply registry_ok_same; [done|]. intros c. by rewrite Hh0.
  - unfold close_all_connections. rewrite Hc0.
    destruct (connections st) as [sl|] eqn:Hsl.
    + rewrite (registry_some _ _ Hsl) in *.
      destruct (free_each_total sl st0) as (st1 & H1); [done| |].
      { intros c. rewrite Hh0. apply Hmem. }
      rewrite H1. rstep. apply free_each_globals in H1 as Hg.
      destruct Hg as (_ & Hs1 & _). apply free_each_listeners in H1 as Hls1.
      apply free_each_inv in H1.
      destruct H1 as (Hl1 & Hh1).
      assert (conns st1 = ∅) as Hempty.
      { apply map_eq. intros c. rewrite Hh1, lookup_empty, Hh0.
        destruct (decide (c ∈ sl)) as [Hc|Hc]; [done|].
        destruct (conns st !! c) eqn:E; [|done]. destruct Hc. apply Hmem. eauto. }
      apply Htail; try done.
      * cbn. by rewrite Hs1.
      * cbn. by rewrite Hls1.
      * cbn. by rewrite Hl1, Hl0.
      * split; [done|]. split; [constructor|]. intros c. cbn. rewrite Hempty, lookup_empty.
        split; [by intros ?%elem_of_nil|by intros [? ?]].
    + assert (registry st = []) as Hr by (unfold registry; by rewrite Hsl).
      rewrite Hr in *. rstep.
      assert (conns st = ∅) as Hempty.
      { apply map_eq. intros c. rewrite lookup_empty.
        destruct (conns st !! c) eqn:E; [|done].
        assert (c ∈ @nil conn_id) as Hc by (apply Hmem; eauto).
        by apply elem_of_nil in Hc. }
      apply Htail; try done; try congruence.
      * unfold registry. by rewrite Hc0.
      * cbn. by rewrite Hl0, app_nil_r.
      * revert Hreg. apply registry_ok_same; [congruence|]. intros c. by rewrite Hh0.
Qed.

(** ** The steady state *)

Lemma flag_set_lor (x a b : Z) :
  flag_set x (Z.lor a b) = flag_set x a || flag_set x b.
Proof.
  unfold flag_set. rewrite Z.land_lor_distr_r, <- negb_andb. f_equal.
  destruct (Z.land x a =? 0) eqn:Ha, (Z.land x b =? 0) eqn:Hb;
    rewrite ?Z.eqb_eq, ?Z.eqb_neq in *; cbn;
    rewrite ?Z.eqb_eq, ?Z.eqb_neq, Z.lor_eq_0_iff; tauto.
Qed.

Lemma no_error_event (what : Z) :
  flag_set what error_events = false -> flag_set what BEV_EVENT_ERROR = false.
Proof.
  unfold error_events. rewrite !flag_set_lor.
  by intros [[_ ?]%orb_false_iff _]%orb_false_iff.
Qed.

(** X10.  [socks_event_cb] on [BEV_EVENT_CONNECTED] without an error
    bit, for a SOCKS connection that is not flushing and has no pipelined
    bytes: the success reply is queued for the client, the SOCKS state is
    freed, both bufferevents get the callbacks of the steady state, the
    connection is open and its input is enabled for reading and writing;
    the outbound buffers, the registry and the call log are untouched.
    The reply is made from the SOCKS state as [socks_state_set_address]
    leaves it when [getpeername] succeeds; what that function is given is
    not the peer address but [ss] after a call with [slen = sizeof(&ss)]:
    the first pointer-size bytes of the address, and behind them the
    bytes the uninitialised local held. *)
Theorem socks_connected_goes_steady (st : net_state) (env : os_env)
    (what : Z) (conn : conn_id) (cn : conn_t) (ss : socks_state_t)
    (bi bo : bufferevent) :
  conns st !! conn = Some cn ->
  input cn = Some bi -> output cn = Some bo -> socks_state cn = Some ss ->
  flushing cn = false ->
  flag_set what error_events = false ->
  flag_set what BEV_EVENT_CONNECTED = true ->
  bev_input bi = [] ->
  exists st' cn' bi' bo',
    socks_event_cb st env (PBev conn Output) what (PConn conn) = Ok st' /\
    same_globals st st' /\
    conns st' = <[conn := cn']> (conns st) /\
    conn_mode cn' = conn_mode cn /\ proto cn' = proto cn /\
    socks_state cn' = None /\ is_open cn' = true /\ flushing cn' = false /\
    input cn' = Some bi' /\ output cn' = Some bo' /\
    callbacks bi' = (Some CB_upstream_read, None, Some CB_input_event, PConn conn) /\
    callbacks bo' = (Some CB_downstream_read, None, Some CB_output_event, PConn conn) /\
    read_enabled bi' = true /\ write_enabled bi' = true /\
    bev_input bi' = [] /\
    bev_output bi' = (socks_send_reply (socks_with_peer env ss) (bev_output bi) 0).2 /\
    bev_input bo' = bev_input bo /\ bev_output bo' = bev_output bo /\
    enabled bo' = enabled bo /\
    (forall addr, peername env = Some addr ->
       socks_with_peer env ss =
         socks_state_set_address ss
           (take (sizeof_pointer env) addr ++
            drop (length (take (sizeof_pointer env) addr)) (ss_uninit env))) /\
    (peername env = None -> socks_with_peer env ss = ss).
Proof.
  intros Hc Hin Hout Hss Hfl Hev Hconn Hpipe.
  pose proof (no_error_event what Hev) as Herr.
  assert ((forall addr, peername env = Some addr ->
             socks_with_peer env ss =
               socks_state_set_address ss
                 (take (sizeof_pointer env) addr ++
                  drop (length (take (sizeof_pointer env) addr)) (ss_uninit env))) /\
          (peername env = None -> socks_with_peer env ss = ss)) as Hpeer.
  { unfold socks_with_peer, getpeername. split; [intros addr|]; by intros ->. }
  unfold socks_event_cb. cbn [as_conn]. rstep.
  rewrite (load_conn_Some st conn cn Hc). rstep.
  rewrite (field_ptr_Some conn cn Output bo Hout), ptr_eqb_refl.
  cbn [obfs_assert]. rstep. rewrite Herr. rstep. rewrite Hconn.
  rewrite Hss, bool_decide_eq_true_2 by eauto. cbn [obfs_assert]. rstep.
  rewrite (load_socks_Some st conn cn ss Hc Hss). rstep.
  rewrite (load_bev_PBev st conn Output cn Hc). cbn [get_side]. rewrite Hout. rstep.
  rewrite (store_socks_Some st conn cn _ Hc). rstep.
  rewrite (field_ptr_Some conn cn Input bi Hin).
  unfold socks_send_reply_on, bufferevent_get_output.
  erewrite load_socks_Some by (apply conns_store || reflexivity). rstep.
  erewrite load_bev_store by (cbn; exact Hin). rstep.
  fold (socks_with_peer env ss).
  destruct (socks_send_reply _ (bev_output bi) 0) as [ss' outb'].
  erewrite update_bev_store by (apply conns_store || (cbn; exact Hin)). rstep.
  erewrite store_socks_Some by apply conns_store. rstep.
  erewrite store_socks_Some by apply conns_store. rstep.
  unfold bufferevent_setcb.
  erewrite update_bev_store by (apply conns_store || reflexivity). rstep.
  erewrite update_bev_store by (apply conns_store || (cbn; exact Hout)). rstep.
  unfold bufferevent_get_input.
  erewrite load_bev_store by reflexivity. rstep.
  cbn [bev_input set_callbacks set_bev_output].
  rewrite Hpipe, evbuffer_length_0, bool_decide_eq_true_2 by done. rstep.
  unfold output_event_cb. cbn [as_conn]. rstep.
  rewrite load_conn_store. rstep.
  erewrite field_ptr_Some by reflexivity. rewrite ptr_eqb_refl.
  cbn [obfs_assert]. rstep.
  cbn [flushing set_side set_input set_output set_socks_state].
  rewrite Hfl, Hev, Hconn. rstep.
  unfold bufferevent_enable.
  erewrite update_bev_store by (apply conns_store || reflexivity). rstep.
  eexists _, _, _, _. split; [reflexivity|].
  split; [done|]. split; [cbn; by rewrite !insert_insert_eq|].
  do 4 (split; [reflexivity|]). split; [exact Hfl|].
  do 4 (split; [reflexivity|]).
  split; [apply enable_both_read|]. split; [apply enable_both_write|].
  split; [exact Hpipe|]. do 4 (split; [reflexivity|]). exact Hpeer.
Qed.

(** X11.  [upstream_read_cb] on either bufferevent of a connection that
    has both: [proto_send] reads the input evbuffer of that bufferevent
    and writes the output evbuffer of the other one, nothing else of
    either bufferevent or of the connection's flags changes, and the
    connection is closed exactly when [proto_send] answers a negative
    value. *)
Theorem upstream_relays_across (st : net_state) (conn : conn_id) (cn : conn_t)
    (s : side) (p : protocol_t) (bs bo : bufferevent) :
  conns st !! conn = Some cn -> proto cn = Some p ->
  get_side cn s = Some bs -> get_side cn (opposite s) = Some bo ->
  exists st' cn',
    upstream_read_cb st (PBev conn s) (PConn conn) =
      (if (proto_send p (bev_input bs) (bev_output bo)).1.1.1 <? 0
       then close_conn st' conn else Ok st') /\
    same_globals st st' /\
    conns st' = <[conn := cn']> (conns st) /\
    conn_core cn' =
      (conn_mode cn, Some (proto_send p (bev_input bs) (bev_output bo)).1.1.2,
       socks_state cn, is_open cn, flushing cn) /\
    get_side cn' s =
      Some (set_bev_input bs (proto_send p (bev_input bs) (bev_output bo)).1.2) /\
    get_side cn' (opposite s) =
      Some (set_bev_output bo (proto_send p (bev_input bs) (bev_output bo)).2).
Proof.
  intros Hc Hp Hs Ho.
  unfold upstream_read_cb. cbn [as_conn]. rstep.
  unfold other_side. rewrite (load_conn_Some st conn cn Hc). rstep.
  assert ((if ptr_eqb (PBev conn s) (field_ptr conn cn Input)
           then field_ptr conn cn Output else field_ptr conn cn Input)
          = PBev conn (opposite s)) as ->.
  { unfold ptr_eqb, field_ptr. destruct s; cbn in Hs, Ho |- *; rewrite Hs, Ho.
    - by rewrite bool_decide_eq_true_2.
    - by rewrite bool_decide_eq_false_2. }
  unfold send_through. rewrite (load_conn_Some st conn cn Hc). rstep.
  rewrite Hp. rstep. unfold bufferevent_get_input, bufferevent_get_output.
  rewrite (load_bev_PBev st conn s cn Hc), Hs. rstep.
  rewrite (load_bev_PBev st conn (opposite s) cn Hc), Ho. rstep.
  destruct (proto_send p (bev_input bs) (bev_output bo)) as [[[r p'] inb'] outb'].
  cbn [fst snd].
  erewrite update_bev_store by (apply conns_store || (destruct s; exact Hs)). rstep.
  erewrite update_bev_store
    by (apply conns_store || (destruct s; cbn in Ho |- *; exact Ho)). rstep.
  eexists _, _. split; [reflexivity|]. split; [done|].
  split; [cbn; by rewrite !insert_insert_eq|].
  destruct s; cbn; repeat split.
Qed.

(** ** Every callback returns *)






































End Facts.

(** ** Concrete runs *)





Lemma flushing_input_event_aborts_witness :
  exists st',
    error_or_eof sample_client_busy 0%nat (PBev 0%nat Output) (PBev 0%nat Input)
      = Ok st' /\
    dispatch 1 st' fair_weather (Happened (PBev 0%nat Input) BEV_EVENT_EOF) = Abort.
Proof.
  destruct (flushing_input_event_aborts sample_client_busy 0%nat
              (sample_conn sample_client_busy)
              (PBev 0%nat Output) (PBev 0%nat Input)
              (sample_bev sample_client_busy Output)
              (sample_bev sample_client_busy Input))
    as (st' & bf' & Hrun & _ & _ & _ & Habort).
  - vm_compute. reflexivity.
  - vm_compute. reflexivity.
  - vm_compute. reflexivity.
  - vm_compute. reflexivity.
  - vm_compute. reflexivity.
  - vm_compute. discriminate.
  - discriminate.
  - exists st'. split; [exact Hrun|]. by apply Habort.
Defined.

Lemma socks_connect_failure_reply_witness :
  exists st' cn' bi',
    socks_event_cb sample_socks_connecting fair_weather (PBev 0%nat Output)
      BEV_EVENT_ERROR (PConn 0%nat) = Ok st' /\
    conns st' !! 0%nat = Some cn' /\ input cn' = Some bi' /\
    bev_output bi' = [Byte.x01] /\ writecb bi' = Some CB_close_conn_on_flush.
Proof.
  destruct (socks_connect_failure_reply sample_socks_connecting fair_weather
              BEV_EVENT_ERROR 0%nat (sample_conn sample_socks_connecting)
              ST_HAVE_ADDR
              (sample_bev sample_socks_connecting Input)
              (sample_bev sample_socks_connecting Output))
    as (st' & cn' & bi' & Hrun & Hc & Hin & _ & _ & Hout & Hcb & _).
  - vm_compute. reflexivity.
  - vm_compute. reflexivity.
  - vm_compute. reflexivity.
  - vm_compute. reflexivity.
  - vm_compute. reflexivity.
  - vm_compute. reflexivity.
  - exists st', cn', bi'. do 3 (split; [assumption|]).
    split; [|exact Hcb]. rewrite Hout. vm_compute. reflexivity.
Defined.



Lemma send_pending_ignores_send_failure_witness :
  send_through sample_pending_received 0%nat (PBev 0%nat Input) (PBev 0%nat Output)
    = Ok (-1, sample_pending_sent) /\
  downstream_read_cb sample_pending (PBev 0%nat Output) (PConn 0%nat)
    = Ok sample_pending_sent /\
  connections sample_pending_sent = Some [0%nat].
Proof.
  destruct (send_pending_ignores_send_failure sample_pending
              (PBev 0%nat Output) (PBev 0%nat Input) 0%nat) as [H _].
  { vm_compute. reflexivity. }
  destruct (H sample_pending_received (sample_conn sample_pending_received)
              (-1) sample_pending_sent) as (Hrun & _ & _).
  - vm_compute. reflexivity.
  - vm_compute. reflexivity.
  - vm_compute. reflexivity.
  - split; [vm_compute; reflexivity|]. split; [exact Hrun|]. vm_compute. reflexivity.
Defined.

Lemma handshake_precedes_connect_witness :
  calls sample_server_accepted =
    [CallProtoHandshake 0%nat Input;
     CallConnect 0%nat [Byte.x7f; Byte.x00; Byte.x00; Byte.x01]] /\
  exists bi, input (sample_conn sample_server_accepted) = Some bi /\
             bev_output bi = [Byte.x16].
Proof.
  destruct (@handshake_precedes_connect sample_protocol toy_socks)
    as (_ & Hserver & _).
  destruct (Hserver initial_state sample_server_accepted fair_weather 5
              (sample_listener LSN_SIMPLE_SERVER))
    as (_ & Hq & _).
  { vm_compute. reflexivity. }
  split; [vm_compute; reflexivity|].
  destruct (Hq (sample_conn sample_server_accepted))
    as (params & p0 & bi & bo & _ & _ & Hin & _ & Hbi & _).
  { vm_compute. reflexivity. }
  exists bi. split; [exact Hin|].
  rewrite Hbi. destruct p0. vm_compute. reflexivity.
Defined.

(** C6, as the spec states it, fails for the simple-server flow: when the
    connect call is issued the handshake byte sits in the output evbuffer
    of the input stream, and the outbound stream has nothing queued. *)
Lemma server_handshake_not_outbound :
  ~ (forall (st st' : @net_state sample_protocol toy_socks) env fd lsn,
       simple_server_listener_cb st env fd lsn = Ok st' ->
       flow_outcome st st' (xzalloc_conn st) (fun cn =>
         exists params p0 bo,
           proto_params lsn = Some params /\
           @proto_create sample_protocol params = Some p0 /\
           output cn = Some bo /\
           bev_output bo = (@proto_handshake sample_protocol p0 []).2)).
Proof.
  intros H.
  destruct (H initial_state sample_server_accepted fair_weather 5
              (sample_listener LSN_SIMPLE_SERVER))
    as (_ & Hq & _).
  { vm_compute. reflexivity. }
  destruct (Hq (sample_conn sample_server_accepted))
    as (params & p0 & bo & _ & _ & Hout & Hbo).
  { vm_compute. reflexivity. }
  vm_compute in Hout. injection Hout as <-. destruct p0. vm_compute in Hbo.
  discriminate.
Qed.

Lemma socks_event_pipelined_undefined_witness :
  bev_input (sample_bev sample_socks_pipelined Input) = [Byte.x47] /\
  socks_event_cb sample_socks_pipelined fair_weather (PBev 0%nat Output)
    BEV_EVENT_CONNECTED (PConn 0%nat) = Undef.
Proof.
  split; [vm_compute; reflexivity|].
  apply (socks_event_pipelined_undefined sample_socks_pipelined fair_weather
           BEV_EVENT_CONNECTED 0%nat (sample_conn sample_socks_pipelined)
           ST_HAVE_ADDR
           (sample_bev sample_socks_pipelined Input)
           (sample_bev sample_socks_pipelined Output)).
  - vm_compute. reflexivity.
  - vm_compute. reflexivity.
  - vm_compute. reflexivity.
  - vm_compute. reflexivity.
  - vm_compute. reflexivity.
  - vm_compute. reflexivity.
  - vm_compute. discriminate.
Defined.

Lemma input_quiet_until_connected_witness :
  closed_input_quiet false sample_client_accepted /\
  input_read (sample_conn sample_client_accepted) = false /\
  input_read (sample_conn sample_client_open) = true.
Proof.
  destruct (@input_quiet_until_connected sample_protocol toy_socks) as (Hquiet & Hopen).
  split; [|split].
  - apply (Hquiet 1%nat
             [(fair_weather, Accepted (sample_listener LSN_SIMPLE_CLIENT) 5)]).
    vm_compute. reflexivity.
  - vm_compute. reflexivity.
  - destruct (Hopen 1%nat sample_client_accepted fair_weather
                (Happened (PBev 0%nat Output) BEV_EVENT_CONNECTED)
                sample_client_open 0%nat
                (sample_conn sample_client_accepted)
                (sample_conn sample_client_open))
      as (what & _ & _ & Hread).
    + vm_compute. reflexivity.
    + vm_compute. reflexivity.
    + vm_compute. reflexivity.
    + vm_compute. reflexivity.
    + vm_compute. reflexivity.
    + exact Hread.
Defined.

(** C4, as the spec states it, fails for SocksClient: an accepted SOCKS
    connection is not open and reads its input stream. *)
Lemma socks_input_reads_before_open :
  ~ (forall fuel es (st : @net_state sample_protocol toy_socks),
       run fuel initial_state es = Ok st -> closed_input_quiet true st).
Proof.
  intros H.
  specialize (H 1%nat
                [(fair_weather, Accepted (sample_listener LSN_SOCKS_CLIENT) 5)]
                sample_socks_accepted).
  assert (input_read (sample_conn sample_socks_accepted) = false) as Hread.
  { apply (H ltac:(vm_compute; reflexivity) 0%nat).
    - vm_compute. reflexivity.
    - discriminate.
    - vm_compute. reflexivity. }
  vm_compute in Hread. discriminate.
Qed.

(** ** Scenarios *)

(** An unsupported SOCKS command: the client sees the reply byte 0x07, and
    once it is written the connection is gone and the registry released. *)
Example socks_bind_is_refused :
  let st1 := from_ok (run (P:=sample_protocol) (K:=toy_socks) 1 initial_state
                        [(fair_weather, Accepted (sample_listener LSN_SOCKS_CLIENT) 5);
                         (fair_weather, Readable (PBev 0%nat Input) [Byte.x02])]) in
  let st2 := from_ok (run 1 st1 [(fair_weather, Written (PBev 0%nat Input) 1)]) in
  bev_output (sample_bev st1 Input) = [Byte.x07] /\
  connections st1 = Some [0%nat] /\
  connections st2 = None /\ conns st2 = ∅.
Proof. vm_compute. repeat split. Qed.

(** Half-close: the target writes two bytes and closes.  The bytes stay
    queued for the client, the connection is flushing, and it is closed
    when they have been written. *)
Example half_close_flushes :
  let st1 := from_ok (run 1 sample_client_open
                        [(fair_weather, Readable (PBev 0%nat Output) [Byte.x68; Byte.x69]);
                         (fair_weather, Happened (PBev 0%nat Output) BEV_EVENT_EOF)]) in
  let st2 := from_ok (run 1 st1 [(fair_weather, Written (PBev 0%nat Input) 2)]) in
  bev_output (sample_bev st1 Input) = [Byte.x68; Byte.x69] /\
  flushing (sample_conn st1) = true /\
  connections st1 = Some [0%nat] /\
  connections st2 = None.
Proof. vm_compute. repeat split. Qed.

(** Graceful shutdown with one live connection: [finish_shutdown] waits
    for the connection to close. *)
Example graceful_shutdown_waits :
  let st1 := from_ok (start_shutdown sample_client_open 0) in
  let st2 := from_ok (close_conn st1 0%nat) in
  finish_shutdown_calls st1 = 0%nat /\ finish_shutdown_calls st2 = 1%nat.
Proof. vm_compute. repeat split. Qed.

(** Barbaric shutdown frees the connection and finishes at once. *)
Example barbaric_shutdown_finishes :
  let st1 := from_ok (start_shutdown sample_client_open 1) in
  connections st1 = None /\ conns st1 = ∅ /\ finish_shutdown_calls st1 = 1%nat.
Proof. vm_compute. repeat split. Qed.

(** ** Concrete runs of the store-wide facts *)

Lemma accept_registers_or_cleans_up_witness :
  turned_away sample_client_open sample_turned_away 1%nat 9
    (@takes_socket sample_protocol (sample_listener LSN_SIMPLE_CLIENT) no_outbound).
Proof.
  destruct (accept_registers_or_cleans_up CB_simple_client_listener
              sample_client_open sample_turned_away no_outbound 9
              (sample_listener LSN_SIMPLE_CLIENT)) as [Hacc|Hno].
  - vm_compute. reflexivity.
  - destruct Hacc as (Hreg & _). vm_compute in Hreg. discriminate Hreg.
  - exact Hno.
Defined.

Lemma registry_consistent_witness : registry_ok sample_two_conns.
Proof.
  apply (registry_consistent 1 sample_turns). vm_compute. reflexivity.
Defined.

Lemma connections_well_formed_witness :
  conn_ok (sample_conn sample_two_conns).
Proof.
  apply (connections_well_formed 1 sample_turns sample_two_conns 0%nat).
  - vm_compute. reflexivity.
  - vm_compute. reflexivity.
Defined.

Lemma turn_never_reverts_witness :
  conn_ages (sample_conn sample_client_accepted) (sample_conn sample_client_open).
Proof.
  apply (turn_never_reverts 1
           (Reactor fair_weather (Happened (PBev 0%nat Output) BEV_EVENT_CONNECTED))
           sample_client_accepted sample_client_open 0%nat).
  - vm_compute. reflexivity.
  - vm_compute. reflexivity.
  - vm_compute. reflexivity.
Defined.

Lemma close_conn_unregisters_witness :
  exists st',
    close_conn sample_two_conns 0%nat = Ok st' /\
    conns st' = delete 0%nat (conns sample_two_conns) /\
    registry st' = smartlist_remove (registry sample_two_conns) 0%nat /\
    length (registry st') = pred (length (registry sample_two_conns)) /\
    registry_ok st' /\
    listeners st' = listeners sample_two_conns /\
    shutting_down st' = shutting_down sample_two_conns /\
    calls st' = calls sample_two_conns ++ CallConnFree 0%nat ::
      (if bool_decide (registry st' = []) && shutting_down sample_two_conns
       then [CallFinishShutdown] else []).
Proof.
  apply (close_conn_unregisters sample_two_conns 0%nat).
  - apply registry_okb_ok. vm_compute. reflexivity.
  - apply (bool_decide_unpack _). vm_compute. exact I.
Defined.

Lemma start_shutdown_total_witness :
  exists st',
    start_shutdown sample_two_conns 1 = Ok st' /\
    shutting_down st' = true /\ listeners st' = listeners sample_two_conns /\
    registry st' = [] /\ conns st' = ∅ /\ registry_ok st' /\
    calls st' = calls sample_two_conns ++
      map CallConnFree (registry sample_two_conns) ++
      (if bool_decide (registry st' = []) then [CallFinishShutdown] else []).
Proof.
  apply (start_shutdown_total sample_two_conns 1).
  apply registry_okb_ok. vm_compute. reflexivity.
Defined.

Lemma socks_connected_goes_steady_witness :
  exists st',
    socks_event_cb sample_socks_connecting fair_weather (PBev 0%nat Output)
      BEV_EVENT_CONNECTED (PConn 0%nat) = Ok st' /\
    same_globals sample_socks_connecting st' /\
    socks_state (sample_conn st') = None /\ is_open (sample_conn st') = true /\
    bev_output (sample_bev st' Input) = [Byte.x00].
Proof.
  destruct (socks_connected_goes_steady sample_socks_connecting fair_weather
              BEV_EVENT_CONNECTED 0%nat (sample_conn sample_socks_connecting)
              ST_HAVE_ADDR
              (sample_bev sample_socks_connecting Input)
              (sample_bev sample_socks_connecting Output))
    as (st' & cn' & bi' & bo' & Hrun & Hg & Hconns & _ & _ & Hss & Hop & _ & Hin
        & _ & _ & _ & _ & _ & _ & Hout & _).
  - vm_compute. reflexivity.
  - vm_compute. reflexivity.
  - vm_compute. reflexivity.
  - vm_compute. reflexivity.
  - vm_compute. reflexivity.
  - vm_compute. reflexivity.
  - vm_compute. reflexivity.
  - vm_compute. reflexivity.
  - exists st'. split; [exact Hrun|]. split; [exact Hg|].
    unfold sample_bev, sample_conn. rewrite Hconns, lookup_insert_eq. cbn [default].
    split; [exact Hss|]. split; [exact Hop|].
    change (get_side (id cn') Input) with (input cn'). rewrite Hin.
    change (default (bufferevent_socket_new 0) (Some bi')) with bi'.
    rewrite Hout. vm_compute. reflexivity.
Defined.

Lemma upstream_relays_across_witness :
  exists st' cn',
    upstream_read_cb sample_client_open (PBev 0%nat Input) (PConn 0%nat) =
      (if (@proto_send sample_protocol tt
             (bev_input (sample_bev sample_client_open Input))
             (bev_output (sample_bev sample_client_open Output))).1.1.1 <? 0
       then close_conn st' 0%nat else Ok st') /\
    same_globals sample_client_open st' /\
    conns st' = <[0%nat := cn']> (conns sample_client_open) /\
    conn_core cn' =
      (conn_mode (sample_conn sample_client_open),
       Some (@proto_send sample_protocol tt
               (bev_input (sample_bev sample_client_open Input))
               (bev_output (sample_bev sample_client_open Output))).1.1.2,
       socks_state (sample_conn sample_client_open),
       is_open (sample_conn sample_client_open),
       flushing (sample_conn sample_client_open)) /\
    get_side cn' Input =
      Some (set_bev_input (sample_bev sample_client_open Input)
              (@proto_send sample_protocol tt
                 (bev_input (sample_bev sample_client_open Input))
                 (bev_output (sample_bev sample_client_open Output))).1.2) /\
    get_side cn' (opposite Input) =
      Some (set_bev_output (sample_bev sample_client_open Output)
              (@proto_send sample_protocol tt
                 (bev_input (sample_bev sample_client_open Input))
                 (bev_output (sample_bev sample_client_open Output))).2).
Proof.
  apply (upstream_relays_across sample_client_open 0%nat
           (sample_conn sample_client_open) Input tt
           (sample_bev sample_client_open Input)
           (sample_bev sample_client_open Output)).
  - vm_compute. reflexivity.
  - vm_compute. reflexivity.
  - vm_compute. reflexivity.
  - vm_compute. reflexivity.
Defined.

